(** * Artwork maintenance scripts: description-file parser, directory
      validator and print-ratio matcher

    A shallow embedding of the parsing, validation and matching core of
    the scripts under [lindsey-website/scripts]:

    - [merge_artworks.py] / [import_artwork.py]: [parse_artwork_file],
      [derive_image_basename_from_folder], [parse_price],
      [determine_for_sale], [parse_date_produced], [format_categories];
    - [test_dir_img_txt_title_match.py]: [get_valid_art_directories],
      [stripDirStringToImageFormat];
    - [add_valid_ratios.py]: [format_size], [calculate_ratio],
      [find_matching_print_sizes], the catalog [VALID_PRINT_SIZES] and
      the rewriting loop of [process_artwork_file];
    - [fix_missing_titles.py]: [extract_title_from_filename],
      [update_title_in_file].

    Python values are modelled as follows.  A [str] is a [string] whose
    characters are code points below 256; the character tables
    ([isspace], [lower], the regular-expression classes) are CPython's on
    that range.  A [dict] with string keys is a [gmap string _].  A raised
    exception is the [Raise] case of [result].  A [float] is an IEEE-754
    binary64 value, kept as the exact rational it denotes; every
    operation rounds the exact result to nearest, ties to even, and is
    compared on the catalog with the Standard Library's [SpecFloat]. *)

From Stdlib Require Import ZArith QArith Qround Qabs Lia Bool Ascii String List DecimalString.
From Stdlib Require Import Permutation Sorted Decimal DecimalPos DecimalN DecimalZ.
From Stdlib Require SpecFloat.
From stdpp Require Import gmap strings.

Import ListNotations.
Local Open Scope string_scope.
Local Open Scope list_scope.

(** ** Exceptions *)

Inductive exn : Type := ValueError | ZeroDivisionError | OverflowError | IndexError.

Inductive result (A : Type) : Type :=
| Ok (a : A)
| Raise (e : exn).

Arguments Ok {A} a.
Arguments Raise {A} e.

#[global] Instance result_ret : MRet result := fun _ a => Ok a.

#[global] Instance result_bind : MBind result := fun _ _ f m =>
  match m with
  | Ok a => f a
  | Raise e => Raise e
  end.

#[global] Instance result_fmap : FMap result := fun _ _ f m =>
  match m with
  | Ok a => Ok (f a)
  | Raise e => Raise e
  end.

(** ** Characters *)

Module Char.

Definition ord (c : ascii) : N := N_of_ascii c.

Definition LF : ascii := "010"%char.
Definition CR : ascii := "013"%char.
Definition TAB : ascii := "009"%char.
Definition SP : ascii := " "%char.

Definition in_range (lo hi : N) (c : ascii) : bool :=
  ((lo <=? ord c) && (ord c <=? hi))%N.

Definition eqc (a : ascii) (c : ascii) : bool := Ascii.eqb a c.

(** [str.isspace] on one character, which is also the class [\s] of a
    [str] pattern: TAB..CR, FS..US, space, NEL and NBSP. *)
Definition isspace (c : ascii) : bool :=
  in_range 9 13 c || in_range 28 32 c || (ord c =? 133)%N || (ord c =? 160)%N.

Definition is_upper_az (c : ascii) : bool := in_range 65 90 c.
Definition is_lower_az (c : ascii) : bool := in_range 97 122 c.

(** The class [[A-Za-z]]. *)
Definition is_letter (c : ascii) : bool := is_upper_az c || is_lower_az c.

(** The class [\d] of a [str] pattern: decimal digits. *)
Definition is_digit (c : ascii) : bool := in_range 48 57 c.

(** The class [\w] of a [str] pattern: [str.isalnum] or underscore.
    Below 256 the alphanumerics outside ASCII are the ordinal
    indicators, the micro sign, the superscript digits, the vulgar
    fractions and the accented letters. *)
Definition is_word (c : ascii) : bool :=
  is_letter c || is_digit c || eqc "_" c
  || (ord c =? 170)%N || (ord c =? 178)%N || (ord c =? 179)%N
  || (ord c =? 181)%N || (ord c =? 185)%N || (ord c =? 186)%N
  || in_range 188 190 c || in_range 192 214 c || in_range 216 246 c
  || in_range 248 255 c.

(** The class [[ \t]]. *)
Definition is_blank (c : ascii) : bool := eqc SP c || eqc TAB c.

(** The classes [[^\n]] and [.] (without DOTALL). *)
Definition not_LF (c : ascii) : bool := negb (eqc LF c).

(** [str.lower] on one character: A-Z and the upper-case accented
    letters (all of 192..222 but the multiplication sign). *)
Definition lower (c : ascii) : ascii :=
  if is_upper_az c || (in_range 192 222 c && negb (ord c =? 215)%N)
  then ascii_of_N (ord c + 32) else c.

End Char.

(** ** Strings: the [str] methods the scripts call *)

Module Str.

Definition nl : string := String Char.LF "".
Definition tab : string := String Char.TAB "".

Fixpoint map (f : ascii -> ascii) (s : string) : string :=
  match s with
  | "" => ""
  | String c s' => String (f c) (map f s')
  end.

Fixpoint forallb (p : ascii -> bool) (s : string) : bool :=
  match s with
  | "" => true
  | String c s' => p c && forallb p s'
  end.

Fixpoint filter (p : ascii -> bool) (s : string) : string :=
  match s with
  | "" => ""
  | String c s' => if p c then String c (filter p s') else filter p s'
  end.

Definition is_empty (s : string) : bool :=
  match s with "" => true | _ => false end.

(** The longest prefix within a class, and what follows it. *)
Fixpoint takewhile (p : ascii -> bool) (s : string) : string :=
  match s with
  | String c s' => if p c then String c (takewhile p s') else ""
  | "" => ""
  end.

Fixpoint dropwhile (p : ascii -> bool) (s : string) : string :=
  match s with
  | String c s' => if p c then dropwhile p s' else s
  | "" => ""
  end.

(** Whether a text starts, or ends, with a white-space character. *)
Definition head_space (s : string) : bool :=
  match s with
  | String c _ => Char.isspace c
  | "" => false
  end.


Fixpoint ends_space (s : string) : bool :=
  match s with
  | "" => false
  | String c s' =>
      match s' with
      | "" => Char.isspace c
      | _ => ends_space s'
      end
  end.

(** [s.lower()] *)
Definition lower (s : string) : string := map Char.lower s.

(** [s.lstrip()], [s.rstrip()], [s.strip()] *)
Fixpoint lstrip (s : string) : string :=
  match s with
  | "" => ""
  | String c s' => if Char.isspace c then lstrip s' else s
  end.

Fixpoint rstrip (s : string) : string :=
  match s with
  | "" => ""
  | String c s' =>
      match rstrip s' with
      | "" => if Char.isspace c then "" else String c ""
      | r => String c r
      end
  end.

Definition strip (s : string) : string := lstrip (rstrip s).

(** [s.startswith(p)] *)
Definition startswith (p s : string) : bool := String.prefix p s.

(** [sub in s] *)
Fixpoint contains (sub s : string) : bool :=
  String.prefix sub s
  || match s with
     | "" => false
     | String _ s' => contains sub s'
     end.

(** [s.replace(c, '')] for a one-character [c]. *)
Definition remove (c : ascii) (s : string) : string :=
  filter (fun x => negb (Char.eqc c x)) s.

(** [sep.join(l)] *)
Definition join (sep : string) (l : list string) : string := String.concat sep l.

(** [s.split(c)] for a one-character separator. *)
Fixpoint split (c : ascii) (s : string) : list string :=
  match s with
  | "" => [""]
  | String x s' =>
      if Char.eqc c x then "" :: split c s'
      else match split c s' with
           | [] => [String x ""]
           | p :: ps => String x p :: ps
           end
  end.

(** [s.split(c, 1)]: at most one split, at the first [c]. *)
Fixpoint split1 (c : ascii) (s : string) : list string :=
  match s with
  | "" => [""]
  | String x s' =>
      if Char.eqc c x then [""; s']
      else match split1 c s' with
           | [] => [String x ""]
           | p :: ps => String x p :: ps
           end
  end.

(** Reading in text mode translates CR LF and a lone CR to LF. *)
Fixpoint universal_newlines (s : string) : string :=
  match s with
  | "" => ""
  | String c s' =>
      if Char.eqc Char.CR c then
        match s' with
        | String c' _ =>
            if Char.eqc Char.LF c' then universal_newlines s'
            else String Char.LF (universal_newlines s')
        | "" => nl
        end
      else String c (universal_newlines s')
  end.

(** [for line in file]: the lines of a text, each with its LF. *)
Fixpoint iter_lines (s : string) : list string :=
  match s with
  | "" => []
  | String c s' =>
      if Char.eqc Char.LF c then nl :: iter_lines s'
      else match iter_lines s' with
           | [] => [String c ""]
           | l :: ls => String c l :: ls
           end
  end.

End Str.

(** ** Regular expressions: the fragment of [re] the scripts use

    A backtracking matcher with Python's priorities: alternatives are
    tried left to right, repetitions are greedy and give characters back
    one at a time, and the first success is the match.  Every repetition
    in the scripts' patterns is over a single character class. *)

Module Re.

Inductive regex : Type :=
| Cls (p : ascii -> bool)       (* one character of a class *)
| Seq (r1 r2 : regex)
| Alt (r1 r2 : regex)
| Star (p : ascii -> bool)      (* greedy [c*] over a class *)
| Grp (i : nat) (r : regex)     (* capturing group number [i] *)
| Bol                           (* [^] *)
| Eol                           (* [$] *)
| Eps.

Definition Plus (p : ascii -> bool) : regex := Seq (Cls p) (Star p).

Fixpoint Lit (s : string) : regex :=
  match s with
  | "" => Eps
  | String c s' => Seq (Cls (Char.eqc c)) (Lit s')
  end.

(** A matcher state: the offset reached in the subject, the text still
    to be matched, and the groups captured so far (latest first). *)
Record mstate : Type := MState {
  pos : nat;
  rest : string;
  caps : list (nat * string)
}.

Section Backtrack.
Context {A : Type}.

Fixpoint star_bt (p : ascii -> bool) (s : string) (n : nat)
         (k : nat -> string -> option A) : option A :=
  match s with
  | String c s' =>
      if p c then
        match star_bt p s' (S n) k with
        | Some a => Some a
        | None => k n s
        end
      else k n s
  | "" => k n s
  end.

Fixpoint bt (r : regex) (st : mstate) (k : mstate -> option A) : option A :=
  match r with
  | Cls p =>
      match rest st with
      | String c s' => if p c then k (MState (S (pos st)) s' (caps st)) else None
      | "" => None
      end
  | Seq r1 r2 => bt r1 st (fun st1 => bt r2 st1 k)
  | Alt r1 r2 =>
      match bt r1 st k with
      | Some a => Some a
      | None => bt r2 st k
      end
  | Star p => star_bt p (rest st) (pos st) (fun n s => k (MState n s (caps st)))
  | Grp i r =>
      bt r st (fun st1 =>
        k (MState (pos st1) (rest st1)
             ((i, substring 0 (pos st1 - pos st) (rest st)) :: caps st1)))
  | Bol => if Nat.eqb (pos st) 0 then k st else None
  | Eol =>
      match rest st with
      | "" => k st
      | String c "" => if Char.eqc Char.LF c then k st else None
      | _ => None
      end
  | Eps => k st
  end.
End Backtrack.

(** [re.match(r, s)] *)
Definition rmatch (r : regex) (s : string) : option mstate :=
  bt r (MState 0 s []) Some.

(** [re.search(r, s)]: the match at the leftmost offset that has one. *)
Fixpoint search_from (r : regex) (n : nat) (s : string) : option mstate :=
  match bt r (MState n s []) Some with
  | Some m => Some m
  | None =>
      match s with
      | String _ s' => search_from r (S n) s'
      | "" => None
      end
  end.

Definition search (r : regex) (s : string) : option mstate := search_from r 0 s.

(** [m.group(i)] of a group that took part in the match. *)
Fixpoint lookup_cap (i : nat) (l : list (nat * string)) : string :=
  match l with
  | [] => ""
  | (j, s) :: l' => if Nat.eqb i j then s else lookup_cap i l'
  end.

Definition group (i : nat) (m : mstate) : string := lookup_cap i (caps m).

(** [re.sub(r, '', s)]: every non-overlapping match, leftmost first, is
    dropped.  [skip] counts the characters of the current match still to
    be dropped. *)
Fixpoint sub_from (r : regex) (n skip : nat) (s : string) : string :=
  match s with
  | "" => ""
  | String c s' =>
      match skip with
      | S j => sub_from r (S n) j s'
      | O =>
          match bt r (MState n s []) Some with
          | Some m =>
              match pos m - n with
              | S j => sub_from r (S n) j s'
              | O => String c (sub_from r (S n) 0 s')
              end
          | None => String c (sub_from r (S n) 0 s')
          end
      end
  end.

Definition sub_empty (r : regex) (s : string) : string := sub_from r 0 0 s.

End Re.

(** ** The field parser: [parse_artwork_file]

    The loop is the same in [merge_artworks.py] and in
    [import_artwork.py]; the latter goes on to copy the parsed fields
    into a record of database columns. *)

Module Parser.

(** The header pattern: [^], then group 1 [[A-Za-z]+], then group 2,
    which is either [$] or one [\s] and a greedy run of [.]. *)
Definition field_re : Re.regex :=
  Re.Seq Re.Bol
    (Re.Seq (Re.Grp 1 (Re.Plus Char.is_letter))
            (Re.Grp 2 (Re.Alt Re.Eol
                              (Re.Seq (Re.Cls Char.isspace) (Re.Star Char.not_LF))))).

Definition indented (line : string) : bool :=
  Str.startswith Str.tab line || Str.startswith "    " line.

(** The loop state: the dictionary [artwork], [current_field] and
    [field_content]. *)
Record pstate : Type := PState {
  artwork : gmap string string;
  current_field : option string;
  field_content : list string
}.

Definition init : pstate := PState ∅ None [].

(** Truth value of [current_field]: neither [None] nor empty. *)
Definition active (cur : option string) : bool :=
  match cur with
  | Some f => negb (Str.is_empty f)
  | None => false
  end.

(** [artwork[current_field.lower()] = '\n'.join(field_content).strip()] *)
Definition store (art : gmap string string) (f : string) (content : list string)
  : gmap string string :=
  <[Str.lower f := Str.strip (Str.join Str.nl content)]> art.

(** One iteration of [for line in file]. *)
Definition step (st : pstate) (raw : string) : pstate :=
  let line := Str.rstrip raw in
  if Str.is_empty (Str.strip line) then st
  else if negb (Str.startswith Str.tab line) && negb (Str.startswith "    " line) then
    match Re.rmatch field_re line with
    | Some m =>
        let st1 :=
          match current_field st with
          | Some f =>
              if active (current_field st)
              then PState (store (artwork st) f (field_content st)) (current_field st) []
              else st
          | None => st
          end in
        let remaining := Str.strip (Re.group 2 m) in
        PState (artwork st1) (Some (Re.group 1 m))
          (if negb (Str.is_empty remaining) && negb (Str.startswith "-" remaining)
           then field_content st1 ++ [remaining]
           else field_content st1)
    | None => st
    end
  else if active (current_field st) && indented line then
    PState (artwork st) (current_field st) (field_content st ++ [Str.strip line])
  else st.

(** After the loop: the last field is saved. *)
Definition finish (st : pstate) : gmap string string :=
  match current_field st with
  | Some f => if active (current_field st)
              then store (artwork st) f (field_content st)
              else artwork st
  | None => artwork st
  end.

(** What the header pattern yields on a line, read off directly:
    groups 1 and 2 of the match, if there is one. *)
Definition header_of (line : string) : option (string * string) :=
  let name := Str.takewhile Char.is_letter line in
  if Str.is_empty name then None
  else
    match Str.dropwhile Char.is_letter line with
    | "" => Some (name, "")
    | String c r =>
        if Char.eqc Char.LF c && Str.is_empty r then Some (name, "")
        else if Char.isspace c
             then Some (name, String c (Str.takewhile Char.not_LF r))
             else None
    end.

(** The first white-space-delimited token of a line. *)
Definition first_token (line : string) : string :=
  Str.takewhile (fun c => negb (Char.isspace c)) (Str.lstrip line).

(** A line that is not blank, not indented, and whose first token is
    not made of letters only. *)
Definition ignorable (line : string) : bool :=
  negb (Str.is_empty (Str.strip line))
  && negb (indented line)
  && negb (Str.forallb Char.is_letter (first_token line)).

(** The text without its ignorable lines. *)
Definition delete_ignorable (text : string) : string :=
  String.concat ""
    (List.filter (fun l => negb (ignorable l))
                 (Str.iter_lines (Str.universal_newlines text))).

(** What the result looks like: a key is the lower-casing of a
    non-empty run of letters, a value has no white space at either
    end. *)
Definition key_ok (k : string) : Prop :=
  exists tok, tok <> "" /\ Str.forallb Char.is_letter tok = true /\ k = Str.lower tok.

Definition value_ok (v : string) : Prop :=
  Str.head_space v = false /\ Str.ends_space v = false.

Definition map_ok (m : gmap string string) : Prop :=
  forall k v, m !! k = Some v -> key_ok k /\ value_ok v.

Definition field_ok (cur : option string) : Prop :=
  forall f, cur = Some f -> f <> "" /\ Str.forallb Char.is_letter f = true.

Definition state_ok (st : pstate) : Prop :=
  map_ok (artwork st) /\ field_ok (current_field st).

Definition parse_lines (lines : list string) : gmap string string :=
  finish (fold_left step lines init).

(** [parse_artwork_file] on the text of the file. *)
Definition parse_artwork_file (text : string) : gmap string string :=
  parse_lines (Str.iter_lines (Str.universal_newlines text)).

End Parser.

(** The sample description of the specification. *)
Definition sample_text : string :=
  "Title" +:+ Str.nl +:+ Str.tab +:+ "Foo Bar" +:+ Str.nl +:+
  "ArtDescription" +:+ Str.nl +:+ Str.tab +:+ "Hello" +:+ Str.nl +:+
  Str.tab +:+ "World" +:+ Str.nl.

(** ** Lines of a text *)

Module Lines.

(** A line that ends with its only LF, and one that has none. *)
Definition complete (l : string) : Prop :=
  exists b, l = b +:+ Str.nl /\ Str.forallb Char.not_LF b = true.

Definition partial (l : string) : Prop :=
  l <> "" /\ Str.forallb Char.not_LF l = true.

(** Every line but the last ends with its only LF; the last one may
    lack it. *)
Fixpoint lines_ok (ls : list string) : Prop :=
  match ls with
  | [] => True
  | l :: ls' =>
      (complete l \/ partial l) /\ (ls' <> [] -> complete l) /\ lines_ok ls'
  end.

Definition no_CR (s : string) : bool :=
  Str.forallb (fun c => negb (Char.eqc Char.CR c)) s.

End Lines.

(** ** Floating point: IEEE-754 binary64 as CPython's [float]

    A finite value is the rational it denotes, in lowest terms.  The sign
    of zero is dropped: the modelled code only compares zeros and divides
    by them (which raises), and neither sees the sign. *)

Module Float.

Inductive float : Type :=
| Fin (q : Q)
| Inf (neg : bool)
| NaN.

(** floor (log2 (n/d)) *)
Definition floor_log2 (n d : positive) : Z :=
  let e := (Z.log2 (Zpos n) - Z.log2 (Zpos d))%Z in
  if (Zpos d * 2 ^ Z.max 0 e <=? Zpos n * 2 ^ Z.max 0 (- e))%Z
  then e else (e - 1)%Z.

(** The integer nearest to [num/den], ties to even ([den > 0]). *)
Definition round_nearest_even (num den : Z) : Z :=
  let m := (num / den)%Z in
  match (2 * (num mod den) ?= den)%Z with
  | Lt => m
  | Gt => (m + 1)%Z
  | Eq => if Z.even m then m else (m + 1)%Z
  end.

(** Rounding of the positive rational [n/d]: 53 significant bits, a
    quantum no smaller than 2^-1074, overflow from 2^1024 on. *)
Definition round_pos (n d : positive) : float :=
  let qe := Z.max (floor_log2 n d - 52) (-1074) in
  let m := round_nearest_even (Zpos n * 2 ^ Z.max 0 (- qe))
                              (Zpos d * 2 ^ Z.max 0 qe) in
  if (0 <=? qe)%Z then
    if (2 ^ 1024 <=? m * 2 ^ qe)%Z then Inf false
    else Fin (inject_Z (m * 2 ^ qe))
  else Fin (Qred (m # Z.to_pos (2 ^ (- qe)))).

Definition neg (x : float) : float :=
  match x with
  | Fin q => Fin (- q)
  | Inf s => Inf (negb s)
  | NaN => NaN
  end.

Definition round64 (q : Q) : float :=
  let q' := Qred q in
  match Qnum q' with
  | Z0 => Fin 0
  | Zpos n => round_pos n (Qden q')
  | Zneg n => neg (round_pos n (Qden q'))
  end.

(** A decimal literal of the source, such as [6.8] or [0.02]. *)
Definition literal (n : Z) (d : positive) : float := round64 (n # d).

Definition is_zero (x : float) : bool :=
  match x with
  | Fin q => (Qnum q =? 0)%Z
  | _ => false
  end.

Definition is_neg (q : Q) : bool := (Qnum q <? 0)%Z.

(** [x / y] on floats. *)
Definition div (x y : float) : result float :=
  if is_zero y then Raise ZeroDivisionError
  else Ok match x, y with
          | NaN, _ | _, NaN => NaN
          | Inf _, Inf _ => NaN
          | Inf s, Fin b => Inf (xorb s (is_neg b))
          | Fin _, Inf _ => Fin 0
          | Fin a, Fin b => round64 (a / b)
          end.

(** [x - y] *)
Definition sub (x y : float) : float :=
  match x, y with
  | NaN, _ | _, NaN => NaN
  | Inf s, Inf t => if Bool.eqb s t then NaN else Inf s
  | Inf s, Fin _ => Inf s
  | Fin _, Inf t => Inf (negb t)
  | Fin a, Fin b => round64 (a - b)
  end.

(** [x * y] *)
Definition mul (x y : float) : float :=
  match x, y with
  | NaN, _ | _, NaN => NaN
  | Inf s, Inf t => Inf (xorb s t)
  | Inf s, Fin b => if is_zero y then NaN else Inf (xorb s (is_neg b))
  | Fin a, Inf t => if is_zero x then NaN else Inf (xorb (is_neg a) t)
  | Fin a, Fin b => round64 (a * b)
  end.

(** [abs(x)] *)
Definition abs (x : float) : float :=
  match x with
  | Fin q => Fin (Qabs q)
  | Inf _ => Inf false
  | NaN => NaN
  end.

(** [x <= y], [x < y], [x == y]; false as soon as a NaN is involved. *)
Definition le (x y : float) : bool :=
  match x, y with
  | NaN, _ | _, NaN => false
  | Inf true, _ => true
  | _, Inf false => true
  | Inf false, _ => false
  | _, Inf true => false
  | Fin a, Fin b => Qle_bool a b
  end.

Definition eq (x y : float) : bool :=
  match x, y with
  | Fin a, Fin b => Qeq_bool a b
  | Inf s, Inf t => Bool.eqb s t
  | _, _ => false
  end.

Definition lt (x y : float) : bool := le x y && negb (eq x y).

(** Conversion of an [int]: exact when the integer is representable,
    rounded otherwise, [OverflowError] beyond the range. *)
Definition of_Z (z : Z) : result float :=
  match round64 (inject_Z z) with
  | Inf _ => Raise OverflowError
  | f => Ok f
  end.

(** [a / b] on two [int]s: the correctly rounded quotient. *)
Definition int_truediv (a b : Z) : result float :=
  if (b =? 0)%Z then Raise ZeroDivisionError
  else match round64 (inject_Z a / inject_Z b) with
       | Inf _ => Raise OverflowError
       | f => Ok f
       end.

(** [round(x)]: to the nearest integer, ties to even. *)
Definition round (x : float) : result Z :=
  match x with
  | Fin q => Ok (round_nearest_even (Qnum q) (Zpos (Qden q)))
  | Inf _ => Raise OverflowError
  | NaN => Raise ValueError
  end.

(** [int(x)]: truncation toward zero. *)
Definition trunc (x : float) : result Z :=
  match x with
  | Fin q => Ok (Z.quot (Qnum q) (Zpos (Qden q)))
  | Inf _ => Raise OverflowError
  | NaN => Raise ValueError
  end.

End Float.

(** ** Numbers: an [int] or a [float] *)

Module Num.

Inductive num : Type :=
| Int (z : Z)
| Flt (f : Float.float).

Definition to_float (n : num) : result Float.float :=
  match n with
  | Int z => Float.of_Z z
  | Flt f => Ok f
  end.

(** [a / b]: two ints divide exactly and round once; otherwise both
    operands are converted first and the floats divide. *)
Definition truediv (a b : num) : result Float.float :=
  match a, b with
  | Int x, Int y => Float.int_truediv x y
  | _, _ => x ← to_float a; y ← to_float b; Float.div x y
  end.

(** [a * b] *)
Definition mul (a b : num) : result num :=
  match a, b with
  | Int x, Int y => Ok (Int (x * y))
  | _, _ => x ← to_float a; y ← to_float b; Ok (Flt (Float.mul x y))
  end.

(** [int(round(a))] *)
Definition round_int (a : num) : result Z :=
  match a with
  | Int z => Ok z
  | Flt f => Float.round f
  end.

(** [a == int(a)] *)
Definition is_integral (a : num) : result bool :=
  match a with
  | Int _ => Ok true
  | Flt f => t ← Float.trunc f; Ok (Float.eq f (Float.Fin (inject_Z t)))
  end.

(** [int(a)] *)
Definition to_int (a : num) : result Z :=
  match a with
  | Int z => Ok z
  | Flt f => Float.trunc f
  end.

Definition is_zero (a : num) : bool :=
  match a with
  | Int z => (z =? 0)%Z
  | Flt f => Float.is_zero f
  end.

Definition is_int (a : num) : bool :=
  match a with
  | Int _ => true
  | Flt _ => false
  end.

Definition finite (a : num) : bool :=
  match a with
  | Flt (Float.Inf _) | Flt Float.NaN => false
  | _ => true
  end.

(** The exact value of a finite number. *)
Definition value (a : num) : Q :=
  match a with
  | Int z => inject_Z z
  | Flt (Float.Fin q) => q
  | Flt _ => 0
  end.

End Num.

(** ** Numbers and text: [str], [repr] and [float] *)

Module NumStr.
Import Float.

(** The decimal numeral of an integer. *)
Definition str_of_Z (z : Z) : string := NilZero.string_of_int (Z.to_int z).

(** The default of [sys.get_int_max_str_digits()]. *)
Definition max_str_digits : nat := 4300.

(** [str(z)] for an [int]: the numeral, or [ValueError] when it has
    more than [max_str_digits] digits, the sign not counted. *)
Definition str_int (z : Z) : result string :=
  if (String.length (str_of_Z (Z.abs z)) <=? max_str_digits)%nat
  then Ok (str_of_Z z)
  else Raise ValueError.

Definition digit_val (c : ascii) : Z := (Z.of_N (Char.ord c) - 48)%Z.

(** The value of a run of decimal digits, after the digits [acc]. *)
Fixpoint digits_acc (acc : Z) (s : string) : Z :=
  match s with
  | "" => acc
  | String c s' => digits_acc (10 * acc + digit_val c)%Z s'
  end.

Definition digits_val (s : string) : Z := digits_acc 0%Z s.

Definition pow10 (e : Z) : Q :=
  if (0 <=? e)%Z then inject_Z (10 ^ e) else 1 # Z.to_pos (10 ^ (- e)).

(** *** [float(s)] *)

(** Underscores may only stand between two digits. *)
Fixpoint underscores_ok (prev : ascii) (s : string) : bool :=
  match s with
  | "" => negb (Char.eqc "_" prev)
  | String c s' =>
      (if Char.eqc "_" c then Char.is_digit prev
       else negb (Char.eqc "_" prev) || Char.is_digit c)
      && underscores_ok c s'
  end.

(** The white space [float] strips itself: the ASCII white space, and
    the white space above 127, which is first turned into blanks. *)
Definition float_space (c : ascii) : bool :=
  Char.in_range 9 13 c || Char.eqc Char.SP c
  || (Char.ord c =? 133)%N || (Char.ord c =? 160)%N.

Fixpoint rstrip_by (p : ascii -> bool) (s : string) : string :=
  match s with
  | "" => ""
  | String c s' =>
      match rstrip_by p s' with
      | "" => if p c then "" else String c ""
      | r => String c r
      end
  end.

Definition split_sign (s : string) : bool * string :=
  match s with
  | String c r =>
      if Char.eqc "-" c then (true, r)
      else if Char.eqc "+" c then (false, r)
      else (false, s)
  | "" => (false, s)
  end.

Definition signed (neg : bool) (z : Z) : Z := if neg then (- z)%Z else z.

(** An exponent part [e[+-]digits]; without a digit none is read. *)
Definition split_exponent (s : string) : Z * string :=
  match s with
  | String c r =>
      if Char.eqc "e" c || Char.eqc "E" c then
        let (eneg, r') := split_sign r in
        let ds := Str.takewhile Char.is_digit r' in
        if Str.is_empty ds then (0%Z, s)
        else (signed eneg (digits_val ds), Str.dropwhile Char.is_digit r')
      else (0%Z, s)
  | "" => (0%Z, s)
  end.

(** A signed decimal number, [inf], [infinity] or [nan], which must
    fill the whole text. *)
Definition parse_number (s : string) : option float :=
  let (sneg, s1) := split_sign s in
  let w := Str.lower s1 in
  if String.eqb w "inf" || String.eqb w "infinity" then Some (Inf sneg)
  else if String.eqb w "nan" then Some NaN
  else
    let ip := Str.takewhile Char.is_digit s1 in
    let r1 := Str.dropwhile Char.is_digit s1 in
    let (fp, r2) :=
      match r1 with
      | String c r =>
          if Char.eqc "." c
          then (Str.takewhile Char.is_digit r, Str.dropwhile Char.is_digit r)
          else ("", r1)
      | "" => ("", r1)
      end in
    if Str.is_empty ip && Str.is_empty fp then None
    else
      let (ex, r3) := split_exponent r2 in
      if Str.is_empty r3
      then Some (round64 (inject_Z (signed sneg (digits_val (ip +:+ fp)))
                          * pow10 (ex - Z.of_nat (String.length fp)))%Q)
      else None.

(** [float(s)] *)
Definition float_of_string (s : string) : result float :=
  let t := rstrip_by float_space (Str.dropwhile float_space s) in
  if underscores_ok "000" t then
    match parse_number (Str.remove "_" t) with
    | Some f => Ok f
    | None => Raise ValueError
    end
  else Raise ValueError.

(** *** [repr(x)]: the shortest digits that read back as [x] *)

Definition floor_log10 (q : Q) : Z :=
  match Qnum q with
  | Zpos n =>
      let est := (floor_log2 n (Qden q) * 1233 / 4096)%Z in
      if Qle_bool (pow10 (est + 1)) q then (est + 1)%Z
      else if Qle_bool (pow10 est) q then est
      else (est - 1)%Z
  | _ => 0%Z
  end.

(** With [k] digits: the two [k]-digit decimals around [q], and the
    nearer of those that round to [q]. *)
Definition digits_at (q : Q) (k : Z) : option (Z * Z) :=
  let e10 := (floor_log10 q - (k - 1))%Z in
  let t := (q / pow10 e10)%Q in
  let lo := Qfloor t in
  let hi := (lo + 1)%Z in
  let ok c := eq (round64 (inject_Z c * pow10 e10)%Q) (Fin q) in
  let lo_near := Qle_bool (t - inject_Z lo)%Q (inject_Z hi - t)%Q in
  match ok lo, ok hi with
  | true, true => Some (if lo_near then lo else hi, e10)
  | true, false => Some (lo, e10)
  | false, true => Some (hi, e10)
  | false, false => None
  end.

Fixpoint shortest (q : Q) (ks : list Z) : Z * Z :=
  match ks with
  | [] => (Qfloor (q / pow10 (floor_log10 q - 16))%Q, (floor_log10 q - 16)%Z)
  | k :: ks' =>
      match digits_at q k with
      | Some r => r
      | None => shortest q ks'
      end
  end.

Definition rstrip_zeros (s : string) : string := rstrip_by (Char.eqc "0") s.

Fixpoint zeros (n : nat) : string :=
  match n with
  | O => ""
  | S n' => String "0" (zeros n')
  end.

(** Fixed notation while the decimal point falls within -4 < decpt <= 16,
    exponent notation otherwise. *)
Definition repr_pos (q : Q) : string :=
  let (c, e10) := shortest q [1;2;3;4;5;6;7;8;9;10;11;12;13;14;15;16;17]%Z in
  let all := str_of_Z c in
  let ds := rstrip_zeros all in
  let decpt := (Z.of_nat (String.length all) + e10)%Z in
  let nd := Z.of_nat (String.length ds) in
  if ((decpt <=? -4) || (16 <? decpt))%Z then
    let ex := (decpt - 1)%Z in
    let exs := str_of_Z (Z.abs ex) in
    substring 0 1 ds
    +:+ (if (1 <? nd)%Z then "." +:+ substring 1 (String.length ds - 1) ds else "")
    +:+ "e" +:+ (if (ex <? 0)%Z then "-" else "+")
    +:+ (if (Z.abs ex <? 10)%Z then "0" else "") +:+ exs
  else if (decpt <=? 0)%Z then "0." +:+ zeros (Z.to_nat (- decpt)) +:+ ds
  else if (nd <=? decpt)%Z then ds +:+ zeros (Z.to_nat (decpt - nd)) +:+ ".0"
  else substring 0 (Z.to_nat decpt) ds +:+ "."
       +:+ substring (Z.to_nat decpt) (String.length ds - Z.to_nat decpt) ds.

(** [repr(x)], which is also [str(x)]. *)
Definition repr (x : float) : string :=
  match x with
  | NaN => "nan"
  | Inf s => if s then "-inf" else "inf"
  | Fin q =>
      if (Qnum q =? 0)%Z then "0.0"
      else if is_neg q then "-" +:+ repr_pos (Qabs q)
      else repr_pos q
  end.

(** [str(a)] *)
Definition str (a : Num.num) : result string :=
  match a with
  | Num.Int z => str_int z
  | Num.Flt f => Ok (repr f)
  end.

End NumStr.

(** ** The ratio matcher: [add_valid_ratios.py] *)

Module Ratio.
Import Float Num NumStr.

Definition I (z : Z) : num := Int z.
Definition F (n : Z) (d : positive) : num := Flt (literal n d).

(** The catalog, group by group in the order of the source; [F 68 10]
    is the literal [6.8]. *)
Definition VALID_PRINT_SIZES : list (string * list (num * num)) :=
  [
    ("1:1",
    [
      (I 6, I 6); (I 8, I 8); (I 10, I 10); (I 12, I 12); (I 14, I 14);
      (I 16, I 16); (I 18, I 18); (I 20, I 20); (I 23, I 23); (I 24, I 24);
      (I 28, I 28); (I 30, I 30); (I 32, I 32); (I 36, I 36); (I 40, I 40)
    ]);
    ("2:3",
    [
      (I 4, I 6); (I 8, I 12); (I 12, I 18); (I 16, I 24); (I 20, I 30);
      (I 24, I 36); (I 32, I 48); (I 36, I 54); (I 40, I 60); (I 18, I 27)
    ]);
    ("3:4",
    [
      (I 6, I 8); (I 9, I 12); (I 12, I 16); (I 18, I 24); (I 24, I 32);
      (I 30, I 40); (I 36, I 48)
    ]);
    ("4:5",
    [
      (I 8, I 10); (I 12, I 15); (I 16, I 20); (I 20, I 25); (I 24, I 30);
      (I 36, I 45); (I 40, I 50)
    ]);
    ("Other",
    [
      (I 3, I 7); (I 4, I 10); (I 5, I 7); (I 5, I 10); (I 5, I 12);
      (F 68 10, I 16); (I 6, I 12); (I 8, I 20); (I 8, I 24); (I 8, I 28);
      (F 85 10, I 11); (I 9, I 11); (I 9, I 18); (I 10, I 13); (I 10, I 17);
      (I 10, I 20); (I 10, I 24); (I 10, I 30); (I 10, I 36); (I 11, I 14);
      (I 11, I 17); (I 11, I 22); (I 12, I 14); (I 12, I 20); (I 12, I 24);
      (I 12, I 30); (I 12, I 36); (I 13, I 17); (I 13, I 19); (I 14, I 18);
      (I 14, I 20); (I 14, I 23); (I 14, I 24); (I 14, I 28); (I 14, I 36);
      (I 14, I 50); (I 15, I 30); (I 16, I 22); (I 16, I 27); (I 16, I 30);
      (I 16, I 32); (I 16, I 36); (I 16, I 37); (I 16, I 48); (I 17, I 20);
      (I 17, I 23); (I 18, I 20); (I 18, I 22); (I 18, I 26); (I 18, I 30);
      (I 18, I 36); (I 18, I 43); (I 18, I 45); (I 18, I 47); (I 18, I 50);
      (I 18, I 54); (I 19, I 27); (I 20, I 24); (I 20, I 26); (I 20, I 28);
      (I 20, I 33); (I 20, I 36); (I 21, I 30); (I 20, I 40); (I 20, I 60);
      (I 22, I 28); (I 22, I 30); (I 22, I 34); (I 22, I 36); (I 24, I 28);
      (I 24, I 38); (I 24, I 40); (I 24, I 45); (I 24, I 48); (I 24, I 56);
      (I 24, I 60); (I 24, I 65); (I 24, I 90); (I 26, I 34); (I 26, I 40);
      (I 27, I 30); (I 27, I 40); (I 28, I 36); (I 28, I 38); (I 28, I 40);
      (I 28, I 48); (I 30, I 50); (I 30, I 60); (I 30, I 75); (I 32, I 42);
      (I 32, I 44); (I 32, I 54); (I 36, I 40); (I 36, I 50); (I 36, I 60);
      (I 36, I 70); (F 51 10, F 71 10); (F 79 10, F 98 10);
      (F 177 10, F 236 10); (F 236 10, F 354 10); (F 394 10, F 551 10)
    ])
  ].

Definition ALL_VALID_SIZES : list (num * num) :=
  concat (List.map snd VALID_PRINT_SIZES).

(** The default [tolerance], the literal [0.02]. *)
Definition default_tolerance : float := literal 2 100.

Definition format_dim (w : num) : result string :=
  b ← Num.is_integral w;
  if b : bool then z ← Num.to_int w; str_int z else str w.

Definition format_size (w h : num) : result string :=
  w_str ← format_dim w;
  h_str ← format_dim h;
  Ok (w_str +:+ "x" +:+ h_str).

Definition calculate_ratio (width height : num) : result (float * float) :=
  w10 ← Num.mul width (Int 10);
  w_int ← Num.round_int w10;
  h10 ← Num.mul height (Int 10);
  h_int ← Num.round_int h10;
  let gcd := Z.gcd w_int h_int in
  ratio_w ← int_truediv w_int gcd;
  ratio_h ← int_truediv h_int gcd;
  Ok (ratio_w, ratio_h).

(** The body of the loop over the catalog. *)
Definition match_step (artwork_ratio tolerance : float)
           (matches : list string) (size : num * num) : result (list string) :=
  let (print_w, print_h) := size in
  print_ratio ← Num.truediv print_w print_h;
  ratio_diff ← Float.div (Float.abs (Float.sub artwork_ratio print_ratio)) artwork_ratio;
  if Float.le ratio_diff tolerance
  then s ← format_size print_w print_h; Ok (matches ++ [s])
  else Ok matches.

Fixpoint match_loop (artwork_ratio tolerance : float)
         (matches : list string) (sizes : list (num * num)) : result (list string) :=
  match sizes with
  | [] => Ok matches
  | size :: sizes' =>
      matches' ← match_step artwork_ratio tolerance matches size;
      match_loop artwork_ratio tolerance matches' sizes'
  end.

Definition item (i : nat) (l : list string) : result string :=
  match nth_error l i with
  | Some x => Ok x
  | None => Raise IndexError
  end.

(** The sort key [(float(x.split('x')[0]), float(x.split('x')[1]))]. *)
Definition size_key (x : string) : result (float * float) :=
  a ← item 0 (Str.split "x" x);
  fa ← float_of_string a;
  b ← item 1 (Str.split "x" x);
  fb ← float_of_string b;
  Ok (fa, fb).

(** [<] on pairs: decided at the first component that differs. *)
Definition key_lt (a b : float * float) : bool :=
  if negb (Float.eq (fst a) (fst b)) then Float.lt (fst a) (fst b)
  else if negb (Float.eq (snd a) (snd b)) then Float.lt (snd a) (snd b)
  else false.

(** [set(matches)], listed by first occurrence.  The order in which
    Python lists a set is not fixed; sorting removes the difference
    when no two members have the same key. *)
Fixpoint dedup (l : list string) : list string :=
  match l with
  | [] => []
  | x :: l' => x :: List.filter (fun y => negb (String.eqb x y)) (dedup l')
  end.

(** A stable insertion sort on keyed items. *)
Fixpoint insert_keyed (x : (float * float) * string)
         (l : list ((float * float) * string)) : list ((float * float) * string) :=
  match l with
  | [] => [x]
  | y :: l' => if key_lt (fst y) (fst x) then y :: insert_keyed x l' else x :: l
  end.

Fixpoint keyed (l : list string) : result (list ((float * float) * string)) :=
  match l with
  | [] => Ok []
  | x :: l' => k ← size_key x; ks ← keyed l'; Ok ((k, x) :: ks)
  end.

Definition sorted_by_size (l : list string) : result (list string) :=
  ks ← keyed l;
  Ok (List.map snd (fold_right insert_keyed [] ks)).

Definition find_matching_print_sizes (artwork_w artwork_h : num) (tolerance : float)
  : result (list string) :=
  artwork_ratio ← Num.truediv artwork_w artwork_h;
  matches ← match_loop artwork_ratio tolerance [] ALL_VALID_SIZES;
  sorted_by_size (dedup matches).

(** The relative error of a catalog size against a query ratio, in
    exact arithmetic on the values held. *)
Definition exact_error (query_ratio : Q) (size : num * num) : Q :=
  Qabs (query_ratio - Num.value (fst size) / Num.value (snd size)) / query_ratio.

(** A number whose value, taken exactly, is a tenth of the integer
    [W], with [0 < W < 2^53]: every integer below 2^53 / 10, and a
    float such as 2.5 or 0.5.  The float written 5.1 is none: its
    binary value times ten is not 51, although the product
    [5.1 * 10] rounds to 51.0. *)
Definition tenfold (w : num) (W : Z) : Prop :=
  Num.finite w = true /\ (Num.value w * 10 == inject_Z W)%Q /\ (0 < W < 2 ^ 53)%Z.

(** The call in [process_artwork_file]: the simplified pair is what is
    matched. *)
Definition matches_of_pixels (pixel_w pixel_h : num) : result (list string) :=
  r ← calculate_ratio pixel_w pixel_h;
  find_matching_print_sizes (Flt (fst r)) (Flt (snd r)) default_tolerance.

(** The query 1200 x 1800: its ratio as a [float] and the sizes it
    matches. *)
Definition query_ratio : float := Fin (6004799503160661 # 9007199254740992).

Definition matches_1200_1800 : list string :=
  ["4x6"; "8x12"; "12x18"; "16x24"; "18x27"; "20x30"; "23.6x35.4";
   "24x36"; "27x40"; "32x48"; "36x54"; "40x60"].

Definition listed (s : string) : bool := existsb (String.eqb s) matches_1200_1800.

(** A catalog size whose error, as the script computes it, exceeds the
    tolerance is not listed. *)
Definition float_check (size : num * num) : bool :=
  match Num.truediv (fst size) (snd size) with
  | Ok print_ratio =>
      match Float.div (Float.abs (Float.sub query_ratio print_ratio)) query_ratio with
      | Ok ratio_diff =>
          Float.le ratio_diff default_tolerance
          || match format_size (fst size) (snd size) with
             | Ok s => negb (listed s)
             | Raise _ => true
             end
      | Raise _ => true
      end
  | Raise _ => true
  end.

(** The same with the error in exact arithmetic and the bound 2/100. *)
Definition exact_check (size : num * num) : bool :=
  Qle_bool (exact_error (2 # 3) size) (2 # 100)
  || match format_size (fst size) (snd size) with
     | Ok s => negb (listed s)
     | Raise _ => true
     end.

End Ratio.

(** ** Prices: [parse_price] and [determine_for_sale] *)

Module Price.
Import Float NumStr.

Definition blank (s : string) : bool :=
  Str.is_empty s || Str.is_empty (Str.strip s).

(** [sub] occurs in [s] up to the case of the letters. *)
Definition contains_ci (sub s : string) : Prop :=
  exists a m b, s = a +:+ m +:+ b /\ Str.lower m = Str.lower sub.

Definition special_cases : list string := ["sold"; "not for sale"; "n/a"; "na"].

Definition parse_price (price_str : string) : result float :=
  if blank price_str then Ok (Fin 0)
  else
    let price_str := Str.strip (Str.remove "," (Str.remove "$" price_str)) in
    if existsb (String.eqb (Str.lower price_str)) special_cases then Ok (Fin 0)
    else match float_of_string price_str with
         | Ok f => Ok f
         | Raise ValueError => Ok (Fin 0)
         | Raise e => Raise e
         end.

Definition determine_for_sale (price_str : string) : result bool :=
  if blank price_str then Ok false
  else
    let price_lower := Str.lower price_str in
    if Str.contains "sold" price_lower || Str.contains "not for sale" price_lower
    then Ok false
    else p ← parse_price price_str; Ok (Float.lt (Fin 0) p).

(** The texts for which [determine_for_sale] answers [False] without
    looking at the number. *)
Definition excluded (s : string) : Prop :=
  Str.forallb Char.isspace s = true
  \/ contains_ci "sold" s \/ contains_ci "not for sale" s.

End Price.

(** ** Basenames: the two derivations of the expected image name *)

Module Basename.

(** The class of the pattern "[-_\W]+". *)
Definition is_separator (c : ascii) : bool :=
  Char.eqc "-" c || Char.eqc "_" c || negb (Char.is_word c).

Definition separators_re : Re.regex := Re.Plus is_separator.

(** The pattern "^\d+-". *)
Definition number_prefix_re : Re.regex :=
  Re.Seq Re.Bol (Re.Seq (Re.Plus Char.is_digit) (Re.Cls (Char.eqc "-"))).

(** A name without any dash. *)
Definition no_dash (name : string) : bool :=
  Str.forallb (fun c => negb (Char.eqc "-" c)) name.

(** [stripDirStringToImageFormat] of the validator. *)
Definition stripDirStringToImageFormat (input_str : string) : result string :=
  let parts := Str.split1 "-" input_str in
  if (length parts <? 2)%nat then Raise ValueError
  else
    let rest := nth 1 parts "" in
    let cleaned_rest := Re.sub_empty separators_re rest in
    Ok ("LindseyAyres_" +:+ cleaned_rest).

(** [derive_image_basename_from_folder] of [merge_artworks.py]. *)
Definition derive_image_basename_from_folder (folder_name : string) : string :=
  let name_without_number := Re.sub_empty number_prefix_re folder_name in
  let name_without_underscores := Str.remove "_" name_without_number in
  "LindseyAyres_" +:+ name_without_underscores.

End Basename.

(** ** The directory validator: [get_valid_art_directories] *)

Module Validator.

(** An entry of a directory: its name, whether [exists()] holds of
    its path (it does not for a symbolic link whose target is gone,
    which [iterdir] lists all the same), whether it is a regular file,
    what [read_text] gives ([None] when it raises) and whether
    [Image.open] accepts it. *)
Record entry : Type := Entry {
  e_name : string;
  e_exists : bool;
  e_is_file : bool;
  e_text : option string;
  e_image : bool
}.

(** A subdirectory of the images directory, its entries in the order
    [iterdir] lists them. *)
Record artdir : Type := ArtDir {
  d_name : string;
  d_entries : list entry
}.

(** A path below the images directory. *)
Record path : Type := Path {
  p_dir : string;
  p_name : string
}.

(** [PurePath.suffix] of a file name. *)
Fixpoint rfind_dot (s : string) (i : nat) (last : option nat) : option nat :=
  match s with
  | "" => last
  | String c s' => rfind_dot s' (S i) (if Char.eqc "." c then Some i else last)
  end.

Definition suffix (name : string) : string :=
  match rfind_dot name 0 None with
  | Some i =>
      if (0 <? i)%nat && (i <? String.length name - 1)%nat
      then substring i (String.length name - i) name
      else ""
  | None => ""
  end.

(** The pattern "Title\s*\n[ \t]+([^\n]+)". *)
Definition title_re : Re.regex :=
  Re.Seq (Re.Lit "Title")
    (Re.Seq (Re.Star Char.isspace)
       (Re.Seq (Re.Cls (Char.eqc Char.LF))
          (Re.Seq (Re.Plus Char.is_blank)
             (Re.Grp 1 (Re.Plus Char.not_LF))))).

(** The title check on the text of the description file. *)
Definition find_title (txt_content : string) : option string :=
  match Re.search title_re txt_content with
  | Some m =>
      let t := Str.strip (Re.group 1 m) in
      if Str.is_empty t then None else Some t
  | None => None
  end.

(** A place where the title pattern can match: "Title", white space,
    a newline, an indentation, and a content that runs to the end of
    its line. *)
Definition title_site (text pre ws ind body rest : string) : Prop :=
  text = pre +:+ "Title" +:+ ws +:+ Str.nl +:+ ind +:+ body +:+ rest
  /\ Str.forallb Char.isspace ws = true
  /\ ind <> "" /\ Str.forallb Char.is_blank ind = true
  /\ body <> "" /\ Str.forallb Char.not_LF body = true
  /\ (rest = "" \/ exists r, rest = Str.nl +:+ r).






Record valid_info : Type := ValidInfo {
  dir_path : string;
  title : option string;
  large_image : option path
}.

(** The lists the scan fills; [valid_images] is created once, before
    the loop over the directories. *)
Record vstate : Type := VState {
  valid_art_info : list valid_info;
  invalid_art_info : list string;
  missing_txt : list string;
  missing_img : list string;
  missing_title : list string;
  missing_matched_img : list string;
  valid_images : list path
}.

Definition init : vstate := VState [] [] [] [] [] [] [].

(** [expected_txt], when [expected_txt.exists()]. *)
Definition expected_txt (d : artdir) : option entry :=
  List.find (fun e => e_exists e && String.eqb (e_name e) (d_name d +:+ ".txt"))
            (d_entries d).

(** The loop over the entries of one directory: the images found and
    [hasImgFile]. *)
Definition scan_images (d : artdir) (images : list path) : list path * bool :=
  fold_left
    (fun (acc : list path * bool) (e : entry) =>
       if e_is_file e && negb (String.eqb (Str.lower (suffix (e_name e))) ".txt")
       then if e_image e
            then (fst acc ++ [Path (d_name d) (e_name e)], true)
            else acc
       else acc)
    (d_entries d) (images, false).

Definition name_matches (image_match_to_dir : string) (img : path) : bool :=
  let expected_image_name := image_match_to_dir +:+ Str.lower (suffix (p_name img)) in
  String.eqb (Str.lower expected_image_name) (Str.lower (p_name img)).

Definition append_if (b : bool) (x : string) (l : list string) : list string :=
  if b then l ++ [x] else l.

(** One iteration of [for dir_path in art_dirs]. *)
Definition step (st : vstate) (d : artdir) : result vstate :=
  let hasTxtFile := match expected_txt d with Some _ => true | None => false end in
  let title :=
    match expected_txt d with
    | Some e =>
        match e_text e with
        | Some raw => find_title (Str.universal_newlines raw)
        | None => None
        end
    | None => None
    end in
  let hasTitle := match title with Some _ => true | None => false end in
  let (images, hasImgFile) := scan_images d (valid_images st) in
  large_image_path ←
    (if hasImgFile then
       image_match_to_dir ← Basename.stripDirStringToImageFormat (d_name d);
       Ok (List.find (name_matches image_match_to_dir) images)
     else Ok None);
  let hasMatchImage :=
    match large_image_path with Some _ => true | None => false end in
  if hasTxtFile && hasImgFile && hasMatchImage && hasTitle then
    Ok (VState (valid_art_info st ++ [ValidInfo (d_name d) title large_image_path])
          (invalid_art_info st) (missing_txt st) (missing_img st)
          (missing_title st) (missing_matched_img st) images)
  else
    Ok (VState (valid_art_info st)
          (invalid_art_info st ++ [d_name d])
          (append_if (negb hasTxtFile) (d_name d) (missing_txt st))
          (append_if (negb hasImgFile) (d_name d) (missing_img st))
          (append_if (hasTxtFile && negb hasTitle) (d_name d) (missing_title st))
          (append_if (hasImgFile && negb hasMatchImage) (d_name d) (missing_matched_img st))
          images).

Fixpoint run (st : vstate) (dirs : list artdir) : result vstate :=
  match dirs with
  | [] => Ok st
  | d :: dirs' => st' ← step st d; run st' dirs'
  end.

(** [sorted(art_dirs, key=lambda x: x.name.lower())], a stable sort. *)
Fixpoint insert_dir (d : artdir) (l : list artdir) : list artdir :=
  match l with
  | [] => [d]
  | y :: l' =>
      if String.ltb (Str.lower (d_name y)) (Str.lower (d_name d))
      then y :: insert_dir d l'
      else d :: l
  end.

Definition sort_dirs (dirs : list artdir) : list artdir :=
  fold_right insert_dir [] dirs.

(** [get_valid_art_directories] on the subdirectories of the images
    directory, in the order [iterdir] lists them. *)
Definition get_valid_art_directories (dirs : list artdir) : result vstate :=
  run init (sort_dirs dirs).

(** Two directories: the first holds an image named after the second,
    the second holds its description and an unrelated image. *)
Definition description_B : string :=
  "Title" +:+ Str.nl +:+ Str.tab +:+ "Foo" +:+ Str.nl.

Definition dir_A : artdir :=
  ArtDir "1-A" [Entry "LindseyAyres_B.jpg" true true None true].

Definition dir_B : artdir :=
  ArtDir "2-B" [Entry "2-B.txt" true true (Some description_B) false;
                Entry "pic.png" true true None true].




End Validator.

(** ** The Standard Library's binary64, to compare the float model with

    [SpecFloat] specifies the IEEE-754 operations on mantissa and
    exponent.  The model above rounds exact rationals instead; the two
    are compared on the values the catalog produces. *)

Module IEEE.

Definition prec : Z := 53.
Definition emax : Z := 1024.

Definition pow2 (e : Z) : Q :=
  if (0 <=? e)%Z then inject_Z (2 ^ e) else 1 # Z.to_pos (2 ^ (- e)).

(** A float of the model as a [spec_float]; the denominator of a
    finite value is a power of two. *)
Definition to_spec (x : Float.float) : SpecFloat.spec_float :=
  match x with
  | Float.NaN => SpecFloat.S754_nan
  | Float.Inf s => SpecFloat.S754_infinity s
  | Float.Fin q =>
      SpecFloat.binary_normalize prec emax (Qnum q) (- Z.log2 (Zpos (Qden q))) false
  end.

Definition of_spec (x : SpecFloat.spec_float) : Float.float :=
  match x with
  | SpecFloat.S754_zero _ => Float.Fin 0
  | SpecFloat.S754_infinity s => Float.Inf s
  | SpecFloat.S754_nan => Float.NaN
  | SpecFloat.S754_finite s m e =>
      Float.Fin (Qred (inject_Z (if s then Zneg m else Zpos m) * pow2 e))
  end.

Definition div (x y : Float.float) : Float.float :=
  of_spec (SpecFloat.SFdiv prec emax (to_spec x) (to_spec y)).

Definition sub (x y : Float.float) : Float.float :=
  of_spec (SpecFloat.SFsub prec emax (to_spec x) (to_spec y)).

Definition mul (x y : Float.float) : Float.float :=
  of_spec (SpecFloat.SFmul prec emax (to_spec x) (to_spec y)).

Definition le (x y : Float.float) : bool :=
  SpecFloat.SFleb (to_spec x) (to_spec y).

Definition same (x : result Float.float) (y : Float.float) : bool :=
  match x with
  | Ok f => Float.eq f y
  | Raise _ => false
  end.

(** The steps of the matching loop on one catalog size, in the model
    and in [SpecFloat], agree. *)
Definition agree_on (artwork_ratio : Float.float) (size : Num.num * Num.num) : bool :=
  match Num.to_float (fst size), Num.to_float (snd size) with
  | Ok w, Ok h =>
      same (Float.div w h) (div w h)
      && match Float.div w h with
         | Ok print_ratio =>
             let d := Float.abs (Float.sub artwork_ratio print_ratio) in
             Float.eq (Float.sub artwork_ratio print_ratio)
                      (sub artwork_ratio print_ratio)
             && same (Float.div d artwork_ratio) (div d artwork_ratio)
             && match Float.div d artwork_ratio with
                | Ok ratio_diff =>
                    Bool.eqb (Float.le ratio_diff Ratio.default_tolerance)
                             (le ratio_diff Ratio.default_tolerance)
                | Raise _ => false
                end
         | Raise _ => false
         end
  | _, _ => false
  end.

(** Query ratios to compare on: 2:3, 3:7, 1:1, 680:1613, and the two
    neighbouring floats next to 50:49 where the square sizes start and
    stop matching. *)
Definition sample_ratios : list Float.float :=
  [Float.round64 (2 # 3); Float.round64 (3 # 7); Float.Fin 1;
   Float.round64 (680 # 1613);
   Float.Fin (4595509823847444 # 4503599627370496);
   Float.Fin (4595509823847445 # 4503599627370496)].

End IEEE.

(** ** Descriptions in the template's layout

    A description as the template lays it out: for every field a header
    line that holds the name only, then the content lines of the field,
    each indented by a tab or by four blanks. *)

Module Document.

Record field : Type := Field {
  f_name : string;
  f_lines : list string
}.

Definition lines_of_field (f : field) : list string :=
  (f_name f +:+ Str.nl) :: List.map (fun l => l +:+ Str.nl) (f_lines f).

Definition lines_of (doc : list field) : list string :=
  List.flat_map lines_of_field doc.

(** The text of the file. *)
Definition render (doc : list field) : string := String.concat "" (lines_of doc).

(** What the field is expected to hold: its content lines, trimmed and
    joined by newlines. *)
Definition value (f : field) : string :=
  Str.join Str.nl (List.map Str.strip (f_lines f)).

(** The fields in file order, a later field of the same name (up to
    case) replacing an earlier one. *)
Definition to_map (doc : list field) : gmap string string :=
  fold_left (fun m f => <[Str.lower (f_name f) := value f]> m) doc ∅.

Definition name_ok (n : string) : bool :=
  negb (Str.is_empty n) && Str.forallb Char.is_letter n.

Definition one_line (l : string) : bool :=
  Str.forallb (fun c => Char.not_LF c && negb (Char.eqc Char.CR c)) l.

(** A content line: indented, not blank, without a line break. *)
Definition line_ok (l : string) : bool :=
  Parser.indented l && negb (Str.is_empty (Str.strip l)) && one_line l.

Definition field_ok (f : field) : bool :=
  name_ok (f_name f) && List.forallb line_ok (f_lines f).

Definition well_formed (doc : list field) : bool := List.forallb field_ok doc.

(** A line that the parser skips while no field is open: blank,
    indented, or without a header token. *)
Definition skipped (l : string) : bool :=
  Str.is_empty (Str.strip l) || Parser.indented l || Parser.ignorable l.

Definition preamble_ok (pre : list string) : bool :=
  List.forallb (fun l => one_line l && skipped l) pre.

Definition render_lines (pre : list string) : string :=
  String.concat "" (List.map (fun l => l +:+ Str.nl) pre).

(** The parser's state between two fields: a field is open, or
    nothing is pending. *)
Definition settled (st : Parser.pstate) : Prop :=
  match Parser.current_field st with
  | Some f => f <> ""
  | None => Parser.field_content st = []
  end.

(** A text that [strip] leaves as it is, and is not empty. *)
Definition trimmed (x : string) : Prop :=
  x <> "" /\ Str.head_space x = false /\ Str.ends_space x = false.

(** The lines of a description, without their newlines. *)
Definition raw_lines (doc : list field) : list string :=
  List.flat_map (fun f => f_name f :: f_lines f) doc.

End Document.

(** ** Price texts *)

Module PriceText.

(** Any character but the letter "l", in either case. *)
Definition no_l (c : ascii) : bool := negb (Char.eqc "l" (Char.lower c)).

End PriceText.

(** ** The scan of the image directories *)

Module Scan.
Import Validator.

(** An entry that the scan records as an image: a regular file whose
    extension is not ".txt" and that [Image.open] accepts. *)
Definition is_image_entry (e : entry) : bool :=
  e_is_file e && negb (String.eqb (Str.lower (suffix (e_name e))) ".txt")
  && e_image e.

(** The images of a directory, as paths, in the order of its entries. *)
Definition found (d : artdir) : list path :=
  List.map (fun e => Path (d_name d) (e_name e))
           (List.filter is_image_entry (d_entries d)).

Definition has_image (d : artdir) : bool := existsb is_image_entry (d_entries d).

(** A letter, a digit or another alphanumeric character: a word
    character that is no underscore. *)
Definition alnum (c : ascii) : bool := Char.is_word c && negb (Char.eqc "_" c).

(** The names a scan has reported, valid ones first. *)
Definition reported (st : vstate) : list string :=
  List.map dir_path (valid_art_info st) ++ invalid_art_info st.

(** A name is in one of the four diagnostic lists. *)
Definition diagnosed (st : vstate) (n : string) : Prop :=
  In n (missing_txt st) \/ In n (missing_img st)
  \/ In n (missing_title st) \/ In n (missing_matched_img st).

(** What holds of an entry of the list of valid directories after a
    scan of [dirs]: it stands for a scanned directory that has its
    description file; its title is not empty and trimmed; its primary
    image is a recorded image of some scanned directory whose file
    name is, up to case, the expected basename followed by the image's
    own extension. *)
Definition entry_ok (dirs : list artdir) (v : valid_info) : Prop :=
  exists d t img base,
    In d dirs /\ dir_path v = d_name d
    /\ (exists e, expected_txt d = Some e)
    /\ title v = Some t /\ Document.trimmed t
    /\ large_image v = Some img
    /\ Basename.stripDirStringToImageFormat (d_name d) = Ok base
    /\ name_matches base img = true
    /\ (exists d', In d' dirs /\ In img (found d')).

End Scan.

(** ** Integers and text: [int(s)] and dates *)

Module IntStr.
Import NumStr.

(** The limit on the digits of a numeral, the same in both
    directions. *)
Definition max_str_digits : nat := NumStr.max_str_digits.

(** [int(s)] for a [str]: white space around, a sign, then decimal
    digits in which single underscores may stand between two digits.
    More than [max_str_digits] digits are refused. *)
Definition int_of_string (s : string) : result Z :=
  let t := rstrip_by float_space (Str.dropwhile float_space s) in
  let (neg, body) := split_sign t in
  let digits := Str.remove "_" body in
  if underscores_ok "000" body && negb (Str.is_empty digits)
     && Str.forallb Char.is_digit digits
     && (String.length digits <=? max_str_digits)%nat
  then Ok (signed neg (digits_val digits))
  else Raise ValueError.

(** A run of digits written as [str] writes a number: "0", or digits
    that do not start with "0". *)
Definition canonical (ds : string) : bool :=
  Str.forallb Char.is_digit ds
  && match ds with
     | "" => false
     | String c r => negb (Char.eqc "0" c) || Str.is_empty r
     end.

End IntStr.

Module Dates.
Import Price.

(** [parse_date_produced] of [merge_artworks.py]; [None] is both the
    answer to a blank text and the answer to a text that [int]
    refuses. *)
Definition parse_date_produced (date_str : string) : option string :=
  if blank date_str then None
  else match IntStr.int_of_string (Str.strip date_str) with
       | Ok year =>
           match NumStr.str_int year with
           | Ok y => Some (y +:+ "-01-01")
           | Raise _ => None
           end
       | Raise _ => None
       end.

(** A character that can stand in a text [int] accepts. *)
Definition year_char (c : ascii) : bool :=
  Char.is_digit c || Char.eqc "+" c || Char.eqc "-" c || Char.eqc "_" c
  || Char.isspace c.

End Dates.

(** ** Matched sizes *)

Module Sizes.
Import Float Num NumStr Ratio.

(** A catalog size lies within the tolerance of a ratio, as the loop
    of [find_matching_print_sizes] tests it. *)
Definition within (artwork_ratio tolerance : float) (size : num * num) : Prop :=
  exists print_ratio ratio_diff,
    Num.truediv (fst size) (snd size) = Ok print_ratio
    /\ Float.div (Float.abs (Float.sub artwork_ratio print_ratio)) artwork_ratio
       = Ok ratio_diff
    /\ Float.le ratio_diff tolerance = true.

(** Ascending order of two formatted sizes: by width, then by height,
    both read back as numbers. *)
Definition key_le (a b : float * float) : Prop :=
  match a, b with
  | (Fin wa, Fin ha), (Fin wb, Fin hb) => (wa < wb \/ (wa == wb /\ ha <= hb))%Q
  | _, _ => False
  end.

Definition ascending (a b : string) : Prop :=
  exists ka kb, size_key a = Ok ka /\ size_key b = Ok kb /\ key_le ka kb.

Definition finite_key (k : float * float) : bool :=
  match k with
  | (Fin _, Fin _) => true
  | _ => false
  end.

(** The sort key of a formatted catalog size is the size itself. *)
Definition key_check (size : num * num) : bool :=
  match format_size (fst size) (snd size), Num.to_float (fst size),
        Num.to_float (snd size) with
  | Ok s, Ok (Fin w), Ok (Fin h) =>
      match size_key s with
      | Ok (Fin kw, Fin kh) => Qeq_bool kw w && Qeq_bool kh h
      | _ => false
      end
  | _, _, _ => false
  end.

End Sizes.

(** ** Categories: [format_categories]

    [str.title()] capitalises a character that does not follow a cased
    one and puts in lower case a character that does.  Two characters
    below 256 have their title-case form above 255, the micro sign and
    the y with diaeresis; a text whose title-case form needs one of
    them is outside the modelled strings, and the functions below
    answer [None] for it. *)

Module Categories.

(** Cased characters: the letters, the ordinal indicators and the
    micro sign. *)
Definition is_cased (c : ascii) : bool :=
  Char.is_upper_az c || Char.is_lower_az c
  || (Char.ord c =? 170)%N || (Char.ord c =? 181)%N || (Char.ord c =? 186)%N
  || Char.in_range 192 214 c || Char.in_range 216 246 c || Char.in_range 248 255 c.

(** The title-case form of one character; the sharp s becomes "Ss". *)
Definition title_char (c : ascii) : option string :=
  if Char.is_lower_az c || Char.in_range 224 246 c || Char.in_range 248 254 c
  then Some (String (ascii_of_N (Char.ord c - 32)) "")
  else if (Char.ord c =? 223)%N then Some "Ss"
  else if (Char.ord c =? 181)%N || (Char.ord c =? 255)%N then None
  else Some (String c "").

Fixpoint title_from (previous_is_cased : bool) (s : string) : option string :=
  match s with
  | "" => Some ""
  | String c s' =>
      match (if previous_is_cased then Some (String (Char.lower c) "")
             else title_char c),
            title_from (is_cased c) s' with
      | Some o, Some r => Some (o +:+ r)
      | _, _ => None
      end
  end.

(** [s.title()] *)
Definition title (s : string) : option string := title_from false s.

Fixpoint title_all (l : list string) : option (list string) :=
  match l with
  | [] => Some []
  | x :: l' =>
      match title x, title_all l' with
      | Some y, Some ys => Some (y :: ys)
      | _, _ => None
      end
  end.

Definition format_categories (categories_str : string) : option string :=
  if Price.blank categories_str then Some ""
  else
    let categories := List.map Str.strip (Str.split "," categories_str) in
    match title_all (List.filter (fun cat => negb (Str.is_empty cat)) categories) with
    | Some formatted_categories => Some (Str.join "," formatted_categories)
    | None => None
    end.

(** A formatted list: nothing, or items separated by single commas,
    each one non-empty, without white space at its ends and without a
    comma. *)
Definition no_comma (c : ascii) : bool := negb (Char.eqc "," c).

Definition item_ok (x : string) : Prop :=
  Document.trimmed x /\ Str.forallb no_comma x = true.

Definition formatted (r : string) : Prop :=
  r = "" \/ exists items, items <> [] /\ Forall item_ok items
                          /\ r = Str.join "," items /\ Str.split "," r = items.

Definition ascii_only (s : string) : bool :=
  Str.forallb (fun c => (Char.ord c <? 128)%N) s.

(** The two inputs of [test_categories.py] and the outputs it
    expects. *)
Definition test1 : string :=
  "acrylic, painting, paint pouring, insects, abstract, moon, fantasy, nature, moody".
Definition expected1 : string :=
  "Acrylic,Painting,Paint Pouring,Insects,Abstract,Moon,Fantasy,Nature,Moody".
Definition test2 : string :=
  "children, illustration, animals, nature, books, painting, cartoons, acrylic, spiritual".
Definition expected2 : string :=
  "Children,Illustration,Animals,Nature,Books,Painting,Cartoons,Acrylic,Spiritual".

End Categories.

(** ** Paths: [PurePosixPath.name] and [.stem] *)

Module Paths.

(** The parts of a path: empty parts and "." are dropped. *)
Definition parts (p : string) : list string :=
  List.filter (fun x => negb (Str.is_empty x || String.eqb x "."))
              (Str.split "/" p).

(** [Path(p).name]: the last part, if there is one. *)
Definition name (p : string) : string := List.last (parts p) "".

(** [Path(p).stem]: the name without its suffix. *)
Definition stem_of_name (n : string) : string :=
  match Validator.rfind_dot n 0 None with
  | Some i =>
      if (0 <? i)%nat && (i <? String.length n - 1)%nat
      then substring 0 i n
      else n
  | None => n
  end.

Definition stem (p : string) : string := stem_of_name (name p).

End Paths.

(** ** Missing titles: [fix_missing_titles.py] *)

Module TitleFix.

(** [s.replace('_', ' ')] *)
Definition underscores_to_blanks (s : string) : string :=
  Str.map (fun c => if Char.eqc "_" c then " "%char else c) s.

Definition extract_title_from_filename (filename : string) : string :=
  let name := Paths.stem filename in
  let name := Re.sub_empty Basename.number_prefix_re name in
  underscores_to_blanks name.

(** The pattern "^[A-Za-z]+($|\s)". *)
Definition header_re : Re.regex :=
  Re.Seq Re.Bol
    (Re.Seq (Re.Plus Char.is_letter)
            (Re.Grp 1 (Re.Alt Re.Eol (Re.Cls Char.isspace)))).

Definition looks_like_header (s : string) : bool :=
  match Re.rmatch header_re s with
  | Some _ => true
  | None => false
  end.

Definition is_title_line (line : string) : bool :=
  String.eqb (Str.strip line) "Title".

(** The line after the header is dropped when it has content that
    does not look like a header. *)
Definition replaced (next_line : string) : bool :=
  negb (Str.is_empty (Str.strip next_line))
  && negb (looks_like_header (Str.strip next_line)).

(** The loop over the lines: [new_lines] and [updated]. *)
Fixpoint update_lines (title : string) (lines : list string) : list string * bool :=
  match lines with
  | [] => ([], false)
  | line :: rest =>
      if is_title_line line then
        let after :=
          match rest with
          | next_line :: rest' =>
              if replaced next_line then update_lines title rest'
              else update_lines title rest
          | [] => ([], false)
          end in
        (line :: (Str.tab +:+ title +:+ Str.nl) :: fst after, true)
      else
        let after := update_lines title rest in
        (line :: fst after, snd after)
  end.

(** [update_title_in_file] on the text of an existing file: the text
    written back, or [None] when no "Title" line was found and the
    file is left alone (the function then returns [False]). *)
Definition update_title_in_file (text title : string) : option string :=
  let (new_lines, updated) :=
    update_lines title (Str.iter_lines (Str.universal_newlines text)) in
  if updated then Some (String.concat "" new_lines) else None.

(** The content of the Title field after the update. *)
Definition new_content (title : string) (ls : list string) : list string :=
  (Str.tab +:+ title)
  :: match ls with
     | l :: ls' => if replaced l then ls' else ls
     | [] => ls
     end.

(** No line of the description, header or content, reads "Title". *)
Definition no_title_line (doc : list Document.field) : bool :=
  List.forallb (fun l => negb (String.eqb (Str.strip l) "Title"))
               (Document.raw_lines doc).

End TitleFix.

(** ** The "Valid Ratios" block: [process_artwork_file] of
    add_valid_ratios.py, from the point where the file is read.

    The two header patterns are compiled with [re.IGNORECASE]; on the
    characters below 256 a letter of the pattern matches itself in
    either case and nothing else. *)

Module RatioBlock.

Definition same_letter (c x : ascii) : bool :=
  Char.eqc (Char.lower c) (Char.lower x).

(** A literal under [re.IGNORECASE]. *)
Fixpoint LitI (s : string) : Re.regex :=
  match s with
  | "" => Re.Eps
  | String c s' => Re.Seq (Re.Cls (same_letter c)) (LitI s')
  end.

(** [^Dimensions\s*$] *)
Definition DIM_LINE_REGEX : Re.regex :=
  Re.Seq Re.Bol
    (Re.Seq (LitI "Dimensions") (Re.Seq (Re.Star Char.isspace) Re.Eol)).

(** [^Valid\s+Ratios\s*$] *)
Definition VALID_RATIOS_LINE_REGEX : Re.regex :=
  Re.Seq Re.Bol
    (Re.Seq (LitI "Valid")
       (Re.Seq (Re.Plus Char.isspace)
          (Re.Seq (LitI "Ratios") (Re.Seq (Re.Star Char.isspace) Re.Eol)))).

Definition matches_re (r : Re.regex) (s : string) : bool :=
  match Re.rmatch r s with
  | Some _ => true
  | None => false
  end.

Definition is_dimensions (line : string) : bool :=
  matches_re DIM_LINE_REGEX (Str.strip line).

Definition is_valid_ratios (line : string) : bool :=
  matches_re VALID_RATIOS_LINE_REGEX (Str.strip line).

(** [lines[i].startswith('    ') or lines[i].startswith('\t')] *)
Definition block_indented (line : string) : bool :=
  Str.startswith "    " line || Str.startswith Str.tab line.

(** The three lines appended after the dimensions. *)
Definition block (matches : list string) : list string :=
  [Str.nl; "Valid Ratios" +:+ Str.nl; "    " +:+ Str.join ", " matches +:+ Str.nl].

(** The [while] loop over [lines], from index [i] on: what it appends
    to [new_lines].  The inner [fix] is the inner [while] that skips
    the indented lines of an old section.  A "Dimensions" line that is
    the last line falls through to the normal case, which appends it a
    second time. *)
Fixpoint rewrite_lines (matches : list string) (added_valid_ratios : bool)
         (lines : list string) : list string :=
  match lines with
  | [] => []
  | line :: rest =>
      if is_valid_ratios line then
        (fix skip (ls : list string) : list string :=
           match ls with
           | l :: ls' =>
               if block_indented l then skip ls'
               else rewrite_lines matches added_valid_ratios ls
           | [] => []
           end) rest
      else if is_dimensions line && negb added_valid_ratios then
        match rest with
        | dim_line :: rest' =>
            line :: dim_line ::
              match matches with
              | [] => rewrite_lines matches added_valid_ratios rest'
              | _ :: _ => block matches ++ rewrite_lines matches true rest'
              end
        | [] => [line; line]
        end
      else line :: rewrite_lines matches added_valid_ratios rest
  end.

(** The text written back for the sizes found and the text read. *)
Definition rewrite_text (matches : list string) (text : string) : string :=
  String.concat ""
    (rewrite_lines matches false (Str.iter_lines (Str.universal_newlines text))).

(** The indented lines at the head of a list are dropped. *)
Fixpoint skip_indented (ls : list string) : list string :=
  match ls with
  | l :: ls' => if block_indented l then skip_indented ls' else ls
  | [] => []
  end.

(** The lines of the block, without their newlines. *)
Definition block_raw (matches : list string) : list string :=
  [""; "Valid Ratios"; "    " +:+ Str.join ", " matches].

(** Predicates on a line given without its newline. *)
Definition dimensions_line (r : string) : bool := is_dimensions (r +:+ Str.nl).
Definition valid_ratios_line (r : string) : bool := is_valid_ratios (r +:+ Str.nl).
Definition indented_line (r : string) : bool := block_indented (r +:+ Str.nl).

(** A line that the loop copies: no header of an old section, and no
    "Dimensions" header while the block is still to be added. *)
Definition plain (added_valid_ratios : bool) (r : string) : bool :=
  negb (valid_ratios_line r) && (added_valid_ratios || negb (dimensions_line r)).

(** The first line, if there is one, is not indented. *)
Definition starts_flush (rs : list string) : bool :=
  match rs with
  | r :: _ => negb (indented_line r)
  | [] => true
  end.

End RatioBlock.

(** * Properties *)

(** ** Sample values

    Values CPython gives, reproduced by the model: the binary64 value of
    a decimal literal, rounding of integers to even, [repr], [float],
    and the patterns of the scripts. *)

Example literal_one_tenth :
  Float.literal 1 10 = Float.Fin (3602879701896397 # 36028797018963968).
Proof. vm_compute. reflexivity. Qed.

Example literal_tolerance :
  Ratio.default_tolerance = Float.Fin (5764607523034235 # 288230376151711744).
Proof. vm_compute. reflexivity. Qed.

Example of_Z_ties_to_even :
  Float.of_Z (2 ^ 53 + 1) = Ok (Float.Fin (inject_Z (2 ^ 53)))
  /\ Float.of_Z (2 ^ 53 + 3) = Ok (Float.Fin (inject_Z (2 ^ 53 + 4)))
  /\ Float.of_Z (2 ^ 1024) = Raise OverflowError.
Proof. repeat split; vm_compute; reflexivity. Qed.

Example round_half_even :
  Float.round (Float.Fin (5 # 2)) = Ok 2%Z
  /\ Float.round (Float.Fin (-7 # 2)) = Ok (-4)%Z
  /\ Float.round (Float.Fin (1 # 2)) = Ok 0%Z.
Proof. repeat split; vm_compute; reflexivity. Qed.

Example float_of_string_samples :
  List.map NumStr.float_of_string ["50"; "1_000.5"; " 12 "; "-2.5E-3"; "1e400"; "nAn"]
  = [Ok (Float.Fin 50); Ok (Float.Fin (2001 # 2)); Ok (Float.Fin 12);
     Ok (Float.Fin (-5764607523034235 # 2305843009213693952));
     Ok (Float.Inf false); Ok Float.NaN]
  /\ List.map NumStr.float_of_string ["$50"; "1__0"; "_1"; "1_"; "."; "1e"; "1 2"; "abc"]
     = List.map (fun _ => Raise ValueError) (seq 0 8).
Proof. split; vm_compute; reflexivity. Qed.

Example repr_samples :
  List.map (fun s => NumStr.repr <$> NumStr.float_of_string s)
    ["6.8"; "0.1"; "1e22"; "1e16"; "1e15"; "0.0001"; "0.00001"; "5."; "2.675";
     "5e-324"; "0.30000000000000004"; "23.6"; "123456789012345678"]
  = List.map Ok
      ["6.8"; "0.1"; "1e+22"; "1e+16"; "1000000000000000.0"; "0.0001"; "1e-05";
       "5.0"; "2.675"; "5e-324"; "0.30000000000000004"; "23.6";
       "1.2345678901234568e+17"].
Proof. vm_compute. reflexivity. Qed.

Example format_size_samples :
  Ratio.format_size (Ratio.F 40 10) (Ratio.F 60 10) = Ok "4x6"
  /\ Ratio.format_size (Ratio.F 68 10) (Ratio.F 160 10) = Ok "6.8x16"
  /\ Ratio.format_size (Ratio.I 24) (Ratio.I 36) = Ok "24x36".
Proof. repeat split; vm_compute; reflexivity. Qed.

Example parse_price_samples :
  Price.parse_price "$1,200" = Ok (Float.Fin 1200)
  /\ Price.parse_price "Sold" = Ok (Float.Fin 0)
  /\ Price.parse_price "abc" = Ok (Float.Fin 0).
Proof. repeat split; vm_compute; reflexivity. Qed.

Example basename_samples :
  Basename.stripDirStringToImageFormat "42-Ancient_Mech" = Ok "LindseyAyres_AncientMech"
  /\ Basename.derive_image_basename_from_folder "04-The_Cat_Who_Ate_The_Sun"
     = "LindseyAyres_TheCatWhoAteTheSun"
  /\ Basename.stripDirStringToImageFormat "04-The_Cat_Who-Ate The.Sun"
     = Ok "LindseyAyres_TheCatWhoAteTheSun"
  /\ Basename.derive_image_basename_from_folder "12-34-x" = "LindseyAyres_34-x".
Proof. repeat split; vm_compute; reflexivity. Qed.

Example suffix_samples :
  List.map Validator.suffix ["a.jpg"; ".bashrc"; "a."; "a.b.c"; ".a.b"; "a.."; "..a"]
  = [".jpg"; ""; ""; ".c"; ".b"; ""; ".a"].
Proof. vm_compute. reflexivity. Qed.

(** The leftmost match decides, also when its group is blank: the first
    header is followed by a line of two blanks, which the pattern takes
    as indentation and content. *)
Example title_blank_group :
  let text := "Title" +:+ Str.nl +:+ "  " +:+ Str.nl
              +:+ "Title" +:+ Str.nl +:+ Str.tab +:+ "Foo" +:+ Str.nl in
  (Re.group 1 <$> Re.search Validator.title_re text) = Some " "
  /\ Validator.find_title text = None.
Proof. split; vm_compute; reflexivity. Qed.

Example title_after_blank_lines :
  Validator.find_title
    ("Title  " +:+ Str.nl +:+ Str.nl +:+ "   Foo bar  ") = Some "Foo bar".
Proof. vm_compute. reflexivity. Qed.

Example header_samples :
  Parser.header_of "OriginalPrice - Price of the original"
  = Some ("OriginalPrice", " - Price of the original")
  /\ Parser.header_of "Title" = Some ("Title", "")
  /\ Parser.header_of "Valid2 Ratios" = None
  /\ Parser.header_of "14x17" = None.
Proof. repeat split; vm_compute; reflexivity. Qed.

(** On every catalog size, for each of the sample query ratios, the
    model's division, subtraction and comparison give what the Standard
    Library's specification of binary64 gives. *)
Example float_model_agrees_with_SpecFloat :
  forallb (fun r => forallb (IEEE.agree_on r) Ratio.ALL_VALID_SIZES) IEEE.sample_ratios
  = true.
Proof. vm_compute. reflexivity. Qed.

Example float_model_products_agree :
  IEEE.mul (Float.literal 1 10) (Float.Fin 10) = Float.mul (Float.literal 1 10) (Float.Fin 10)
  /\ Ok (IEEE.div (Float.literal 1 10) (Float.literal 3 10))
     = Float.div (Float.literal 1 10) (Float.literal 3 10)
  /\ IEEE.of_spec (IEEE.to_spec (Float.literal 68 10)) = Float.literal 68 10.
Proof. repeat split; vm_compute; reflexivity. Qed.

(** ** Strings *)

Section StringFacts.

Lemma app_nil_s (t : string) : "" +:+ t = t.
Proof. reflexivity. Qed.

Lemma app_cons_s (c : ascii) (s t : string) : String c s +:+ t = String c (s +:+ t).
Proof. reflexivity. Qed.

Lemma app_empty_r (s : string) : s +:+ "" = s.
Proof. induction s as [|c s IH]; [reflexivity | now rewrite app_cons_s, IH]. Qed.

Lemma app_assoc_s (a b c : string) : (a +:+ b) +:+ c = a +:+ (b +:+ c).
Proof.
  induction a as [|x a IH]; [reflexivity | now rewrite !app_cons_s, IH].
Qed.

Lemma length_app_s (a b : string) :
  String.length (a +:+ b) = (String.length a + String.length b)%nat.
Proof.
  induction a as [|x a IH]; [reflexivity | rewrite app_cons_s; simpl; now rewrite IH].
Qed.

Lemma substring_app_exact (a b : string) :
  substring 0 (String.length a) (a +:+ b) = a.
Proof.
  induction a as [|x a IH]; [now destruct b | rewrite app_cons_s; simpl; now rewrite IH].
Qed.

Lemma prefix_app (p a t : string) :
  String.prefix p a = true -> String.prefix p (a +:+ t) = true.
Proof.
  revert a; induction p as [|x p IH]; intros a H.
  - now destruct (a +:+ t).
  - destruct a as [|y a]; [discriminate|]. rewrite app_cons_s. simpl in *.
    destruct (ascii_dec x y); [auto | discriminate].
Qed.

Lemma span_app (p : ascii -> bool) (s : string) :
  Str.takewhile p s +:+ Str.dropwhile p s = s.
Proof.
  induction s as [|c s IH]; simpl; [reflexivity|].
  destruct (p c); [now rewrite app_cons_s, IH | reflexivity].
Qed.

Lemma takewhile_all (p : ascii -> bool) (s : string) :
  Str.forallb p (Str.takewhile p s) = true.
Proof.
  induction s as [|c s IH]; simpl; [reflexivity|].
  destruct (p c) eqn:E; simpl; [now rewrite E | reflexivity].
Qed.


(** A prefix within a class, followed by nothing or by a character
    outside of it, is the longest such prefix. *)
Lemma takewhile_app_stop (p : ascii -> bool) (a x : string) :
  Str.forallb p a = true ->
  match x with String c _ => p c = false | "" => True end ->
  Str.takewhile p (a +:+ x) = a /\ Str.dropwhile p (a +:+ x) = x.
Proof.
  intros Ha Hx. induction a as [|c a IH].
  - rewrite app_nil_s. destruct x as [|c r]; [auto|]. simpl. now rewrite Hx.
  - rewrite app_cons_s. simpl in *. apply andb_prop in Ha as [Hc Ha]. rewrite Hc.
    destruct (IH Ha) as [-> ->]. auto.
Qed.

Lemma forallb_app (p : ascii -> bool) (a b : string) :
  Str.forallb p (a +:+ b) = Str.forallb p a && Str.forallb p b.
Proof.
  induction a as [|c a IH]; [reflexivity|].
  rewrite app_cons_s. simpl. now rewrite IH, andb_assoc.
Qed.

Lemma forallb_impl (p q : ascii -> bool) (s : string) :
  (forall c, p c = true -> q c = true) ->
  Str.forallb p s = true -> Str.forallb q s = true.
Proof.
  intros Hpq. induction s as [|c s IH]; simpl; [auto|].
  intros H. apply andb_prop in H as [Hc Hs]. now rewrite (Hpq _ Hc), IH.
Qed.

(** *** [lstrip], [rstrip], [strip] *)

Lemma lstrip_head (s : string) : Str.head_space (Str.lstrip s) = false.
Proof.
  induction s as [|c s IH]; simpl; [reflexivity|].
  destruct (Char.isspace c) eqn:E; [exact IH | simpl; exact E].
Qed.

Lemma rstrip_ends (s : string) : Str.ends_space (Str.rstrip s) = false.
Proof.
  induction s as [|c s IH]; simpl; [reflexivity|].
  destruct (Str.rstrip s) as [|c' r] eqn:E.
  - destruct (Char.isspace c) eqn:Ec; simpl; [reflexivity | exact Ec].
  - exact IH.
Qed.

Lemma lstrip_ends (s : string) :
  Str.ends_space s = false -> Str.ends_space (Str.lstrip s) = false.
Proof.
  induction s as [|c s IH]; [auto|].
  intros H. simpl. destruct (Char.isspace c) eqn:E; [|exact H].
  destruct s as [|c' s']; [reflexivity|]. apply IH. exact H.
Qed.

Lemma strip_head (s : string) : Str.head_space (Str.strip s) = false.
Proof. apply lstrip_head. Qed.

Lemma strip_ends (s : string) : Str.ends_space (Str.strip s) = false.
Proof. apply lstrip_ends, rstrip_ends. Qed.

Lemma rstrip_fixed (s : string) : Str.ends_space s = false -> Str.rstrip s = s.
Proof.
  induction s as [|c s IH]; [auto|].
  intros H. destruct s as [|c' s'].
  - cbn [Str.rstrip Str.ends_space] in *. now rewrite H.
  - change (Str.rstrip (String c (String c' s')))
      with (match Str.rstrip (String c' s') with
            | "" => if Char.isspace c then "" else String c ""
            | r => String c r
            end).
    rewrite IH by exact H. reflexivity.
Qed.

Lemma rstrip_idem (s : string) : Str.rstrip (Str.rstrip s) = Str.rstrip s.
Proof. apply rstrip_fixed, rstrip_ends. Qed.

(** [rstrip] cuts a run of white space off the end. *)
Lemma rstrip_split (s : string) :
  exists t, s = Str.rstrip s +:+ t /\ Str.forallb Char.isspace t = true.
Proof.
  induction s as [|c s (t & Hs & Ht)]; [now exists ""|].
  simpl. destruct (Str.rstrip s) as [|c' r] eqn:E.
  - rewrite app_nil_s in Hs. destruct (Char.isspace c) eqn:Ec.
    + exists (String c s). split; [reflexivity|]. simpl. rewrite Ec.
      now rewrite Hs.
    + exists t. rewrite app_cons_s, app_nil_s. split; [congruence | exact Ht].
  - exists t. rewrite app_cons_s. split; [congruence | exact Ht].
Qed.

Lemma letter_not_space (c : ascii) :
  Char.is_letter c = true -> Char.isspace c = false.
Proof. destruct c as [[] [] [] [] [] [] [] []]; vm_compute; congruence. Qed.

Lemma letter_not_LF (c : ascii) :
  Char.is_letter c = true -> Char.eqc Char.LF c = false.
Proof. destruct c as [[] [] [] [] [] [] [] []]; vm_compute; congruence. Qed.

Lemma lower_letter (c : ascii) :
  Char.is_letter c = true -> Char.is_lower_az (Char.lower c) = true.
Proof. destruct c as [[] [] [] [] [] [] [] []]; vm_compute; congruence. Qed.

Lemma eqc_eq (a c : ascii) : Char.eqc a c = true <-> a = c.
Proof. unfold Char.eqc. apply Ascii.eqb_eq. Qed.

End StringFacts.

(** ** The matcher *)

Section MatcherFacts.
Context {A : Type}.

(** A greedy repetition whose continuation accepts the longest run
    stops there. *)
Lemma star_bt_longest (p : ascii -> bool) (k : nat -> string -> option A) s n a :
  k (n + String.length (Str.takewhile p s))%nat (Str.dropwhile p s) = Some a ->
  Re.star_bt p s n k = Some a.
Proof.
  revert n; induction s as [|c s IH]; intros n; simpl.
  - now rewrite Nat.add_0_r.
  - destruct (p c); simpl.
    + rewrite <- Nat.add_succ_comm. intros H. now rewrite (IH _ H).
    + now rewrite Nat.add_0_r.
Qed.

(** A greedy repetition whose continuation rejects every text that
    starts inside the class cannot give anything back. *)
Lemma star_bt_no_giveback (p : ascii -> bool) (k : nat -> string -> option A) s n :
  (forall c r m, p c = true -> k m (String c r) = None) ->
  Re.star_bt p s n k
  = k (n + String.length (Str.takewhile p s))%nat (Str.dropwhile p s).
Proof.
  intros Hk. revert n; induction s as [|c s IH]; intros n; simpl.
  - now rewrite Nat.add_0_r.
  - destruct (p c) eqn:E; simpl.
    + rewrite IH, <- Nat.add_succ_comm.
      destruct (k _ _); [reflexivity|]. now apply Hk.
    + now rewrite Nat.add_0_r.
Qed.

End MatcherFacts.

Section HeaderPattern.
Import Parser.

(** The header pattern, matched by backtracking, yields what
    [header_of] reads off the line. *)
Lemma field_re_header (line : string) :
  match Re.rmatch field_re line with
  | Some m => Some (Re.group 1 m, Re.group 2 m)
  | None => None
  end = header_of line.
Proof.
  unfold Re.rmatch, field_re, header_of.
  destruct line as [|c s]; [reflexivity|].
  cbn [Re.bt Re.Plus Re.pos Re.rest Re.caps Nat.eqb Str.takewhile Str.dropwhile].
  destruct (Char.is_letter c) eqn:Ec; [|reflexivity].
  cbn [Str.is_empty].
  rewrite star_bt_no_giveback.
  2:{ intros c' r m Hc'. cbn [Re.bt Re.pos Re.rest Re.caps].
      rewrite (letter_not_space _ Hc').
      destruct r; [rewrite (letter_not_LF _ Hc')|]; reflexivity. }
  cbn [Re.bt Re.pos Re.rest Re.caps].
  replace (1 + String.length (Str.takewhile Char.is_letter s) - 0)%nat
    with (String.length (String c (Str.takewhile Char.is_letter s)))
    by (simpl; lia).
  assert (Hname : substring 0 (String.length (String c (Str.takewhile Char.is_letter s)))
                    (String c s) = String c (Str.takewhile Char.is_letter s)).
  { rewrite <- (span_app Char.is_letter s) at 2.
    change (String c (Str.takewhile Char.is_letter s +:+ Str.dropwhile Char.is_letter s))
      with (String c (Str.takewhile Char.is_letter s) +:+ Str.dropwhile Char.is_letter s).
    apply substring_app_exact. }
  rewrite Hname.
  destruct (Str.dropwhile Char.is_letter s) as [|c1 r] eqn:Er.
  - cbn. rewrite Nat.sub_diag. reflexivity.
  - assert (Hlong : forall n,
      Re.star_bt Char.not_LF r (S n)
        (fun (n0 : nat) (s0 : string) =>
           Some (Re.MState n0 s0
              ((2%nat, substring 0 (n0 - n) (String c1 r))
               :: [(1%nat, String c (Str.takewhile Char.is_letter s))])))
      = Some (Re.MState (S n + String.length (Str.takewhile Char.not_LF r))
                (Str.dropwhile Char.not_LF r)
                ((2%nat, String c1 (Str.takewhile Char.not_LF r))
                 :: [(1%nat, String c (Str.takewhile Char.is_letter s))]))).
    { intros n. apply star_bt_longest. do 4 f_equal.
      replace (S n + String.length (Str.takewhile Char.not_LF r) - n)%nat
        with (String.length (String c1 (Str.takewhile Char.not_LF r)))
        by (simpl; lia).
      rewrite <- (span_app Char.not_LF r) at 2.
      change (String c1 (Str.takewhile Char.not_LF r +:+ Str.dropwhile Char.not_LF r))
        with (String c1 (Str.takewhile Char.not_LF r) +:+ Str.dropwhile Char.not_LF r).
      apply substring_app_exact. }
    destruct r as [|c2 r'].
    + destruct (Char.eqc Char.LF c1) eqn:E1; cbn [andb Str.is_empty].
      * cbn. rewrite Nat.sub_diag. reflexivity.
      * destruct (Char.isspace c1); [|reflexivity].
        cbn [Re.pos Re.rest Re.caps].
        rewrite Hlong. cbn. reflexivity.
    + rewrite andb_false_r.
      destruct (Char.isspace c1); [|reflexivity].
      cbn [Re.pos Re.rest Re.caps].
      rewrite Hlong. cbn. reflexivity.
Qed.

End HeaderPattern.

(** ** The field parser *)

Section ParserFacts.
Import Parser.

Lemma rmatch_cases (line : string) :
  (Re.rmatch field_re line = None /\ header_of line = None)
  \/ (exists m, Re.rmatch field_re line = Some m
                /\ header_of line = Some (Re.group 1 m, Re.group 2 m)).
Proof.
  generalize (field_re_header line).
  destruct (Re.rmatch field_re line) as [m|]; intros H; [right; eauto | left; auto].
Qed.

Lemma header_of_name (line a b : string) :
  header_of line = Some (a, b) ->
  a = Str.takewhile Char.is_letter line
  /\ a <> "" /\ Str.forallb Char.is_letter a = true.
Proof.
  unfold header_of. intros H.
  destruct (Str.takewhile Char.is_letter line) as [|c n] eqn:E; [discriminate|].
  cbn [Str.is_empty] in H.
  assert (a = String c n) as ->.
  { destruct (Str.dropwhile Char.is_letter line) as [|c1 r]; [congruence|].
    destruct (_ && _); [congruence|]. destruct (Char.isspace c1); congruence. }
  split; [reflexivity|]. split; [discriminate|].
  rewrite <- E. apply takewhile_all.
Qed.

(** After a header the line goes on with white space, if it goes on. *)
Lemma header_of_rest (line a b : string) :
  header_of line = Some (a, b) ->
  match Str.dropwhile Char.is_letter line with
  | "" => True
  | String c _ => Char.isspace c = true
  end.
Proof.
  unfold header_of.
  destruct (Str.is_empty _); [discriminate|].
  destruct (Str.dropwhile Char.is_letter line) as [|c1 r]; [auto|].
  destruct (Char.eqc Char.LF c1) eqn:E1.
  - apply eqc_eq in E1 as <-. reflexivity.
  - cbn [andb]. destruct (Char.isspace c1); [auto | discriminate].
Qed.

Lemma store_ok (m : gmap string string) (f : string) (content : list string) :
  map_ok m -> f <> "" -> Str.forallb Char.is_letter f = true ->
  map_ok (store m f content).
Proof.
  intros Hm Hf Hl k v. unfold store. rewrite lookup_insert_Some.
  intros [[<- <-] | [_ H]]; [|now apply Hm].
  split; [now exists f | split; [apply strip_head | apply strip_ends]].
Qed.

Lemma init_ok : state_ok init.
Proof.
  split; [|intros f [=]]. intros k v H.
  change (artwork init) with (∅ : gmap string string) in H.
  now rewrite lookup_empty in H.
Qed.

Lemma step_ok (st : pstate) (raw : string) : state_ok st -> state_ok (step st raw).
Proof.
  intros [Hm Hc]. unfold step.
  destruct (Str.is_empty _); [now split|].
  destruct (_ && _).
  - destruct (rmatch_cases (Str.rstrip raw)) as [[-> _] | (m & -> & Hh)]; [now split|].
    apply header_of_name in Hh as (_ & Hne & Hl).
    destruct (current_field st) as [f|] eqn:Ef.
    + destruct (Hc f eq_refl) as [Hf1 Hf2].
      destruct (active (Some f)); cbn [artwork field_content current_field].
      * split; [now apply store_ok | now intros ? [= <-]].
      * split; [exact Hm | now intros ? [= <-]].
    + split; [exact Hm | now intros ? [= <-]].
  - destruct (_ && _); now split.
Qed.

Lemma fold_ok (lines : list string) (st : pstate) :
  state_ok st -> state_ok (fold_left step lines st).
Proof.
  revert st; induction lines as [|l ls IH]; intros st H; [exact H|].
  apply IH, step_ok, H.
Qed.

Lemma finish_ok (st : pstate) : state_ok st -> map_ok (finish st).
Proof.
  intros [Hm Hc]. unfold finish.
  destruct (current_field st) as [f|]; [|exact Hm].
  destruct (Hc f eq_refl). destruct (active _); [now apply store_ok | exact Hm].
Qed.

Lemma key_ok_lower (k : string) :
  key_ok k -> k <> "" /\ Str.forallb Char.is_lower_az k = true.
Proof.
  intros (tok & Hne & Hl & ->). split.
  - destruct tok; [congruence | discriminate].
  - clear Hne. unfold Str.lower. induction tok as [|c t IH]; [reflexivity|].
    cbn [Str.map Str.forallb] in *. apply andb_prop in Hl as [Hc Ht].
    now rewrite (lower_letter _ Hc), IH.
Qed.

(** *** Lines without effect *)

Lemma LF_is_space (c : ascii) : Char.eqc Char.LF c = true -> Char.isspace c = true.
Proof. intros H. apply eqc_eq in H as <-. reflexivity. Qed.

Lemma header_first_token (raw a b : string) :
  header_of (Str.rstrip raw) = Some (a, b) ->
  Str.forallb Char.is_letter (first_token raw) = true.
Proof.
  intros H.
  destruct (rstrip_split raw) as (t & Hraw & Ht).
  pose proof (header_of_rest _ _ _ H) as Hrest.
  apply header_of_name in H as (Ha & Hne & Hl).
  set (line := Str.rstrip raw) in *.
  assert (Hsplit : raw = a +:+ (Str.dropwhile Char.is_letter line +:+ t)).
  { rewrite <- app_assoc_s, Ha, span_app. exact Hraw. }
  unfold first_token.
  assert (Hls : Str.lstrip raw = raw).
  { rewrite Hsplit. destruct a as [|c a']; [congruence|].
    rewrite app_cons_s. simpl.
    simpl in Hl. apply andb_prop in Hl as [Hc _].
    now rewrite (letter_not_space _ Hc). }
  rewrite Hls, Hsplit.
  destruct (takewhile_app_stop (fun c => negb (Char.isspace c)) a
              (Str.dropwhile Char.is_letter line +:+ t)) as [-> _]; [| |exact Hl].
  - eapply forallb_impl; [|exact Hl].
    intros c Hc. now rewrite (letter_not_space _ Hc).
  - destruct (Str.dropwhile Char.is_letter line) as [|c1 r].
    + rewrite app_nil_s. destruct t as [|c' t']; [exact I|].
      simpl in Ht. apply andb_prop in Ht as [-> _]. reflexivity.
    + rewrite app_cons_s. now rewrite Hrest.
Qed.

Lemma step_ignorable (st : pstate) (raw : string) :
  ignorable raw = true -> step st raw = st.
Proof.
  unfold ignorable. intros H.
  apply andb_prop in H as [H Htok]. apply andb_prop in H as [Hblank Hind].
  unfold step.
  assert (Hs : Str.strip (Str.rstrip raw) = Str.strip raw).
  { unfold Str.strip. now rewrite rstrip_idem. }
  rewrite Hs. apply negb_true_iff in Hblank. rewrite Hblank.
  assert (Hpre : forall p, String.prefix p raw = false ->
                           String.prefix p (Str.rstrip raw) = false).
  { intros p Hp. destruct (String.prefix p (Str.rstrip raw)) eqn:E; [|reflexivity].
    destruct (rstrip_split raw) as (t & Hraw & _).
    rewrite Hraw in Hp. now rewrite (prefix_app _ _ t E) in Hp. }
  apply negb_true_iff in Hind. unfold indented in Hind.
  apply orb_false_iff in Hind as [Htab Hsp].
  unfold Str.startswith in *.
  rewrite (Hpre _ Htab), (Hpre _ Hsp). cbn [negb andb].
  destruct (rmatch_cases (Str.rstrip raw)) as [[-> _] | (m & _ & Hh)]; [reflexivity|].
  apply header_first_token in Hh. now rewrite Hh in Htok.
Qed.

Lemma fold_ignorable (lines : list string) (st : pstate) :
  fold_left step (List.filter (fun l => negb (ignorable l)) lines) st
  = fold_left step lines st.
Proof.
  revert st; induction lines as [|l ls IH]; intros st; [reflexivity|].
  simpl. destruct (ignorable l) eqn:E; simpl.
  - now rewrite (step_ignorable _ _ E).
  - apply IH.
Qed.

End ParserFacts.

(** *** Lines of a text *)

Section LinesFacts.
Import Lines.

Lemma complete_cons (c : ascii) (l : string) :
  Char.eqc Char.LF c = false -> complete l -> complete (String c l).
Proof.
  intros Hc (b & -> & Hb). exists (String c b). split; [reflexivity|].
  cbn [Str.forallb]. unfold Char.not_LF at 1. now rewrite Hc.
Qed.

Lemma partial_cons (c : ascii) (l : string) :
  Char.eqc Char.LF c = false ->
  Str.forallb Char.not_LF l = true -> partial (String c l).
Proof.
  intros Hc Hl. split; [discriminate|]. cbn [Str.forallb].
  unfold Char.not_LF at 1. now rewrite Hc.
Qed.

Lemma iter_lines_ok (s : string) : lines_ok (Str.iter_lines s).
Proof.
  induction s as [|c s IH]; [exact I|]. cbn [Str.iter_lines].
  destruct (Char.eqc Char.LF c) eqn:Ec.
  - assert (Hnl : complete Str.nl) by (exists ""; split; reflexivity).
    cbn [lines_ok]. split; [left; exact Hnl | split; [intros _; exact Hnl | exact IH]].
  - destruct (Str.iter_lines s) as [|l ls]; cbn [lines_ok] in *.
    + split; [right; now apply partial_cons | split; [congruence | exact I]].
    + destruct IH as (H1 & H2 & H3). split; [|split; [|exact H3]].
      * destruct H1 as [H1 | [_ H1]];
          [left; now apply complete_cons | right; now apply partial_cons].
      * intros Hne. now apply complete_cons, H2.
Qed.

Lemma concat_cons (l : string) (ls : list string) :
  String.concat "" (l :: ls) = l +:+ String.concat "" ls.
Proof. destruct ls; simpl; [now rewrite app_empty_r | reflexivity]. Qed.

Lemma iter_lines_partial (l : string) :
  partial l -> Str.iter_lines l = [l].
Proof.
  intros [Hne Hl]. induction l as [|c l IH]; [congruence|].
  cbn [Str.forallb Str.iter_lines] in *. apply andb_prop in Hl as [Hc Hl].
  unfold Char.not_LF in Hc. apply negb_true_iff in Hc. rewrite Hc.
  destruct l as [|c' l']; [reflexivity|].
  rewrite IH; [reflexivity | discriminate | exact Hl].
Qed.

Lemma iter_lines_complete (b rest : string) :
  Str.forallb Char.not_LF b = true ->
  Str.iter_lines (b +:+ Str.nl +:+ rest) = (b +:+ Str.nl) :: Str.iter_lines rest.
Proof.
  intros Hb. induction b as [|c b IH].
  - reflexivity.
  - cbn [Str.forallb] in Hb. apply andb_prop in Hb as [Hc Hb].
    unfold Char.not_LF in Hc. apply negb_true_iff in Hc.
    rewrite !app_cons_s. cbn [Str.iter_lines]. rewrite Hc.
    rewrite (IH Hb). reflexivity.
Qed.

Lemma iter_lines_concat (ls : list string) :
  lines_ok ls -> Str.iter_lines (String.concat "" ls) = ls.
Proof.
  induction ls as [|l ls IH]; [reflexivity|].
  intros (H1 & H2 & H3). rewrite concat_cons.
  destruct ls as [|l' ls'].
  - simpl. rewrite app_empty_r. destruct H1 as [(b & -> & Hb) | H1].
    + rewrite <- (app_empty_r (b +:+ Str.nl)) at 1.
      rewrite app_assoc_s. now rewrite iter_lines_complete.
    + now apply iter_lines_partial.
  - destruct H2 as (b & -> & Hb); [discriminate|].
    rewrite app_assoc_s, iter_lines_complete by exact Hb.
    now rewrite IH.
Qed.

Lemma lines_ok_filter (f : string -> bool) (ls : list string) :
  lines_ok ls -> lines_ok (List.filter f ls).
Proof.
  induction ls as [|l ls IH]; [auto|].
  intros (H1 & H2 & H3). simpl. destruct (f l); [|now apply IH].
  simpl. split; [exact H1|]. split; [|now apply IH].
  intros Hne. apply H2. intros ->. now apply Hne.
Qed.

Lemma universal_newlines_no_CR (s : string) :
  no_CR (Str.universal_newlines s) = true.
Proof.
  induction s as [|c s IH]; [reflexivity|]. cbn [Str.universal_newlines].
  destruct (Char.eqc Char.CR c) eqn:Ec.
  - destruct s as [|c' s']; [reflexivity|].
    destruct (Char.eqc Char.LF c'); [exact IH|].
    unfold no_CR in *. cbn [Str.forallb]. rewrite IH. reflexivity.
  - unfold no_CR in *. cbn [Str.forallb]. now rewrite Ec, IH.
Qed.

Lemma universal_newlines_fixed (s : string) :
  no_CR s = true -> Str.universal_newlines s = s.
Proof.
  induction s as [|c s IH]; [reflexivity|].
  unfold no_CR in *. cbn [Str.forallb]. intros H.
  apply andb_prop in H as [Hc Hs]. apply negb_true_iff in Hc.
  cbn [Str.universal_newlines]. now rewrite Hc, IH.
Qed.

Lemma iter_lines_no_CR (s : string) :
  no_CR s = true -> Forall (fun l => no_CR l = true) (Str.iter_lines s).
Proof.
  induction s as [|c s IH]; [constructor|].
  unfold no_CR in *. cbn [Str.forallb]. intros H.
  apply andb_prop in H as [Hc Hs]. specialize (IH Hs). cbn [Str.iter_lines].
  destruct (Char.eqc Char.LF c).
  - constructor; [reflexivity | exact IH].
  - destruct (Str.iter_lines s) as [|l ls].
    + constructor; [|constructor]. cbn [Str.forallb]. now rewrite Hc.
    + inversion IH as [|? ? Hl Hls]; subst.
      constructor; [|exact Hls]. cbn [Str.forallb]. now rewrite Hc, Hl.
Qed.

Lemma concat_no_CR (ls : list string) :
  Forall (fun l => no_CR l = true) ls -> no_CR (String.concat "" ls) = true.
Proof.
  induction 1 as [|l ls Hl Hls IH]; [reflexivity|].
  rewrite concat_cons. unfold no_CR in *. now rewrite forallb_app, Hl, IH.
Qed.

Lemma Forall_filter_keep {X : Type} (P : X -> Prop) (f : X -> bool) (l : list X) :
  Forall P l -> Forall P (List.filter f l).
Proof.
  induction 1 as [|x l Hx Hl IH]; [constructor|].
  simpl. destruct (f x); [constructor|]; assumption.
Qed.

End LinesFacts.

(** C3: parsing the sample text of the specification gives exactly the
    two fields [title] and [artdescription], the latter holding the two
    content lines joined by a newline. *)
Theorem parse_sample_text :
  Parser.parse_artwork_file sample_text
  = {[ "title" := "Foo Bar"; "artdescription" := "Hello" +:+ Str.nl +:+ "World" ]}.
Proof. vm_compute. reflexivity. Qed.

(** C9: a line that is not blank, not indented and whose first token is
    not made of letters only has no effect: it leaves the state of the
    loop (fields stored, current field, pending content) as it is, and
    the parse of a text equals the parse of the text with all such lines
    deleted. *)
Theorem ignorable_lines_have_no_effect :
  (forall st line, Parser.ignorable line = true -> Parser.step st line = st)
  /\ (forall text,
        Parser.parse_artwork_file (Parser.delete_ignorable text)
        = Parser.parse_artwork_file text).
Proof.
  split; [exact step_ignorable|]. intros text.
  unfold Parser.parse_artwork_file, Parser.delete_ignorable, Parser.parse_lines.
  set (ls := Str.iter_lines (Str.universal_newlines text)).
  assert (Hcr : Forall (fun l => Lines.no_CR l = true) ls)
    by apply iter_lines_no_CR, universal_newlines_no_CR.
  rewrite universal_newlines_fixed
    by now apply concat_no_CR, Forall_filter_keep.
  rewrite iter_lines_concat by apply lines_ok_filter, iter_lines_ok.
  now rewrite fold_ignorable.
Qed.

(** C10: the parser is a total function of the text, and in the mapping
    it returns every key is the lower-casing of a non-empty all-letter
    header token, hence a non-empty run of [a-z], and every value has
    neither leading nor trailing white space. *)
Theorem parse_artwork_file_shape (text k v : string) :
  Parser.parse_artwork_file text !! k = Some v ->
  (exists tok, tok <> "" /\ Str.forallb Char.is_letter tok = true /\ k = Str.lower tok)
  /\ k <> "" /\ Str.forallb Char.is_lower_az k = true
  /\ Str.head_space v = false /\ Str.ends_space v = false.
Proof.
  intros H.
  assert (Hok : Parser.map_ok (Parser.parse_artwork_file text))
    by apply finish_ok, fold_ok, init_ok.
  destruct (Hok k v H) as [Hk [Hv1 Hv2]].
  destruct (key_ok_lower k Hk) as [Hne Hl].
  repeat split; assumption.
Qed.

Lemma parse_artwork_file_shape_witness :
  (exists tok, tok <> "" /\ Str.forallb Char.is_letter tok = true
               /\ "title" = Str.lower tok)
  /\ "title" <> "" /\ Str.forallb Char.is_lower_az "title" = true
  /\ Str.head_space "Foo Bar" = false /\ Str.ends_space "Foo Bar" = false.
Proof.
  apply (parse_artwork_file_shape sample_text "title" "Foo Bar").
  vm_compute. reflexivity.
Defined.

(** ** Prices *)

Section PriceFacts.
Import Price.

Lemma prefix_split (p s : string) :
  String.prefix p s = true <-> exists b, s = p +:+ b.
Proof.
  revert s; induction p as [|x p IH]; intros s.
  - split; [intros _; now exists s | intros _; now destruct s].
  - destruct s as [|y s].
    + split; [discriminate | intros [b Hb]; discriminate].
    + simpl. destruct (ascii_dec x y) as [->|Hne].
      * rewrite IH. split; intros [b Hb]; exists b.
        -- now rewrite app_cons_s, <- Hb.
        -- rewrite app_cons_s in Hb. congruence.
      * split; [discriminate|]. intros [b Hb].
        rewrite app_cons_s in Hb. congruence.
Qed.

(** [sub in s] holds exactly when [s] is some text, [sub], some text. *)
Lemma contains_split (sub s : string) :
  Str.contains sub s = true <-> exists a b, s = a +:+ sub +:+ b.
Proof.
  induction s as [|c s IH].
  - cbn [Str.contains]. rewrite orb_false_r, prefix_split. split.
    + intros [b Hb]. now exists "", b.
    + intros (a & b & H). destruct a; [now exists b | discriminate].
  - cbn [Str.contains]. rewrite orb_true_iff, prefix_split, IH. split.
    + intros [[b Hb] | (a & b & H)]; [now exists "", b|].
      exists (String c a), b. now rewrite app_cons_s, <- H.
    + intros (a & b & H). destruct a as [|x a].
      * left. now exists b.
      * right. exists a, b. rewrite app_cons_s in H. congruence.
Qed.

Lemma map_app (f : ascii -> ascii) (a b : string) :
  Str.map f (a +:+ b) = Str.map f a +:+ Str.map f b.
Proof.
  induction a as [|c a IH]; [reflexivity|].
  rewrite app_cons_s. cbn [Str.map]. now rewrite IH, app_cons_s.
Qed.

Lemma map_app_inv (f : ascii -> ascii) (s x y : string) :
  Str.map f s = x +:+ y ->
  exists a b, s = a +:+ b /\ Str.map f a = x /\ Str.map f b = y.
Proof.
  revert s; induction x as [|c x IH]; intros s H.
  - now exists "", s.
  - destruct s as [|d s]; [discriminate|].
    rewrite app_cons_s in H. cbn [Str.map] in H. injection H as Hc Hs.
    destruct (IH _ Hs) as (a & b & -> & Ha & Hb).
    exists (String d a), b. cbn [Str.map]. now rewrite Hc, Ha, app_cons_s.
Qed.

(** The test [sub in price_lower] is containment up to case. *)
Lemma contains_lower (sub s : string) :
  Str.contains (Str.lower sub) (Str.lower s) = true <-> contains_ci sub s.
Proof.
  rewrite contains_split. unfold contains_ci, Str.lower. split.
  - intros (x & y & H). apply map_app_inv in H as (a & r & -> & Ha & Hr).
    apply map_app_inv in Hr as (m & b & -> & Hm & Hb). now exists a, m, b.
  - intros (a & m & b & -> & Hm).
    exists (Str.map Char.lower a), (Str.map Char.lower b).
    now rewrite !map_app, Hm.
Qed.

Lemma lstrip_empty (s : string) :
  Str.lstrip s = "" -> Str.forallb Char.isspace s = true.
Proof.
  induction s as [|c s IH]; [reflexivity|]. cbn [Str.lstrip Str.forallb].
  destruct (Char.isspace c); [exact IH | discriminate].
Qed.

Lemma rstrip_spaces (s : string) :
  Str.forallb Char.isspace s = true -> Str.rstrip s = "".
Proof.
  induction s as [|c s IH]; [reflexivity|]. cbn [Str.rstrip Str.forallb].
  intros H. apply andb_prop in H as [Hc Hs]. now rewrite (IH Hs), Hc.
Qed.

(** [not s or not s.strip()] says that [s] is white space only. *)
Lemma blank_spaces (s : string) :
  blank s = true <-> Str.forallb Char.isspace s = true.
Proof.
  unfold blank. split.
  - intros H. apply orb_prop in H as [H | H].
    + now destruct s.
    + destruct (Str.strip s) eqn:E; [|discriminate].
      apply lstrip_empty in E.
      destruct (rstrip_split s) as (t & Hs & Ht).
      now rewrite Hs, forallb_app, E, Ht.
  - intros H. unfold Str.strip. rewrite (rstrip_spaces _ H). apply orb_true_r.
Qed.

Lemma float_of_string_error (s : string) (e : exn) :
  NumStr.float_of_string s = Raise e -> e = ValueError.
Proof.
  unfold NumStr.float_of_string.
  destruct (NumStr.underscores_ok _ _); [|congruence].
  destruct (NumStr.parse_number _); congruence.
Qed.

(** [parse_price] never raises. *)
Lemma parse_price_total (s : string) : exists p, parse_price s = Ok p.
Proof.
  unfold parse_price. destruct (blank s); [eauto|].
  destruct (existsb _ _); [eauto|].
  destruct (NumStr.float_of_string _) as [f|e] eqn:E; [eauto|].
  apply float_of_string_error in E as ->. eauto.
Qed.

End PriceFacts.

(** C8: [determine_for_sale] answers [False] on a text that is empty,
    white space only, or contains "sold" or "not for sale" in any case;
    on every other text it answers whether [parse_price] is positive.
    In particular "Sold" is not for sale and "$50" is. *)
Theorem determine_for_sale_spec (s : string) :
  (Price.excluded s -> Price.determine_for_sale s = Ok false)
  /\ (~ Price.excluded s ->
      exists p, Price.parse_price s = Ok p
                /\ Price.determine_for_sale s = Ok (Float.lt (Float.Fin 0) p))
  /\ Price.determine_for_sale "Sold" = Ok false
  /\ Price.determine_for_sale "$50" = Ok true.
Proof.
  assert (Hsold : Str.contains "sold" (Str.lower s) = true <-> Price.contains_ci "sold" s)
    by apply (contains_lower "sold").
  assert (Hnfs : Str.contains "not for sale" (Str.lower s) = true
                 <-> Price.contains_ci "not for sale" s)
    by apply (contains_lower "not for sale").
  split; [|split; [|split; vm_compute; reflexivity]].
  - intros Hex. unfold Price.determine_for_sale.
    destruct (Price.blank s) eqn:Hb; [reflexivity|].
    destruct Hex as [H | [H | H]].
    + apply blank_spaces in H. congruence.
    + apply Hsold in H. now rewrite H.
    + apply Hnfs in H. now rewrite H, orb_true_r.
  - intros Hex. destruct (parse_price_total s) as [p Hp]. exists p.
    split; [exact Hp|]. unfold Price.determine_for_sale.
    destruct (Price.blank s) eqn:Hb.
    { exfalso. apply Hex. left. now apply blank_spaces. }
    destruct (Str.contains "sold" (Str.lower s)) eqn:H1.
    { exfalso. apply Hex. right. left. now apply Hsold. }
    destruct (Str.contains "not for sale" (Str.lower s)) eqn:H2.
    { exfalso. apply Hex. right. right. now apply Hnfs. }
    cbn [orb]. now rewrite Hp.
Qed.

Lemma determine_for_sale_spec_witness :
  Price.determine_for_sale "SOLD out" = Ok false.
Proof.
  apply (proj1 (determine_for_sale_spec "SOLD out")).
  right. left. exists "", "SOLD", " out". split; reflexivity.
Defined.

(** ** The ratio matcher *)

Section RatioFacts.
Import Float Num Ratio.

Lemma bind_ok {X Y : Type} (a : X) (k : X -> result Y) : (Ok a ≫= k) = k a.
Proof. reflexivity. Qed.

Lemma bind_raise {X Y : Type} (e : exn) (k : X -> result Y) :
  (Raise e ≫= k) = Raise e.
Proof. reflexivity. Qed.

Lemma to_float_zero (h : num) (f : float) :
  Num.is_zero h = true -> Num.to_float h = Ok f -> Float.is_zero f = true.
Proof.
  destruct h as [z|g]; simpl.
  - intros Hz. apply Z.eqb_eq in Hz as ->. now intros [= <-].
  - now intros Hz [= <-].
Qed.

Lemma to_float_error (w : num) (e : exn) :
  Num.to_float w = Raise e -> e = OverflowError.
Proof.
  destruct w as [z|g]; simpl; [|discriminate].
  unfold of_Z. destruct (round64 _); congruence.
Qed.

(** Dividing by a zero always raises; the error is the division by
    zero unless the conversion of an oversized [int] numerator comes
    first. *)
Lemma truediv_zero (w h : num) :
  Num.is_zero h = true ->
  (exists e, Num.truediv w h = Raise e)
  /\ (Num.is_int h = true \/ (exists f, Num.to_float w = Ok f) ->
      Num.truediv w h = Raise ZeroDivisionError).
Proof.
  intros Hz.
  assert (Hdiv : forall x y, Float.is_zero y = true -> Float.div x y = Raise ZeroDivisionError).
  { intros x y Hy. unfold Float.div. now rewrite Hy. }
  destruct w as [a|x], h as [b|y]; cbn [Num.truediv Num.to_float Num.is_int].
  - simpl in Hz. unfold int_truediv. rewrite Hz. split; [eauto | auto].
  - simpl in Hz. destruct (of_Z a) as [fa|e] eqn:Ea.
    + rewrite !bind_ok, (Hdiv _ _ Hz). split; [eauto | auto].
    + rewrite bind_raise. split; [eauto|]. intros [H | [f H]]; discriminate.
  - simpl in Hz. apply Z.eqb_eq in Hz as ->.
    change (of_Z 0) with (Ok (Fin 0)).
    rewrite !bind_ok, Hdiv by reflexivity. split; [eauto | auto].
  - simpl in Hz. rewrite !bind_ok, (Hdiv _ _ Hz). split; [eauto | auto].
Qed.

End RatioFacts.

(** C5, as amended: with a height equal to zero the matcher returns no
    list: it raises.  The exception is [ZeroDivisionError] whenever the
    height is an [int] or the width converts to a [float], which covers
    every [float] width; in the one remaining case, a [float] zero as
    height and an [int] width beyond the range of the floats, it is the
    [OverflowError] of the conversion. *)
Theorem zero_height_raises (w h : Num.num) (tolerance : Float.float) :
  Num.is_zero h = true ->
  (exists e, Ratio.find_matching_print_sizes w h tolerance = Raise e)
  /\ (Num.is_int h = true \/ (exists f, Num.to_float w = Ok f) ->
      Ratio.find_matching_print_sizes w h tolerance = Raise ZeroDivisionError)
  /\ (Num.is_int h = false -> (forall f, Num.to_float w <> Ok f) ->
      Ratio.find_matching_print_sizes w h tolerance = Raise OverflowError).
Proof.
  intros Hz. destruct (truediv_zero w h Hz) as [[e He] H2].
  unfold Ratio.find_matching_print_sizes. split; [|split].
  - exists e. now rewrite He.
  - intros H. now rewrite (H2 H).
  - intros Hh Hw. destruct (Num.to_float w) as [f|e'] eqn:Ew.
    + now destruct (Hw f).
    + pose proof (to_float_error w e' Ew) as ->.
      destruct w as [a|x], h as [b|y]; try discriminate.
      cbn [Num.truediv]. now rewrite Ew.
Qed.

Lemma zero_height_raises_witness :
  (exists e, Ratio.find_matching_print_sizes (Num.Int 1200) (Num.Int 0)
               Ratio.default_tolerance = Raise e)
  /\ (Num.is_int (Num.Int 0) = true \/ (exists f, Num.to_float (Num.Int 1200) = Ok f) ->
      Ratio.find_matching_print_sizes (Num.Int 1200) (Num.Int 0)
        Ratio.default_tolerance = Raise ZeroDivisionError)
  /\ (Num.is_int (Num.Int 0) = false ->
      (forall f, Num.to_float (Num.Int 1200) <> Ok f) ->
      Ratio.find_matching_print_sizes (Num.Int 1200) (Num.Int 0)
        Ratio.default_tolerance = Raise OverflowError).
Proof.
  apply (zero_height_raises (Num.Int 1200) (Num.Int 0) Ratio.default_tolerance).
  reflexivity.
Defined.

(** C5, as stated, fails on an integer width beyond the range of the
    floats with the height 0.0: the conversion of the width raises
    [OverflowError] before the division is reached, so the error is not
    the division by zero. *)
Lemma zero_height_overflow :
  Num.is_zero (Num.Flt (Float.Fin 0)) = true
  /\ Ratio.find_matching_print_sizes (Num.Int (10 ^ 400)) (Num.Flt (Float.Fin 0))
       Ratio.default_tolerance = Raise OverflowError.
Proof. split; [reflexivity | vm_compute; reflexivity]. Qed.

Section Query1200x1800.
Import Float Num Ratio.

Lemma listed_In (s : string) : listed s = false -> ~ In s matches_1200_1800.
Proof.
  unfold listed. intros H Hin.
  assert (existsb (String.eqb s) matches_1200_1800 = true); [|congruence].
  apply existsb_exists. exists s. split; [exact Hin | apply String.eqb_refl].
Qed.

End Query1200x1800.

(** C7: on the query 1200 x 1800 with the default tolerance the matcher
    returns a list that holds "4x6" and "24x36", and that holds the
    formatted size of no catalog entry whose relative error against
    1200/1800 exceeds 0.02, whether the error is taken as the script
    computes it or in exact arithmetic. *)
Theorem ratio_match_1200_1800 :
  Ratio.find_matching_print_sizes (Num.Int 1200) (Num.Int 1800) Ratio.default_tolerance
  = Ok Ratio.matches_1200_1800
  /\ In "4x6" Ratio.matches_1200_1800 /\ In "24x36" Ratio.matches_1200_1800
  /\ (forall size print_ratio ratio_diff s,
        In size Ratio.ALL_VALID_SIZES ->
        Num.truediv (fst size) (snd size) = Ok print_ratio ->
        Float.div (Float.abs (Float.sub Ratio.query_ratio print_ratio)) Ratio.query_ratio
        = Ok ratio_diff ->
        Float.le ratio_diff Ratio.default_tolerance = false ->
        Ratio.format_size (fst size) (snd size) = Ok s ->
        ~ In s Ratio.matches_1200_1800)
  /\ (forall size s,
        In size Ratio.ALL_VALID_SIZES ->
        ((2 # 100) < Ratio.exact_error (2 # 3) size)%Q ->
        Ratio.format_size (fst size) (snd size) = Ok s ->
        ~ In s Ratio.matches_1200_1800)
  /\ Num.truediv (Num.Int 1200) (Num.Int 1800) = Ok Ratio.query_ratio.
Proof.
  split; [vm_compute; reflexivity|].
  split; [simpl; auto|]. split; [simpl; auto 10|].
  split; [|split; [|vm_compute; reflexivity]].
  - assert (H : forallb Ratio.float_check Ratio.ALL_VALID_SIZES = true)
      by (vm_compute; reflexivity).
    rewrite forallb_forall in H.
    intros size pr rd s Hin Hpr Hrd Hle Hs. specialize (H size Hin).
    unfold Ratio.float_check in H. rewrite Hpr, Hrd, Hle, Hs in H.
    apply listed_In. now destruct (Ratio.listed s).
  - assert (H : forallb Ratio.exact_check Ratio.ALL_VALID_SIZES = true)
      by (vm_compute; reflexivity).
    rewrite forallb_forall in H.
    intros size s Hin Herr Hs. specialize (H size Hin).
    unfold Ratio.exact_check in H. rewrite Hs in H.
    destruct (Qle_bool _ _) eqn:E.
    + apply Qle_bool_iff in E. exfalso. now apply (Qlt_not_le _ _ Herr).
    + apply listed_In. now destruct (Ratio.listed s).
Qed.

(** ** Rounding *)

Section Rounding.
Import Float.
Local Open Scope Z_scope.

Lemma round64_compat (p q : Q) : (p == q)%Q -> round64 p = round64 q.
Proof. intros H. unfold round64. now rewrite (Qred_complete _ _ H). Qed.

Lemma round_nearest_even_1 (x : Z) : round_nearest_even x 1 = x.
Proof.
  unfold round_nearest_even. rewrite Z.mod_1_r, Z.div_1_r. reflexivity.
Qed.

Lemma floor_log2_int (n : positive) : floor_log2 n 1 = Z.log2 (Zpos n).
Proof.
  unfold floor_log2. change (Z.log2 1) with 0. rewrite Z.sub_0_r.
  pose proof (Z.log2_nonneg (Zpos n)) as Hnn.
  pose proof (Z.log2_spec (Zpos n) ltac:(lia)) as [Hlo _].
  rewrite (Z.max_r 0 (Z.log2 (Zpos n))) by lia.
  rewrite (Z.max_l 0 (- Z.log2 (Zpos n))) by lia.
  rewrite Z.pow_0_r, Z.mul_1_r, Z.mul_1_l.
  destruct (Z.leb_spec (2 ^ Z.log2 (Zpos n)) (Zpos n)); [reflexivity | lia].
Qed.

(** Integers below 2^53 are floats. *)
Lemma round64_exact (z : Z) :
  0 < z < 2 ^ 53 -> round64 (inject_Z z) = Fin (inject_Z z).
Proof.
  intros [Hpos Hlt]. unfold round64. rewrite inject_Z_Qred.
  destruct z as [|n|n]; try lia. cbn [inject_Z Qnum Qden].
  unfold round_pos. rewrite floor_log2_int.
  assert (Hl : 0 <= Z.log2 (Zpos n) <= 52).
  { split; [apply Z.log2_nonneg|].
    assert (Z.log2 (Zpos n) < 53) by (apply Z.log2_lt_pow2; lia). lia. }
  set (l := Z.log2 (Zpos n)) in *.
  rewrite (Z.max_l (l - 52) (-1074)) by lia.
  rewrite (Z.max_r 0 (- (l - 52))) by lia.
  rewrite (Z.max_l 0 (l - 52)) by lia.
  rewrite Z.pow_0_r, Z.mul_1_l, round_nearest_even_1.
  destruct (Z.leb_spec 0 (l - 52)) as [Hge | Hneg].
  - assert (l - 52 = 0) as -> by lia.
    rewrite Z.opp_0, Z.pow_0_r, !Z.mul_1_r.
    destruct (Z.leb_spec (2 ^ 1024) (Zpos n)) as [Hbig|_]; [|reflexivity].
    assert (2 ^ 53 < 2 ^ 1024) by (apply Z.pow_lt_mono_r; lia). lia.
  - f_equal. rewrite <- (inject_Z_Qred (Zpos n)). apply Qred_complete.
    assert (Hp : 0 < 2 ^ (- (l - 52))) by (apply Z.pow_pos_nonneg; lia).
    unfold Qeq, inject_Z. cbn [Qnum Qden].
    rewrite Z2Pos.id by exact Hp. lia.
Qed.

(** Below 2^52 nothing overflows. *)
Lemma round64_finite (q : Q) :
  (0 < q)%Q -> (q < inject_Z (2 ^ 52))%Q -> exists r, round64 q = Fin r.
Proof.
  intros Hpos Hlt. unfold round64.
  rewrite <- (Qred_correct q) in Hpos, Hlt.
  destruct (Qred q) as [n d]. cbn [Qnum Qden].
  unfold Qlt in Hpos, Hlt. cbn [Qnum Qden inject_Z] in Hpos, Hlt.
  rewrite Z.mul_1_r in Hpos, Hlt.
  destruct n as [|n|n]; try lia.
  unfold round_pos.
  assert (Hfl : floor_log2 n d < 52).
  { unfold floor_log2.
    set (e := Z.log2 (Z.pos n) - Z.log2 (Z.pos d)).
    assert (He : e <= 52).
    { assert (Z.log2 (Z.pos n) <= Z.log2 (Z.pos d * 2 ^ 52))
        by (apply Z.log2_le_mono; lia).
      rewrite Z.log2_mul_pow2 in H by lia. unfold e. lia. }
    destruct (Z.leb_spec (Z.pos d * 2 ^ Z.max 0 e) (Z.pos n * 2 ^ Z.max 0 (- e)))
      as [Hle|_]; [|lia].
    destruct (Z.eq_dec e 52) as [E|]; [|lia].
    rewrite E in Hle. change (Z.max 0 52) with 52 in Hle.
    change (Z.max 0 (- 52)) with 0 in Hle. rewrite Z.pow_0_r in Hle. lia. }
  destruct (Z.leb_spec 0 (Z.max (floor_log2 n d - 52) (-1074))); [lia|].
  eauto.
Qed.

End Rounding.

(** ** Simplifying the ratio before matching *)

Section Simplification.
Import Float Num Ratio.

Lemma tenfold_pos (w : num) (W : Z) : tenfold w W -> (0 < Num.value w)%Q.
Proof.
  intros (_ & Hv & Hpos & _).
  assert (H : (0 < Num.value w * 10)%Q).
  { rewrite Hv. unfold Qlt. cbn. lia. }
  destruct (Num.value w) as [n d]. unfold Qlt in *. cbn in *. lia.
Qed.

Lemma tenfold_scale (w : num) (W : Z) :
  tenfold w W -> (Num.mul w (Int 10) ≫= Num.round_int) = Ok W.
Proof.
  intros (Hfin & Hv & Hrange). destruct w as [z|[q|s|]]; try discriminate.
  - cbn in Hv. cbn [Num.mul]. rewrite bind_ok. cbn [Num.round_int].
    f_equal. apply inject_Z_injective. rewrite <- Hv, inject_Z_mult. reflexivity.
  - cbn in Hv. cbn [Num.mul Num.to_float].
    change (of_Z 10) with (Ok (Fin 10)). rewrite !bind_ok.
    cbn [Float.mul Num.round_int].
    rewrite (round64_compat _ _ Hv), (round64_exact _ Hrange).
    cbn [Float.round inject_Z Qnum Qden]. now rewrite round_nearest_even_1.
Qed.

Lemma tenfold_to_float (w : num) (W : Z) :
  tenfold w W -> Num.to_float w = Ok (Fin (Num.value w)).
Proof.
  intros (Hfin & Hv & Hrange). destruct w as [z|[q|s|]]; try discriminate.
  - cbn in Hv. cbn [Num.to_float Num.value]. unfold of_Z.
    assert (W = (z * 10)%Z) as ->
      by (apply inject_Z_injective; now rewrite <- Hv, inject_Z_mult).
    rewrite round64_exact by lia. reflexivity.
  - reflexivity.
Qed.

Lemma div_fin (a b : Q) :
  (0 < b)%Q -> Float.div (Fin a) (Fin b) = Ok (round64 (a / b)).
Proof.
  intros Hb. unfold Float.div. cbn [Float.is_zero].
  destruct (Z.eqb_spec (Qnum b) 0) as [E|_]; [|reflexivity].
  unfold Qlt in Hb. cbn in Hb. lia.
Qed.

(** The direct quotient of two such numbers. *)
Lemma tenfold_truediv (w h : num) (W H : Z) :
  tenfold w W -> tenfold h H ->
  Num.truediv w h = Ok (round64 (Num.value w / Num.value h)).
Proof.
  intros Hw Hh.
  pose proof (tenfold_pos _ _ Hh) as Hhpos.
  pose proof (tenfold_pos _ _ Hw) as Hwpos.
  assert (Hgen : (Num.to_float w ≫= fun x => Num.to_float h ≫= fun y => Float.div x y)
                 = Ok (round64 (Num.value w / Num.value h))).
  { rewrite (tenfold_to_float _ _ Hw), bind_ok, (tenfold_to_float _ _ Hh), bind_ok.
    now apply div_fin. }
  destruct w as [a|x]; [|exact Hgen]. destruct h as [b|y]; [|exact Hgen].
  clear Hgen. cbn [Num.truediv Num.value] in *.
  destruct Hw as (_ & Hvw & HW), Hh as (_ & Hvh & HH). cbn in Hvw, Hvh.
  assert (W = (a * 10)%Z) as ->
    by (apply inject_Z_injective; now rewrite <- Hvw, inject_Z_mult).
  assert (H = (b * 10)%Z) as ->
    by (apply inject_Z_injective; now rewrite <- Hvh, inject_Z_mult).
  unfold int_truediv. destruct (Z.eqb_spec b 0) as [E|_]; [lia|].
  destruct (round64_finite (inject_Z a / inject_Z b)) as [r ->]; [| |reflexivity].
  - apply Qlt_shift_div_l; [exact Hhpos|]. now rewrite Qmult_0_l.
  - apply Qlt_shift_div_r; [exact Hhpos|].
    rewrite <- inject_Z_mult, <- Zlt_Qlt.
    assert (2 ^ 53 = 2 * 2 ^ 52)%Z by reflexivity. nia.
Qed.

Lemma int_truediv_exact (W g : Z) :
  (0 < W < 2 ^ 53)%Z -> (0 < g)%Z -> (g | W)%Z ->
  int_truediv W g = Ok (Fin (inject_Z (W / g))).
Proof.
  intros HW Hg [k Hk]. unfold int_truediv.
  destruct (Z.eqb_spec g 0) as [E|_]; [lia|].
  assert (Hq : (W / g = k)%Z) by (subst W; now apply Z.div_mul; lia).
  rewrite Hq.
  assert (Heq : (inject_Z W / inject_Z g == inject_Z k)%Q).
  { subst W. rewrite inject_Z_mult. field.
    intros H0. apply (inject_Z_injective g 0) in H0. lia. }
  rewrite (round64_compat _ _ Heq), round64_exact by nia. reflexivity.
Qed.

(** The simplified pair of two such numbers. *)
Lemma tenfold_calculate_ratio (w h : num) (W H : Z) :
  tenfold w W -> tenfold h H ->
  calculate_ratio w h
  = Ok (Fin (inject_Z (W / Z.gcd W H)), Fin (inject_Z (H / Z.gcd W H))).
Proof.
  intros Hw Hh. unfold calculate_ratio.
  pose proof (tenfold_scale _ _ Hw) as Sw. pose proof (tenfold_scale _ _ Hh) as Sh.
  destruct (Num.mul w (Int 10)) as [w10|e]; [|discriminate].
  rewrite bind_ok in Sw. rewrite bind_ok, Sw, bind_ok.
  destruct (Num.mul h (Int 10)) as [h10|e]; [|discriminate].
  rewrite bind_ok in Sh. rewrite bind_ok, Sh, bind_ok.
  destruct Hw as (_ & _ & HW), Hh as (_ & _ & HH).
  assert (Hg : (0 < Z.gcd W H)%Z).
  { pose proof (Z.gcd_nonneg W H).
    destruct (Z.eq_dec (Z.gcd W H) 0%Z) as [E|]; [|lia].
    apply Z.gcd_eq_0_l in E. lia. }
  rewrite (int_truediv_exact W _ HW Hg (Z.gcd_divide_l W H)), bind_ok.
  rewrite (int_truediv_exact H _ HH Hg (Z.gcd_divide_r W H)), bind_ok.
  reflexivity.
Qed.

End Simplification.

(** C4, as amended: for a width and a height that are positive and
    whose values, taken exactly, are tenths of integers below 2^53 (all
    integer pixel dimensions up to 900 trillion among them, and floats
    such as 2.5; not a float such as 5.1, whose binary value is no
    tenth of an integer), matching the simplified pair and matching the
    original width and height give the same result. *)
Theorem simplification_preserves_matches (w h : Num.num) (W H : Z) :
  Ratio.tenfold w W -> Ratio.tenfold h H ->
  Ratio.matches_of_pixels w h
  = Ratio.find_matching_print_sizes w h Ratio.default_tolerance.
Proof.
  intros Hw Hh. unfold Ratio.matches_of_pixels.
  rewrite (tenfold_calculate_ratio _ _ _ _ Hw Hh), bind_ok. cbn [fst snd].
  unfold Ratio.find_matching_print_sizes.
  rewrite (tenfold_truediv _ _ _ _ Hw Hh).
  destruct Hw as (_ & Hvw & HW), Hh as (_ & Hvh & HH).
  set (g := Z.gcd W H).
  assert (Hg : (0 < g)%Z).
  { pose proof (Z.gcd_nonneg W H).
    destruct (Z.eq_dec g 0%Z) as [E|]; [|lia].
    apply Z.gcd_eq_0_l in E. lia. }
  destruct (Z.gcd_divide_l W H) as [kw Hkw], (Z.gcd_divide_r W H) as [kh Hkh].
  fold g in Hkw, Hkh.
  assert (Hqw : (W / g = kw)%Z) by (rewrite Hkw; now apply Z.div_mul; lia).
  assert (Hqh : (H / g = kh)%Z) by (rewrite Hkh; now apply Z.div_mul; lia).
  rewrite Hqw, Hqh.
  assert (Hkhpos : (0 < kh)%Z) by nia.
  cbn [Num.truediv Num.to_float]. rewrite !bind_ok.
  rewrite div_fin by (unfold Qlt; cbn; lia).
  assert (Hnz : ~ (Num.value h == 0)%Q).
  { intros E. rewrite E, Qmult_0_l in Hvh.
    apply (inject_Z_injective 0 H) in Hvh. lia. }
  assert (Heq : (inject_Z kw / inject_Z kh == Num.value w / Num.value h)%Q).
  { transitivity (inject_Z W / inject_Z H)%Q.
    - rewrite Hkw, Hkh, !inject_Z_mult. field. split.
      + intros E. apply (inject_Z_injective g 0) in E. lia.
      + intros E. apply (inject_Z_injective kh 0) in E. lia.
    - rewrite <- Hvw, <- Hvh. field. exact Hnz. }
  now rewrite (round64_compat _ _ Heq).
Qed.

Lemma simplification_preserves_matches_witness :
  Ratio.matches_of_pixels (Num.Int 1200) (Num.Int 1800)
  = Ratio.find_matching_print_sizes (Num.Int 1200) (Num.Int 1800) Ratio.default_tolerance.
Proof.
  apply (simplification_preserves_matches (Num.Int 1200) (Num.Int 1800) 12000 18000).
  - split; [reflexivity|]. split; [reflexivity|]. split; [lia | reflexivity].
  - split; [reflexivity|]. split; [reflexivity|]. split; [lia | reflexivity].
Defined.

(** C4, as stated, fails in two places.  On large integers: for the
    first two dimensions the direct match lists the square sizes and the
    match of the simplified pair does not.  And on a float with one
    decimal: 5.1 times ten is the float 51.0, so the script takes it for
    a tenth of an integer, yet for 2.5 x 5.1 the direct match lists the
    thirteen sizes of ratio 1:2 and the match of the simplified pair
    25 : 51 lists none. *)
Lemma simplification_changes_matches :
  (let w := Num.Int 18382039295389779 in
   let h := Num.Int 18014398509481985 in
   (exists l1 l2,
      Ratio.matches_of_pixels w h = Ok l1
      /\ Ratio.find_matching_print_sizes w h Ratio.default_tolerance = Ok l2
      /\ In "6x6" l2 /\ ~ In "6x6" l1)
   /\ Ratio.matches_of_pixels w h
      <> Ratio.find_matching_print_sizes w h Ratio.default_tolerance)
  /\ (let w := Ratio.F 25 10 in
      let h := Ratio.F 51 10 in
      Num.mul w (Num.Int 10) = Ok (Num.Flt (Float.Fin 25))
      /\ Num.mul h (Num.Int 10) = Ok (Num.Flt (Float.Fin 51))
      /\ Ratio.calculate_ratio w h = Ok (Float.Fin 25, Float.Fin 51)
      /\ Ratio.matches_of_pixels w h = Ok []
      /\ Ratio.find_matching_print_sizes w h Ratio.default_tolerance
         = Ok ["5x10"; "6x12"; "9x18"; "10x20"; "11x22"; "12x24"; "14x28";
               "15x30"; "16x32"; "18x36"; "20x40"; "24x48"; "30x60"]).
Proof.
  cbv zeta. split; [split|].
  - eexists _, _. split; [vm_compute; reflexivity|].
    split; [vm_compute; reflexivity|].
    split; [simpl; auto|]. simpl. intuition discriminate.
  - vm_compute. discriminate.
  - repeat split; vm_compute; reflexivity.
Qed.

(** ** More on the matcher: literals, searches, repetitions *)

Section MatcherSearch.
Context {A : Type}.

Lemma bt_lit_app (l s : string) (n : nat) (caps : list (nat * string))
      (k : Re.mstate -> option A) :
  Re.bt (Re.Lit l) (Re.MState n (l +:+ s) caps) k
  = k (Re.MState (n + String.length l) s caps).
Proof.
  revert n; induction l as [|c l IH]; intros n.
  - cbn. now rewrite Nat.add_0_r.
  - rewrite app_cons_s. cbn [Re.Lit Re.bt Re.rest Re.pos Re.caps].
    assert (Char.eqc c c = true) as -> by now apply eqc_eq.
    rewrite IH. cbn [String.length]. now rewrite Nat.add_succ_comm.
Qed.



Lemma bt_seq (r1 r2 : Re.regex) (st : Re.mstate) (k : Re.mstate -> option A) :
  Re.bt (Re.Seq r1 r2) st k = Re.bt r1 st (fun st1 => Re.bt r2 st1 k).
Proof. reflexivity. Qed.

Lemma bt_star (p : ascii -> bool) (st : Re.mstate) (k : Re.mstate -> option A) :
  Re.bt (Re.Star p) st k
  = Re.star_bt p (Re.rest st) (Re.pos st)
      (fun n s => k (Re.MState n s (Re.caps st))).
Proof. reflexivity. Qed.

Lemma bt_cls (p : ascii -> bool) (n : nat) (c : ascii) (s : string)
      (caps : list (nat * string)) (k : Re.mstate -> option A) :
  Re.bt (Re.Cls p) (Re.MState n (String c s) caps) k
  = if p c then k (Re.MState (S n) s caps) else None.
Proof. reflexivity. Qed.



(** A repetition stops at the first split, taken from the longest, that
    its continuation accepts. *)
Lemma star_bt_first (p : ascii -> bool) (k : nat -> string -> option A) b n :
  (forall x y, b = x +:+ y -> x <> "" -> Str.forallb p x = true ->
               k (n + String.length x)%nat y = None) ->
  Re.star_bt p b n k = k n b.
Proof.
  revert n; induction b as [|c b IH]; intros n Hk; [reflexivity|].
  cbn [Re.star_bt]. destruct (p c) eqn:E; [|reflexivity].
  rewrite IH.
  - assert (Hn : k (S n) b = None).
    { rewrite <- (Nat.add_1_r n).
      apply (Hk (String c "") b); [reflexivity | discriminate|].
      cbn [Str.forallb]. now rewrite E. }
    now rewrite Hn.
  - intros x y -> Hx Hp.
    rewrite Nat.add_succ_comm.
    apply (Hk (String c x) y); [reflexivity | discriminate|].
    cbn [Str.forallb]. now rewrite E, Hp.
Qed.

Lemma star_bt_split (p : ascii -> bool) (k : nat -> string -> option A) a b n r :
  Str.forallb p a = true ->
  (forall x y, b = x +:+ y -> x <> "" -> Str.forallb p x = true ->
               k (n + String.length a + String.length x)%nat y = None) ->
  k (n + String.length a)%nat b = Some r ->
  Re.star_bt p (a +:+ b) n k = Some r.
Proof.
  revert n; induction a as [|c a IH]; intros n Ha Hk Hr.
  - rewrite app_nil_s. cbn [String.length] in *. rewrite Nat.add_0_r in *.
    now rewrite star_bt_first.
  - rewrite app_cons_s. cbn [Re.star_bt Str.forallb String.length] in *.
    apply andb_prop in Ha as [Hc Ha]. rewrite Hc.
    rewrite (IH (S n)); [reflexivity | exact Ha | |].
    + intros x y Hb Hx Hp. rewrite Nat.add_succ_comm. now apply Hk.
    + now rewrite Nat.add_succ_comm.
Qed.

End MatcherSearch.

(** ** The title check *)

Section TitleFacts.
Import Validator.

Lemma blank_is_space (c : ascii) : Char.is_blank c = true -> Char.isspace c = true.
Proof. destruct c as [[] [] [] [] [] [] [] []]; vm_compute; congruence. Qed.

Lemma nonspace_not_LF (c : ascii) : Char.isspace c = false -> Char.not_LF c = true.
Proof. destruct c as [[] [] [] [] [] [] [] []]; vm_compute; congruence. Qed.

Lemma blank_not_LF (c : ascii) : Char.is_blank c = true -> Char.eqc Char.LF c = false.
Proof. destruct c as [[] [] [] [] [] [] [] []]; vm_compute; congruence. Qed.


(** The last group of the pattern takes the rest of the line. *)
Lemma bt_content (n : nat) (s : string) (caps : list (nat * string)) :
  Re.bt (Re.Grp 1 (Re.Seq (Re.Cls Char.not_LF) (Re.Star Char.not_LF)))
        (Re.MState n s caps) Some
  = match s with
    | String c s' =>
        if Char.not_LF c
        then Some (Re.MState (S n + String.length (Str.takewhile Char.not_LF s'))
                     (Str.dropwhile Char.not_LF s')
                     ((1%nat, String c (Str.takewhile Char.not_LF s')) :: caps))
        else None
    | "" => None
    end.
Proof.
  cbn [Re.bt Re.rest Re.pos Re.caps].
  destruct s as [|c s]; [reflexivity|].
  destruct (Char.not_LF c); [|reflexivity].
  cbn [Re.rest Re.pos Re.caps].
  apply star_bt_longest. do 4 f_equal.
  replace (S n + String.length (Str.takewhile Char.not_LF s) - n)%nat
    with (String.length (String c (Str.takewhile Char.not_LF s)))
    by (simpl; lia).
  rewrite <- (span_app Char.not_LF s) at 2.
  rewrite <- app_cons_s. apply substring_app_exact.
Qed.

(** A text that continues a run of white space and then reaches a
    character that is none splits inside the run. *)
Lemma space_prefix_split (z x y r : string) (c0 : ascii) :
  z +:+ String c0 r = x +:+ y ->
  Str.forallb Char.isspace x = true -> Char.isspace c0 = false ->
  exists z', z = x +:+ z' /\ y = z' +:+ String c0 r.
Proof.
  revert z; induction x as [|a x IH]; intros z H Hx Hc.
  - exists z. now rewrite app_nil_s in *.
  - cbn [Str.forallb] in Hx. apply andb_prop in Hx as [Ha Hx].
    rewrite app_cons_s in H. destruct z as [|b z].
    + rewrite app_nil_s in H. injection H as -> _. congruence.
    + rewrite app_cons_s in H. injection H as -> H.
      destruct (IH _ H Hx Hc) as (z' & -> & ->). now exists z'.
Qed.


(** Completeness: at a title site whose content starts with a
    character that is no white space, the pattern matches and its
    group is the content. *)
Lemma title_site_match (t ws ind body rest : string) (n : nat) :
  title_site t "" ws ind body rest -> Str.head_space body = false ->
  exists m, Re.bt title_re (Re.MState n t []) Some = Some m
            /\ Re.group 1 m = body.
Proof.
  intros (-> & Hws & Hind & Hblank & Hbody & Hnl & Hrest) Hhead.
  destruct body as [|c0 b]; [congruence|]. cbn [Str.head_space] in Hhead.
  destruct ind as [|c1 i]; [congruence|]. clear Hind Hbody.
  cbn [Str.forallb] in Hblank, Hnl.
  apply andb_prop in Hblank as [Hc1 Hi]. apply andb_prop in Hnl as [Hc0 Hb].
  assert (Hstop : match rest with
                  | String c _ => Char.not_LF c = false
                  | "" => True
                  end).
  { destruct Hrest as [-> | [r ->]]; [exact I | reflexivity]. }
  destruct (takewhile_app_stop Char.not_LF b rest Hb Hstop) as [Htw Hdw].
  assert (Hc0' : Char.is_blank c0 = false).
  { destruct (Char.is_blank c0) eqn:E; [|reflexivity].
    apply blank_is_space in E. congruence. }
  assert (Hc0'' : Char.eqc Char.LF c0 = false).
  { unfold Char.not_LF in Hc0. now apply negb_true_iff in Hc0. }
  set (tail := String Char.LF (String c1 i) +:+ String c0 (b +:+ rest)).
  assert (Etail : Str.nl +:+ String c1 i +:+ String c0 b +:+ rest = tail).
  { unfold tail, Str.nl. now rewrite !app_cons_s, app_nil_s. }
  eexists. split.
  - rewrite app_nil_s, Etail. unfold title_re, Re.Plus.
    rewrite bt_seq, bt_lit_app, bt_seq, bt_star. cbn [Re.rest Re.pos Re.caps].
    apply star_bt_split; [exact Hws| |].
    + intros x y Hxy Hx Hp. rewrite bt_seq.
      destruct (space_prefix_split _ _ _ _ _ Hxy Hp Hhead) as (z' & Hz & ->).
      destruct x as [|a x]; [congruence|]. rewrite app_cons_s in Hz.
      injection Hz as <- Hz.
      destruct z' as [|d z'].
      * rewrite app_nil_s, bt_cls. now rewrite Hc0''.
      * rewrite app_cons_s, bt_cls.
        assert (Hd : Char.is_blank d = true).
        { assert (Hall : Str.forallb Char.is_blank (String c1 i) = true)
            by (cbn [Str.forallb]; now rewrite Hc1, Hi).
          rewrite Hz, forallb_app in Hall. apply andb_prop in Hall as [_ Hall].
          cbn [Str.forallb] in Hall. now apply andb_prop in Hall as [-> _]. }
        now rewrite (blank_not_LF _ Hd).
    + unfold tail. rewrite !app_cons_s.
      rewrite bt_seq, bt_cls.
      assert (Char.eqc Char.LF Char.LF = true) as -> by reflexivity.
      rewrite !bt_seq, bt_cls, Hc1, bt_star. cbn [Re.rest Re.pos Re.caps].
      apply star_bt_longest.
      destruct (takewhile_app_stop Char.is_blank i (String c0 (b +:+ rest)) Hi Hc0')
        as [-> ->].
      rewrite bt_content, Hc0, Htw, Hdw. reflexivity.
  - reflexivity.
Qed.

End TitleFacts.


(** ** Basenames *)

Lemma split1_no_dash (s : string) :
  Basename.no_dash s = true -> Str.split1 "-" s = [s].
Proof.
  unfold Basename.no_dash. induction s as [|c s IH]; [reflexivity|].
  cbn [Str.forallb Str.split1]. intros H. apply andb_prop in H as [Hc Hs].
  apply negb_true_iff in Hc. now rewrite Hc, (IH Hs).
Qed.

(** The validator's derivation raises on every name without a dash. *)
Lemma stripDirStringToImageFormat_no_dash (name : string) :
  Basename.no_dash name = true ->
  Basename.stripDirStringToImageFormat name = Raise ValueError.
Proof.
  intros H. unfold Basename.stripDirStringToImageFormat.
  now rewrite (split1_no_dash _ H).
Qed.

(** C6: the validator's derivation raises on every name without a
    dash, but the derivation of [merge_artworks.py] does not: on the
    folder name "42Foo_Bar", which has none, it returns the prefix glued
    onto the name. *)
Theorem derive_basename_without_dash :
  (forall name, Basename.no_dash name = true ->
                Basename.stripDirStringToImageFormat name = Raise ValueError)
  /\ Basename.no_dash "42Foo_Bar" = true
  /\ Basename.derive_image_basename_from_folder "42Foo_Bar" = "LindseyAyres_42FooBar".
Proof.
  split; [exact stripDirStringToImageFormat_no_dash|].
  split; vm_compute; reflexivity.
Qed.

(** ** The scan *)

(** C2: scanned after a directory that holds an image named after it,
    directory "2-B" is reported valid with that foreign image as its
    primary image; scanned alone it lacks a matching image. *)
Theorem foreign_image_is_matched :
  (exists st,
     Validator.get_valid_art_directories [Validator.dir_A; Validator.dir_B] = Ok st
     /\ Validator.valid_art_info st
        = [Validator.ValidInfo "2-B" (Some "Foo")
             (Some (Validator.Path "1-A" "LindseyAyres_B.jpg"))]
     /\ Validator.valid_images st
        = [Validator.Path "1-A" "LindseyAyres_B.jpg"; Validator.Path "2-B" "pic.png"])
  /\ (exists st,
        Validator.get_valid_art_directories [Validator.dir_B] = Ok st
        /\ Validator.valid_art_info st = []
        /\ Validator.missing_matched_img st = ["2-B"]).
Proof.
  split; eexists; (split; [vm_compute; reflexivity | split; reflexivity]).
Qed.

(** ** Descriptions in the template's layout *)

Section MoreStringFacts.

Lemma rstrip_empty (s : string) :
  Str.rstrip s = "" -> Str.forallb Char.isspace s = true.
Proof.
  induction s as [|c s IH]; [reflexivity|]. cbn [Str.rstrip Str.forallb].
  destruct (Str.rstrip s) eqn:E; [|discriminate].
  destruct (Char.isspace c); [intros _; now apply IH | discriminate].
Qed.

Lemma rstrip_app_spaces (x t : string) :
  Str.forallb Char.isspace t = true -> Str.rstrip (x +:+ t) = Str.rstrip x.
Proof.
  intros Ht. induction x as [|c x IH].
  - rewrite app_nil_s. now apply rstrip_spaces.
  - rewrite app_cons_s. cbn [Str.rstrip]. now rewrite IH.
Qed.

Lemma rstrip_app_keep (a x : string) :
  Str.rstrip x <> "" -> Str.rstrip (a +:+ x) = a +:+ Str.rstrip x.
Proof.
  intros Hx. induction a as [|c a IH]; [reflexivity|].
  rewrite !app_cons_s. cbn [Str.rstrip]. rewrite IH.
  destruct a as [|d a].
  - rewrite app_nil_s. destruct (Str.rstrip x); [congruence | reflexivity].
  - rewrite app_cons_s. reflexivity.
Qed.

Lemma strip_rstrip (s : string) : Str.strip (Str.rstrip s) = Str.strip s.
Proof. unfold Str.strip. now rewrite rstrip_idem. Qed.

Lemma strip_app_spaces (x t : string) :
  Str.forallb Char.isspace t = true -> Str.strip (x +:+ t) = Str.strip x.
Proof. intros Ht. unfold Str.strip. now rewrite rstrip_app_spaces. Qed.

Lemma lstrip_fixed (s : string) : Str.head_space s = false -> Str.lstrip s = s.
Proof. destruct s as [|c s]; [reflexivity|]. simpl. now intros ->. Qed.

Lemma strip_fixed (s : string) :
  Str.head_space s = false -> Str.ends_space s = false -> Str.strip s = s.
Proof. intros Hh He. unfold Str.strip. now rewrite rstrip_fixed, lstrip_fixed. Qed.

Lemma strip_nonempty_rstrip (s : string) :
  Str.is_empty (Str.strip s) = false -> Str.rstrip s <> "".
Proof. unfold Str.strip. intros H E. now rewrite E in H. Qed.

Lemma letters_ends (n : string) :
  Str.forallb Char.is_letter n = true -> Str.ends_space n = false.
Proof.
  induction n as [|c n IH]; [reflexivity|]. cbn [Str.forallb Str.ends_space].
  intros H. apply andb_prop in H as [Hc Hn]. destruct n as [|d n].
  - now apply letter_not_space.
  - now apply IH.
Qed.

Lemma letters_head (n : string) :
  Str.forallb Char.is_letter n = true -> Str.head_space n = false.
Proof.
  destruct n as [|c n]; [reflexivity|]. cbn [Str.forallb Str.head_space].
  intros H. apply andb_prop in H as [Hc _]. now apply letter_not_space.
Qed.

Lemma nl_space : Str.forallb Char.isspace Str.nl = true.
Proof. reflexivity. Qed.

Lemma concat_app (l1 l2 : list string) :
  String.concat "" (l1 ++ l2) = String.concat "" l1 +:+ String.concat "" l2.
Proof.
  induction l1 as [|x l1 IH]; [reflexivity|].
  change ((x :: l1) ++ l2) with (x :: (l1 ++ l2)).
  now rewrite !concat_cons, IH, app_assoc_s.
Qed.

End MoreStringFacts.

Section DocumentFacts.
Import Parser Document.

Lemma active_settled (st : pstate) :
  settled st -> active (current_field st)
                = match current_field st with Some _ => true | None => false end.
Proof.
  unfold settled. destruct (current_field st) as [f|]; [|reflexivity].
  destruct f; [congruence | reflexivity].
Qed.

Lemma letters_not_indented (n : string) :
  name_ok n = true -> Str.startswith Str.tab n = false
                      /\ Str.startswith "    " n = false.
Proof.
  unfold name_ok. intros H. apply andb_prop in H as [Hne Hl].
  destruct n as [|c n]; [discriminate|]. cbn [Str.forallb] in Hl.
  apply andb_prop in Hl as [Hc _].
  unfold Str.startswith, Str.tab. cbn [String.prefix].
  split.
  - destruct (ascii_dec Char.TAB c) as [<-|]; [discriminate | reflexivity].
  - destruct (ascii_dec " " c) as [<-|]; [discriminate | reflexivity].
Qed.

Lemma header_of_name_only (n : string) :
  name_ok n = true -> header_of n = Some (n, "").
Proof.
  unfold name_ok. intros H. apply andb_prop in H as [Hne Hl].
  unfold header_of.
  destruct (takewhile_app_stop Char.is_letter n "" Hl I) as [Ht Hd].
  rewrite app_empty_r in Ht, Hd. rewrite Ht, Hd.
  destruct n; [discriminate | reflexivity].
Qed.

(** A header line closes the open field and opens the next one. *)
Lemma step_header (st : pstate) (n : string) :
  name_ok n = true -> settled st ->
  step st (n +:+ Str.nl) = PState (finish st) (Some n) [].
Proof.
  intros Hn Hst. pose proof Hn as Hn'. unfold name_ok in Hn'.
  apply andb_prop in Hn' as [Hne Hl].
  unfold step.
  rewrite (rstrip_app_spaces n Str.nl nl_space).
  rewrite (rstrip_fixed n (letters_ends n Hl)).
  rewrite (strip_fixed n (letters_head n Hl) (letters_ends n Hl)).
  destruct (Str.is_empty n) eqn:En; [discriminate|].
  destruct (letters_not_indented n Hn) as [-> ->]. cbn [negb andb].
  destruct (rmatch_cases n) as [[_ Hh] | (m & -> & Hh)];
    rewrite (header_of_name_only n Hn) in Hh; [discriminate|].
  injection Hh as <- <-.
  change (Str.strip "") with "". cbn [Str.is_empty negb andb].
  unfold finish. rewrite (active_settled st Hst). unfold settled in Hst.
  destruct (current_field st) as [f|] eqn:Ef.
  - cbn [artwork field_content]. reflexivity.
  - cbn [artwork field_content]. now rewrite Hst.
Qed.

Lemma indented_rstrip (l : string) :
  indented l = true -> Str.is_empty (Str.strip l) = false ->
  indented (Str.rstrip l) = true.
Proof.
  unfold indented, Str.startswith. intros Hi Hb.
  assert (Hkeep : forall p, Str.forallb Char.isspace p = true ->
                            String.prefix p l = true ->
                            String.prefix p (Str.rstrip l) = true).
  { intros p Hp Hpre. apply prefix_split in Hpre as [x ->].
    assert (Hx : Str.rstrip x <> "").
    { intros E. apply rstrip_empty in E.
      assert (Hall : Str.forallb Char.isspace (p +:+ x) = true)
        by now rewrite forallb_app, Hp, E.
      apply blank_spaces in Hall. unfold Price.blank in Hall.
      rewrite Hb, orb_false_r in Hall. destruct p; [|discriminate].
      rewrite app_nil_s in *. destruct x; [|discriminate].
      discriminate. }
    rewrite (rstrip_app_keep p x Hx). apply prefix_split. eauto. }
  apply orb_prop in Hi as [Hi | Hi].
  - now rewrite (Hkeep Str.tab eq_refl Hi).
  - now rewrite (Hkeep "    " eq_refl Hi), orb_true_r.
Qed.

(** A content line is added to the open field. *)
Lemma step_content (st : pstate) (l : string) :
  line_ok l = true -> active (current_field st) = true ->
  step st (l +:+ Str.nl)
  = PState (artwork st) (current_field st) (field_content st ++ [Str.strip l]).
Proof.
  unfold line_ok. intros H Hact.
  apply andb_prop in H as [H _]. apply andb_prop in H as [Hi Hb].
  apply negb_true_iff in Hb.
  unfold step.
  rewrite (rstrip_app_spaces l Str.nl nl_space), strip_rstrip, Hb.
  pose proof (indented_rstrip l Hi Hb) as Hi'.
  rewrite Hi', Hact. unfold indented in Hi'.
  destruct (Str.startswith Str.tab (Str.rstrip l));
    destruct (Str.startswith "    " (Str.rstrip l)); try discriminate; reflexivity.
Qed.

Lemma fold_content (ls : list string) (m : gmap string string) (n : string)
      (acc : list string) :
  n <> "" -> forallb line_ok ls = true ->
  fold_left step (List.map (fun l => l +:+ Str.nl) ls) (PState m (Some n) acc)
  = PState m (Some n) (acc ++ List.map Str.strip ls).
Proof.
  intros Hn. revert acc; induction ls as [|l ls IH]; intros acc Hls.
  - now rewrite app_nil_r.
  - cbn [forallb] in Hls. apply andb_prop in Hls as [Hl Hls].
    cbn [List.map fold_left]. rewrite step_content; [|exact Hl|].
    + cbn [artwork current_field field_content]. rewrite (IH _ Hls).
      now rewrite <- app_assoc.
    + cbn [current_field active]. destruct n; [congruence | reflexivity].
Qed.

Lemma strip_line_ok (l : string) :
  line_ok l = true ->
  Str.strip l <> "" /\ Str.forallb Char.not_LF (Str.strip l) = true.
Proof.
  unfold line_ok, one_line. intros H.
  apply andb_prop in H as [H Hone]. apply andb_prop in H as [_ Hb].
  apply negb_true_iff in Hb. split.
  - intros E. now rewrite E in Hb.
  - assert (Hnl : Str.forallb Char.not_LF l = true).
    { eapply forallb_impl; [|exact Hone]. intros c Hc. now apply andb_prop in Hc. }
    assert (Hr : Str.forallb Char.not_LF (Str.rstrip l) = true).
    { destruct (rstrip_split l) as (t & Hl & _). rewrite Hl, forallb_app in Hnl.
      now apply andb_prop in Hnl. }
    unfold Str.strip. clear - Hr. induction (Str.rstrip l) as [|c s IH]; [reflexivity|].
    cbn [Str.lstrip]. destruct (Char.isspace c); [|exact Hr].
    cbn [Str.forallb] in Hr. apply andb_prop in Hr as [_ Hr]. now apply IH.
Qed.

Lemma head_space_app (a b : string) :
  a <> "" -> Str.head_space (a +:+ b) = Str.head_space a.
Proof. destruct a; [congruence | reflexivity]. Qed.

Lemma ends_space_app (a b : string) :
  b <> "" -> Str.ends_space (a +:+ b) = Str.ends_space b.
Proof.
  intros Hb. induction a as [|c a IH]; [reflexivity|].
  rewrite app_cons_s. cbn [Str.ends_space]. rewrite IH.
  destruct (a +:+ b) eqn:E; [|reflexivity].
  destruct a; [rewrite app_nil_s in E; congruence | discriminate].
Qed.

Lemma join_cons (sep x : string) (y : string) (ys : list string) :
  Str.join sep (x :: y :: ys) = x +:+ sep +:+ Str.join sep (y :: ys).
Proof. reflexivity. Qed.

Lemma join_trimmed (xs : list string) :
  xs <> [] -> Forall trimmed xs -> trimmed (Str.join Str.nl xs).
Proof.
  induction xs as [|x xs IH]; [congruence|]. intros _ Hall.
  inversion Hall as [|? ? Hx Hxs]; subst.
  destruct xs as [|y ys]; [exact Hx|].
  rewrite join_cons. destruct Hx as (Hne & Hh & He).
  assert (Hyne : y :: ys <> []) by discriminate.
  destruct (IH Hyne Hxs) as (Hne' & Hh' & He').
  split; [destruct x; [congruence | discriminate]|].
  split.
  - now rewrite head_space_app.
  - rewrite ends_space_app.
    + now rewrite ends_space_app.
    + discriminate.
Qed.

Lemma strip_trimmed (l : string) :
  Str.is_empty (Str.strip l) = false -> trimmed (Str.strip l).
Proof.
  intros H. split; [intros E; now rewrite E in H|].
  split; [apply strip_head | apply strip_ends].
Qed.

(** The joined content has no white space at either end: the final
    [strip] of the parser leaves it as it is. *)
Lemma join_stripped (ls : list string) :
  forallb line_ok ls = true ->
  Str.strip (Str.join Str.nl (List.map Str.strip ls))
  = Str.join Str.nl (List.map Str.strip ls).
Proof.
  intros Hls. destruct ls as [|l ls]; [reflexivity|].
  assert (Hall : Forall trimmed (List.map Str.strip (l :: ls))).
  { apply List.Forall_forall. intros x Hx. apply in_map_iff in Hx as (y & <- & Hy).
    rewrite forallb_forall in Hls. specialize (Hls y Hy).
    unfold line_ok in Hls. apply andb_prop in Hls as [Hls _].
    apply andb_prop in Hls as [_ Hb]. apply negb_true_iff in Hb.
    now apply strip_trimmed. }
  assert (Hne : List.map Str.strip (l :: ls) <> []) by discriminate.
  destruct (join_trimmed _ Hne Hall) as (_ & Hh & He).
  now apply strip_fixed.
Qed.

Lemma finish_open (m : gmap string string) (n : string) (acc : list string) :
  n <> "" ->
  finish (PState m (Some n) acc)
  = <[Str.lower n := Str.strip (Str.join Str.nl acc)]> m.
Proof. intros Hn. unfold finish, store. cbn. destruct n; [congruence | reflexivity]. Qed.

Lemma name_ok_nonempty (n : string) : name_ok n = true -> n <> "".
Proof. unfold name_ok. destruct n; [discriminate | discriminate]. Qed.

(** The fields of a well-formed description, read from a settled
    state, are stored one after the other. *)
Lemma fold_fields (doc : list field) (st : pstate) :
  well_formed doc = true -> settled st ->
  finish (fold_left step (lines_of doc) st)
  = fold_left (fun m f => <[Str.lower (f_name f) := value f]> m) doc (finish st).
Proof.
  revert st; induction doc as [|f doc IH]; intros st Hdoc Hst; [reflexivity|].
  cbn [well_formed forallb] in Hdoc. apply andb_prop in Hdoc as [Hf Hdoc].
  unfold field_ok in Hf. apply andb_prop in Hf as [Hn Hls].
  pose proof (name_ok_nonempty _ Hn) as Hne.
  unfold lines_of. cbn [flat_map]. fold (lines_of doc).
  unfold lines_of_field. rewrite <- app_comm_cons.
  cbn [fold_left]. rewrite fold_left_app.
  rewrite (step_header st _ Hn Hst), (fold_content _ _ _ _ Hne Hls).
  rewrite IH; [|exact Hdoc | exact Hne].
  cbn [fold_left]. rewrite (finish_open _ _ _ Hne). cbn [app].
  unfold value. now rewrite (join_stripped _ Hls).
Qed.

(** *** Lines of a rendered text *)

Lemma one_line_not_LF (l : string) :
  one_line l = true -> Str.forallb Char.not_LF l = true.
Proof.
  apply forallb_impl. intros c Hc. now apply andb_prop in Hc.
Qed.

Lemma one_line_no_CR (l : string) :
  one_line l = true -> Lines.no_CR (l +:+ Str.nl) = true.
Proof.
  intros H. unfold Lines.no_CR. rewrite forallb_app, andb_true_iff. split.
  - eapply forallb_impl; [|exact H]. intros c Hc. now apply andb_prop in Hc.
  - reflexivity.
Qed.

Lemma letters_one_line (n : string) :
  Str.forallb Char.is_letter n = true -> one_line n = true.
Proof.
  apply forallb_impl. intros c Hc.
  destruct c as [[] [] [] [] [] [] [] []]; vm_compute in Hc |- *; congruence.
Qed.

(** A text made of whole lines is read back line by line, whatever
    follows. *)
Lemma iter_lines_whole (ls : list string) (rest : string) :
  forallb one_line ls = true ->
  Str.iter_lines (String.concat "" (List.map (fun l => l +:+ Str.nl) ls) +:+ rest)
  = List.map (fun l => l +:+ Str.nl) ls ++ Str.iter_lines rest.
Proof.
  induction ls as [|l ls IH]; intros H; [reflexivity|].
  cbn [forallb] in H. apply andb_prop in H as [Hl Hls].
  cbn [List.map]. rewrite concat_cons, !app_assoc_s.
  rewrite (iter_lines_complete l _ (one_line_not_LF l Hl)).
  now rewrite (IH Hls).
Qed.

Lemma universal_newlines_whole (ls : list string) (rest : string) :
  forallb one_line ls = true ->
  Str.universal_newlines
    (String.concat "" (List.map (fun l => l +:+ Str.nl) ls) +:+ rest)
  = String.concat "" (List.map (fun l => l +:+ Str.nl) ls)
    +:+ Str.universal_newlines rest.
Proof.
  intros H.
  assert (Hcr : Lines.no_CR (String.concat "" (List.map (fun l => l +:+ Str.nl) ls)) = true).
  { apply concat_no_CR, List.Forall_forall. intros x Hx.
    apply in_map_iff in Hx as (l & <- & Hl).
    rewrite forallb_forall in H. now apply one_line_no_CR, H. }
  revert Hcr. generalize (String.concat "" (List.map (fun l => l +:+ Str.nl) ls)).
  intros a. unfold Lines.no_CR. induction a as [|c a IH]; [reflexivity|].
  cbn [Str.forallb]. intros Ha. apply andb_prop in Ha as [Hc Ha].
  apply negb_true_iff in Hc. rewrite !app_cons_s. cbn [Str.universal_newlines].
  now rewrite Hc, (IH Ha).
Qed.

Lemma lines_of_raw (doc : list field) :
  lines_of doc = List.map (fun l => l +:+ Str.nl) (raw_lines doc).
Proof.
  induction doc as [|f doc IH]; [reflexivity|].
  unfold lines_of, raw_lines in *. cbn [flat_map]. rewrite List.map_app, <- IH.
  reflexivity.
Qed.

Lemma raw_lines_one_line (doc : list field) :
  well_formed doc = true -> forallb one_line (raw_lines doc) = true.
Proof.
  induction doc as [|f doc IH]; [reflexivity|]. intros H.
  cbn [well_formed forallb] in H. apply andb_prop in H as [Hf Hdoc].
  unfold field_ok, name_ok in Hf. apply andb_prop in Hf as [Hn Hls].
  apply andb_prop in Hn as [_ Hn].
  unfold raw_lines. cbn [flat_map]. rewrite List.forallb_app. fold (raw_lines doc).
  rewrite (IH Hdoc), andb_true_r. cbn [forallb].
  rewrite (letters_one_line _ Hn). cbn [andb].
  apply forallb_forall. intros l Hl. rewrite forallb_forall in Hls.
  specialize (Hls l Hl). unfold line_ok in Hls. now apply andb_prop in Hls as [_ ->].
Qed.

Lemma parse_prefix (pre : list string) (rest : string) :
  forallb one_line pre = true ->
  Str.iter_lines (Str.universal_newlines
     (String.concat "" (List.map (fun l => l +:+ Str.nl) pre) +:+ rest))
  = List.map (fun l => l +:+ Str.nl) pre
    ++ Str.iter_lines (Str.universal_newlines rest).
Proof.
  intros H. now rewrite universal_newlines_whole, iter_lines_whole.
Qed.

End DocumentFacts.

Section PreambleFacts.
Import Parser Document.

Lemma prefix_app_nl (p l : string) :
  Str.forallb Char.not_LF p = true ->
  String.prefix p (l +:+ Str.nl) = String.prefix p l.
Proof.
  revert l; induction p as [|x p IH]; intros l Hp.
  - now destruct l.
  - cbn [Str.forallb] in Hp. apply andb_prop in Hp as [Hx Hp].
    destruct l as [|c l].
    + rewrite app_nil_s. unfold Str.nl. cbn [String.prefix].
      destruct (ascii_dec x Char.LF) as [->|]; [discriminate | reflexivity].
    + rewrite app_cons_s. cbn [String.prefix].
      destruct (ascii_dec x c); [now apply IH | reflexivity].
Qed.

Lemma indented_app_nl (l : string) : indented (l +:+ Str.nl) = indented l.
Proof.
  unfold indented, Str.startswith. now rewrite !prefix_app_nl.
Qed.

Lemma lstrip_app_keep (x t : string) :
  Str.lstrip x <> "" -> Str.lstrip (x +:+ t) = Str.lstrip x +:+ t.
Proof.
  induction x as [|c x IH]; [cbn; congruence|]. intros H.
  rewrite app_cons_s. cbn [Str.lstrip] in *.
  destruct (Char.isspace c); [now apply IH | reflexivity].
Qed.

Lemma takewhile_app_stop_l (p : ascii -> bool) (x t : string) :
  match t with String c _ => p c = false | "" => True end ->
  Str.takewhile p (x +:+ t) = Str.takewhile p x.
Proof.
  intros Ht. induction x as [|c x IH].
  - rewrite app_nil_s. destruct t as [|d t]; [reflexivity|]. cbn. now rewrite Ht.
  - rewrite app_cons_s. cbn [Str.takewhile]. now rewrite IH.
Qed.

Lemma first_token_app_nl (l : string) :
  Str.is_empty (Str.strip l) = false ->
  first_token (l +:+ Str.nl) = first_token l.
Proof.
  intros Hb. unfold first_token.
  assert (Hl : Str.lstrip l <> "").
  { intros E. apply lstrip_empty in E. apply blank_spaces in E.
    unfold Price.blank in E. rewrite Hb, orb_false_r in E.
    destruct l; discriminate. }
  rewrite (lstrip_app_keep _ _ Hl). now apply takewhile_app_stop_l.
Qed.

Lemma ignorable_app_nl (l : string) : ignorable (l +:+ Str.nl) = ignorable l.
Proof.
  unfold ignorable. rewrite (strip_app_spaces l Str.nl nl_space), indented_app_nl.
  destruct (Str.is_empty (Str.strip l)) eqn:Hb; [reflexivity|].
  now rewrite (first_token_app_nl l Hb).
Qed.

(** While no field is open, a line that is no header changes
    nothing. *)
Lemma step_skipped (st : pstate) (l : string) :
  skipped l = true -> current_field st = None -> step st (l +:+ Str.nl) = st.
Proof.
  unfold skipped. intros H Hcur.
  destruct (ignorable l) eqn:Hig.
  { apply step_ignorable. now rewrite ignorable_app_nl. }
  rewrite orb_false_r in H. unfold step.
  rewrite (rstrip_app_spaces l Str.nl nl_space), strip_rstrip.
  destruct (Str.is_empty (Str.strip l)) eqn:Hb; [reflexivity|].
  cbn [orb] in H. pose proof (indented_rstrip l H Hb) as Hi.
  rewrite Hi, Hcur. cbn [active andb]. unfold indented in Hi.
  destruct (Str.startswith Str.tab (Str.rstrip l));
    destruct (Str.startswith "    " (Str.rstrip l)); try discriminate; reflexivity.
Qed.

Lemma fold_skipped (pre : list string) (st : pstate) :
  forallb skipped pre = true -> current_field st = None ->
  fold_left step (List.map (fun l => l +:+ Str.nl) pre) st = st.
Proof.
  induction pre as [|l pre IH]; intros H Hcur; [reflexivity|].
  cbn [forallb] in H. apply andb_prop in H as [Hl Hpre].
  cbn [List.map fold_left]. rewrite (step_skipped st l Hl Hcur). now apply IH.
Qed.

Lemma preamble_split (pre : list string) :
  preamble_ok pre = true ->
  forallb one_line pre = true /\ forallb skipped pre = true.
Proof.
  unfold preamble_ok. induction pre as [|l pre IH]; [auto|].
  cbn [forallb]. intros H. apply andb_prop in H as [Hl Hpre].
  apply andb_prop in Hl as [-> ->]. destruct (IH Hpre) as [-> ->]. auto.
Qed.

Lemma lookup_fold_other (doc : list field) (m : gmap string string) (k : string) :
  (forall f, In f doc -> Str.lower (f_name f) <> k) ->
  fold_left (fun m f => <[Str.lower (f_name f) := value f]> m) doc m !! k = m !! k.
Proof.
  revert m; induction doc as [|f doc IH]; intros m H; [reflexivity|].
  cbn [fold_left]. rewrite IH by (intros g Hg; apply H; now right).
  apply lookup_insert_ne. apply H. now left.
Qed.

Lemma lstrip_app_spaces (a x : string) :
  Str.forallb Char.isspace a = true -> Str.lstrip (a +:+ x) = Str.lstrip x.
Proof.
  induction a as [|c a IH]; [reflexivity|]. cbn [Str.forallb].
  intros H. apply andb_prop in H as [Hc Ha].
  rewrite app_cons_s. cbn [Str.lstrip]. rewrite Hc. now apply IH.
Qed.

(** The indentation of a content line and what follows it. *)
Lemma line_ok_split (l : string) :
  line_ok l = true ->
  Str.takewhile Char.is_blank l <> ""
  /\ Str.dropwhile Char.is_blank l <> ""
  /\ Str.forallb Char.not_LF (Str.dropwhile Char.is_blank l) = true
  /\ Str.strip (Str.dropwhile Char.is_blank l) = Str.strip l.
Proof.
  intros H. pose proof H as H'. unfold line_ok in H'.
  apply andb_prop in H' as [H' Hone]. apply andb_prop in H' as [Hi Hb].
  apply negb_true_iff in Hb.
  assert (Hind : Str.forallb Char.isspace (Str.takewhile Char.is_blank l) = true).
  { eapply forallb_impl; [exact blank_is_space | apply takewhile_all]. }
  assert (Hbody : Str.dropwhile Char.is_blank l <> "").
  { intros E. pose proof (span_app Char.is_blank l) as Hl.
    rewrite E, app_empty_r in Hl. rewrite Hl in Hind.
    apply blank_spaces in Hind. unfold Price.blank in Hind.
    rewrite Hb, orb_false_r in Hind. destruct l; discriminate. }
  split; [|split; [exact Hbody | split]].
  - unfold indented, Str.startswith in Hi.
    destruct l as [|c l]; [discriminate|]. cbn [Str.takewhile].
    apply orb_prop in Hi as [Hi | Hi]; cbn [String.prefix Str.tab] in Hi.
    + destruct (ascii_dec Char.TAB c) as [<-|]; [discriminate | discriminate].
    + destruct (ascii_dec " " c) as [<-|]; [discriminate | discriminate].
  - pose proof (one_line_not_LF l Hone) as Hnl.
    rewrite <- (span_app Char.is_blank l), forallb_app in Hnl.
    now apply andb_prop in Hnl.
  - rewrite <- (span_app Char.is_blank l) at 2. unfold Str.strip.
    assert (Hr : Str.rstrip (Str.dropwhile Char.is_blank l) <> "").
    { intros E. apply rstrip_empty in E.
      assert (Hall : Str.forallb Char.isspace l = true).
      { rewrite <- (span_app Char.is_blank l), forallb_app. now rewrite Hind, E. }
      apply blank_spaces in Hall. unfold Price.blank in Hall.
      rewrite Hb, orb_false_r in Hall. destruct l; discriminate. }
    rewrite (rstrip_app_keep _ _ Hr). now rewrite lstrip_app_spaces.
Qed.

(** The parse of a rendered description. *)
Lemma parse_render (doc : list field) :
  well_formed doc = true -> parse_artwork_file (render doc) = to_map doc.
Proof.
  intros Hdoc. unfold parse_artwork_file, parse_lines, render.
  rewrite lines_of_raw.
  rewrite <- (app_empty_r (String.concat "" _)).
  rewrite parse_prefix by now apply raw_lines_one_line.
  cbn [Str.universal_newlines Str.iter_lines]. rewrite app_nil_r, <- lines_of_raw.
  rewrite fold_fields; [reflexivity | exact Hdoc | reflexivity].
Qed.

End PreambleFacts.

(** X1: a description in the template's layout is read back field by
    field.  For every list of fields, each with a name made of letters
    and with content lines that are indented, not blank and free of line
    breaks, the parser applied to the rendered text returns exactly the
    mapping from each lower-cased name to the trimmed content lines
    joined by newlines, a later field replacing an earlier one that has
    the same name up to case. *)
Theorem parse_render_round_trip (doc : list Document.field) :
  Document.well_formed doc = true ->
  Parser.parse_artwork_file (Document.render doc) = Document.to_map doc.
Proof. exact (parse_render doc). Qed.

Lemma parse_render_round_trip_witness :
  Parser.parse_artwork_file
    (Document.render
       [Document.Field "Title" [String Char.TAB "Foo Bar"];
        Document.Field "Medium" ["    Oil "; String Char.TAB "on canvas"]])
  = Document.to_map
      [Document.Field "Title" [String Char.TAB "Foo Bar"];
       Document.Field "Medium" ["    Oil "; String Char.TAB "on canvas"]].
Proof.
  apply (parse_render_round_trip
           [Document.Field "Title" [String Char.TAB "Foo Bar"];
            Document.Field "Medium" ["    Oil "; String Char.TAB "on canvas"]]).
  reflexivity.
Defined.

(** X2: what stands before the first header line is discarded.  Lines
    that are blank, indented, or start with a token that is not made of
    letters only, put in front of any text, do not change what the
    parser returns for it. *)
Theorem preamble_is_dropped (pre : list string) (text : string) :
  Document.preamble_ok pre = true ->
  Parser.parse_artwork_file (Document.render_lines pre +:+ text)
  = Parser.parse_artwork_file text.
Proof.
  intros H. destruct (preamble_split pre H) as [Hone Hskip].
  unfold Parser.parse_artwork_file, Parser.parse_lines, Document.render_lines.
  rewrite (parse_prefix pre text Hone), fold_left_app.
  now rewrite (fold_skipped pre Parser.init Hskip).
Qed.

Lemma preamble_is_dropped_witness :
  Parser.parse_artwork_file
    (Document.render_lines [String Char.TAB "stray"; ""; "# note"] +:+ sample_text)
  = Parser.parse_artwork_file sample_text.
Proof.
  apply (preamble_is_dropped [String Char.TAB "stray"; ""; "# note"] sample_text).
  reflexivity.
Defined.

(** The validator's title on a description that starts with the
    "Title" field. *)
Lemma find_title_first_field (l : string) (ls : list string) (rest : list Document.field) :
  Document.well_formed (Document.Field "Title" (l :: ls) :: rest) = true ->
  Str.head_space (Str.dropwhile Char.is_blank l) = false ->
  Validator.find_title (Document.render (Document.Field "Title" (l :: ls) :: rest))
  = Some (Str.strip l).
Proof.
  intros Hdoc Hhead.
  cbn [Document.well_formed forallb] in Hdoc. apply andb_prop in Hdoc as [Hf _].
  unfold Document.field_ok in Hf. cbn [Document.f_name Document.f_lines forallb] in Hf.
  apply andb_prop in Hf as [_ Hl]. apply andb_prop in Hl as [Hl _].
  destruct (line_ok_split l Hl) as (Hind & Hbody & Hnl & Hstrip).
  unfold Document.render, Document.lines_of. cbn [flat_map].
  unfold Document.lines_of_field at 1. cbn [Document.f_name Document.f_lines List.map].
  rewrite <- !app_comm_cons, !concat_cons.
  set (tail := String.concat "" (_ ++ _)).
  set (ind := Str.takewhile Char.is_blank l) in *.
  set (body := Str.dropwhile Char.is_blank l) in *.
  assert (Hsite : Validator.title_site
                    ("Title" +:+ Str.nl +:+ (l +:+ Str.nl) +:+ tail)
                    "" "" ind body (Str.nl +:+ tail)).
  { unfold Validator.title_site. split.
    - rewrite !app_nil_s. rewrite <- (span_app Char.is_blank l) at 1.
      fold ind body. now rewrite !app_assoc_s.
    - split; [reflexivity|]. split; [exact Hind|].
      split; [apply takewhile_all|]. split; [exact Hbody|].
      split; [exact Hnl|]. right. now exists tail. }
  destruct (title_site_match _ _ _ _ _ 0 Hsite Hhead) as (m & Hm & Hg).
  unfold Validator.find_title, Re.search.
  change (("Title" +:+ Str.nl) +:+ (l +:+ Str.nl) +:+ tail)
    with ("Title" +:+ Str.nl +:+ (l +:+ Str.nl) +:+ tail).
  assert (Hs : forall s, Re.search_from Validator.title_re 0 s
                         = match Re.bt Validator.title_re (Re.MState 0 s []) Some with
                           | Some m => Some m
                           | None => match s with
                                     | String _ s' =>
                                         Re.search_from Validator.title_re 1 s'
                                     | "" => None
                                     end
                           end) by (intros s; now destruct s).
  rewrite Hs, Hm, Hg, Hstrip.
  destruct (Str.is_empty (Str.strip l)) eqn:E; [|reflexivity].
  unfold Document.line_ok in Hl. apply andb_prop in Hl as [Hl _].
  apply andb_prop in Hl as [_ Hl]. now rewrite E in Hl.
Qed.

(** X3: the validator and the parser read the same title off a
    description in the template's layout.  When the file starts with the
    header "Title" and the first content line has text right after its
    indentation, the validator's title is that line, trimmed, and the
    parser's "title" holds all the content lines of the field, trimmed
    and joined: the two are equal exactly when the title has one line. *)
Theorem validator_title_is_first_line_of_parsed_title
        (l : string) (ls : list string) (rest : list Document.field) :
  Document.well_formed (Document.Field "Title" (l :: ls) :: rest) = true ->
  Str.head_space (Str.dropwhile Char.is_blank l) = false ->
  (forall f, In f rest -> Str.lower (Document.f_name f) <> "title") ->
  Validator.find_title (Document.render (Document.Field "Title" (l :: ls) :: rest))
  = Some (Str.strip l)
  /\ Parser.parse_artwork_file
       (Document.render (Document.Field "Title" (l :: ls) :: rest)) !! "title"
     = Some (Str.join Str.nl (List.map Str.strip (l :: ls))).
Proof.
  intros Hdoc Hhead Hrest. split.
  - exact (find_title_first_field l ls rest Hdoc Hhead).
  - rewrite (parse_render _ Hdoc).
    unfold Document.to_map. cbn [fold_left Document.f_name].
    rewrite (lookup_fold_other rest _ "title" Hrest).
    change (Str.lower "Title") with "title". apply lookup_insert_eq.
Qed.

Lemma validator_title_is_first_line_of_parsed_title_witness :
  Validator.find_title
    (Document.render [Document.Field "Title" [String Char.TAB "Foo"; "    Bar"];
                      Document.Field "Medium" [String Char.TAB "Oil"]])
  = Some (Str.strip (String Char.TAB "Foo"))
  /\ Parser.parse_artwork_file
       (Document.render [Document.Field "Title" [String Char.TAB "Foo"; "    Bar"];
                         Document.Field "Medium" [String Char.TAB "Oil"]]) !! "title"
     = Some (Str.join Str.nl (List.map Str.strip [String Char.TAB "Foo"; "    Bar"])).
Proof.
  apply (validator_title_is_first_line_of_parsed_title
           (String Char.TAB "Foo") ["    Bar"]
           [Document.Field "Medium" [String Char.TAB "Oil"]]).
  - reflexivity.
  - reflexivity.
  - intros f [<- | []]. vm_compute. discriminate.
Defined.

(** ** More on prices *)

Section NumberText.
Import NumStr.

Import PriceText.

Lemma forallb_map (p : ascii -> bool) (f : ascii -> ascii) (s : string) :
  Str.forallb p (Str.map f s) = Str.forallb (fun c => p (f c)) s.
Proof.
  induction s as [|c s IH]; [reflexivity|]. cbn [Str.map Str.forallb]. now rewrite IH.
Qed.

Lemma forallb_filter_keep (p q : ascii -> bool) (s : string) :
  (forall c, q c = false -> p c = true) ->
  Str.forallb p (Str.filter q s) = Str.forallb p s.
Proof.
  intros H. induction s as [|c s IH]; [reflexivity|].
  cbn [Str.filter Str.forallb]. destruct (q c) eqn:E.
  - cbn [Str.forallb]. now rewrite IH.
  - now rewrite (H c E), IH.
Qed.

Lemma lstrip_split (s : string) :
  exists a, s = a +:+ Str.lstrip s /\ Str.forallb Char.isspace a = true.
Proof.
  induction s as [|c s (a & Hs & Ha)]; [now exists ""|].
  cbn [Str.lstrip]. destruct (Char.isspace c) eqn:E.
  - exists (String c a). rewrite app_cons_s, <- Hs. cbn [Str.forallb].
    now rewrite E, Ha.
  - now exists "".
Qed.

Lemma forallb_strip (p : ascii -> bool) (s : string) :
  (forall c, Char.isspace c = true -> p c = true) ->
  Str.forallb p (Str.strip s) = Str.forallb p s.
Proof.
  intros H. unfold Str.strip.
  destruct (rstrip_split s) as (t & Hs & Ht).
  destruct (lstrip_split (Str.rstrip s)) as (a & Hr & Ha).
  rewrite Hs at 2. rewrite Hr at 2. rewrite !forallb_app.
  rewrite (forallb_impl _ _ _ H Ht), (forallb_impl _ _ _ H Ha).
  now rewrite andb_true_r.
Qed.

Lemma dropwhile_split (p : ascii -> bool) (s : string) :
  s = Str.takewhile p s +:+ Str.dropwhile p s.
Proof. symmetry. apply span_app. Qed.

Lemma rstrip_by_split (p : ascii -> bool) (s : string) :
  exists t, s = rstrip_by p s +:+ t /\ Str.forallb p t = true.
Proof.
  induction s as [|c s (t & Hs & Ht)]; [now exists ""|].
  cbn [rstrip_by]. destruct (rstrip_by p s) as [|c' r] eqn:E.
  - rewrite app_nil_s in Hs. destruct (p c) eqn:Ec.
    + exists (String c s). split; [reflexivity|]. cbn [Str.forallb].
      now rewrite Ec, Hs.
    + exists t. rewrite app_cons_s, app_nil_s. split; [congruence | exact Ht].
  - exists t. rewrite app_cons_s. split; [congruence | exact Ht].
Qed.

Lemma space_no_l (c : ascii) : Char.isspace c = true -> no_l c = true.
Proof. destruct c as [[] [] [] [] [] [] [] []]; vm_compute; congruence. Qed.

Lemma float_space_no_l (c : ascii) : float_space c = true -> no_l c = true.
Proof. destruct c as [[] [] [] [] [] [] [] []]; vm_compute; congruence. Qed.

Lemma digit_no_l (c : ascii) : Char.is_digit c = true -> no_l c = true.
Proof. destruct c as [[] [] [] [] [] [] [] []]; vm_compute; congruence. Qed.

Lemma split_sign_no_l (s : string) :
  Str.forallb no_l (snd (split_sign s)) = Str.forallb no_l s.
Proof.
  destruct s as [|c s]; [reflexivity|]. cbn [split_sign].
  destruct (Char.eqc "-" c) eqn:E1.
  { apply eqc_eq in E1 as <-. reflexivity. }
  destruct (Char.eqc "+" c) eqn:E2; [|reflexivity].
  apply eqc_eq in E2 as <-. reflexivity.
Qed.

Lemma digits_no_l (s : string) :
  Str.forallb Char.is_digit s = true -> Str.forallb no_l s = true.
Proof. apply forallb_impl, digit_no_l. Qed.

Lemma dropwhile_empty (p : ascii -> bool) (s : string) :
  Str.dropwhile p s = "" -> Str.forallb p s = true.
Proof.
  induction s as [|c s IH]; [reflexivity|]. cbn [Str.dropwhile Str.forallb].
  destruct (p c); [exact IH | discriminate].
Qed.

Lemma split_exponent_no_l (s : string) (ex : Z) :
  split_exponent s = (ex, "") -> Str.forallb no_l s = true.
Proof.
  destruct s as [|c s]; [reflexivity|]. cbn [split_exponent].
  destruct (Char.eqc "e" c || Char.eqc "E" c) eqn:Ec; [|discriminate].
  destruct (split_sign s) as [eneg r'] eqn:Es.
  destruct (Str.is_empty (Str.takewhile Char.is_digit r')); [discriminate|].
  intros [= _ Hd]. apply dropwhile_empty in Hd.
  cbn [Str.forallb]. rewrite <- split_sign_no_l, Es. cbn [snd].
  rewrite (digits_no_l _ Hd), andb_true_r.
  apply orb_prop in Ec as [Ec | Ec]; apply eqc_eq in Ec as <-; reflexivity.
Qed.

Lemma eqb_lower_no_l (s w : string) :
  String.eqb (Str.lower s) w = true -> Str.forallb no_l s = Str.forallb (fun c => negb (Char.eqc "l" c)) w.
Proof.
  intros H. apply String.eqb_eq in H as <-. unfold Str.lower.
  now rewrite forallb_map.
Qed.

(** A text that [float] accepts holds no letter "l". *)
Lemma parse_number_no_l (v : string) (f : Float.float) :
  parse_number v = Some f -> Str.forallb no_l v = true.
Proof.
  unfold parse_number. rewrite <- split_sign_no_l.
  destruct (split_sign v) as [sneg s1]. cbn [snd].
  destruct (String.eqb (Str.lower s1) "inf") eqn:E1.
  { intros _. now rewrite (eqb_lower_no_l _ _ E1). }
  destruct (String.eqb (Str.lower s1) "infinity") eqn:E2.
  { intros _. now rewrite (eqb_lower_no_l _ _ E2). }
  cbn [orb].
  destruct (String.eqb (Str.lower s1) "nan") eqn:E3.
  { intros _. now rewrite (eqb_lower_no_l _ _ E3). }
  assert (Hs1 : Str.forallb no_l s1
                = Str.forallb no_l (Str.dropwhile Char.is_digit s1)).
  { rewrite (dropwhile_split Char.is_digit s1) at 1.
    now rewrite forallb_app, (digits_no_l _ (takewhile_all _ _)). }
  rewrite Hs1. clear Hs1.
  destruct (Str.dropwhile Char.is_digit s1) as [|c r] eqn:Er.
  - destruct (_ && _); [discriminate|]. reflexivity.
  - destruct (Char.eqc "." c) eqn:Ec.
    + apply eqc_eq in Ec as <-.
      destruct (_ && _); [discriminate|].
      destruct (split_exponent (Str.dropwhile Char.is_digit r)) as [ex r3] eqn:Ee.
      destruct r3; [|discriminate]. intros _.
      cbn [Str.forallb]. rewrite (dropwhile_split Char.is_digit r), forallb_app.
      rewrite (digits_no_l _ (takewhile_all _ _)).
      now rewrite (split_exponent_no_l _ _ Ee).
    + destruct (_ && _); [discriminate|].
      destruct (split_exponent (String c r)) as [ex r3] eqn:Ee.
      destruct r3; [|discriminate]. intros _.
      now apply (split_exponent_no_l _ _ Ee).
Qed.

Lemma float_of_string_no_l (t : string) (f : Float.float) :
  float_of_string t = Ok f -> Str.forallb no_l t = true.
Proof.
  unfold float_of_string.
  destruct (underscores_ok _ _); [|discriminate].
  destruct (parse_number _) as [g|] eqn:E; [|discriminate]. intros _.
  apply parse_number_no_l in E. unfold Str.remove in E.
  rewrite forallb_filter_keep in E.
  2:{ intros c Hc. apply negb_false_iff in Hc. apply eqc_eq in Hc as <-. reflexivity. }
  destruct (rstrip_by_split float_space (Str.dropwhile float_space t)) as (b & Hb & Hbs).
  rewrite (dropwhile_split float_space t), forallb_app.
  rewrite (forallb_impl _ _ _ float_space_no_l (takewhile_all _ _)). cbn [andb].
  rewrite Hb, forallb_app, E.
  now rewrite (forallb_impl _ _ _ float_space_no_l Hbs).
Qed.

End NumberText.

Section SoldFacts.
Import Price PriceText.

Lemma contains_l (sub s : string) :
  Str.forallb (fun c => negb (Char.eqc "l" c)) sub = false ->
  Str.contains sub (Str.lower s) = true -> Str.forallb no_l s = false.
Proof.
  intros Hsub H. apply contains_split in H as (a & b & H).
  assert (E : Str.forallb no_l s
              = Str.forallb (fun c => negb (Char.eqc "l" c)) (Str.lower s)).
  { unfold Str.lower. now rewrite forallb_map. }
  rewrite E, H, !forallb_app, Hsub. now rewrite andb_false_r.
Qed.

(** The price text once "$" and "," are dropped and the ends are
    trimmed. *)
Lemma cleaned_no_l (s : string) :
  Str.forallb no_l (Str.strip (Str.remove "," (Str.remove "$" s)))
  = Str.forallb no_l s.
Proof.
  rewrite (forallb_strip _ _ space_no_l). unfold Str.remove.
  rewrite !forallb_filter_keep; [reflexivity| |];
    intros c Hc; apply negb_false_iff in Hc; apply eqc_eq in Hc as <-; reflexivity.
Qed.

(** A text with the letter "l" has price zero. *)
Lemma parse_price_with_l (s : string) :
  Str.forallb no_l s = false -> parse_price s = Ok (Float.Fin 0).
Proof.
  intros H. unfold parse_price. destruct (blank s); [reflexivity|].
  destruct (existsb _ _); [reflexivity|].
  destruct (NumStr.float_of_string _) as [f|e] eqn:E.
  - apply float_of_string_no_l in E. rewrite cleaned_no_l in E. congruence.
  - apply float_of_string_error in E as ->. reflexivity.
Qed.

Lemma for_sale_is_positive_price (s : string) :
  exists p, parse_price s = Ok p
            /\ determine_for_sale s = Ok (Float.lt (Float.Fin 0) p).
Proof.
  unfold determine_for_sale. destruct (blank s) eqn:Hb.
  { exists (Float.Fin 0). unfold parse_price. now rewrite Hb. }
  destruct (Str.contains "sold" (Str.lower s)) eqn:H1.
  { exists (Float.Fin 0). split; [|reflexivity].
    apply parse_price_with_l. now apply (contains_l "sold"). }
  destruct (Str.contains "not for sale" (Str.lower s)) eqn:H2.
  { exists (Float.Fin 0). split; [|reflexivity].
    apply parse_price_with_l. now apply (contains_l "not for sale"). }
  destruct (parse_price_total s) as [p Hp]. exists p. now rewrite Hp.
Qed.

End SoldFacts.

(** X4: a piece is for sale exactly when its price is positive.  For
    every price text [parse_price] returns a number and
    [determine_for_sale] returns whether that number is above zero: the
    tests for "sold" and "not for sale" never change the answer, because
    a text that holds one of them has price 0.0. *)
Theorem for_sale_iff_positive_price (s : string) :
  exists p, Price.parse_price s = Ok p
            /\ Price.determine_for_sale s = Ok (Float.lt (Float.Fin 0) p).
Proof. exact (for_sale_is_positive_price s). Qed.

Section DigitPrices.
Import NumStr Price.

Lemma filter_all (q : ascii -> bool) (s : string) :
  Str.forallb q s = true -> Str.filter q s = s.
Proof.
  induction s as [|c s IH]; [reflexivity|]. cbn [Str.forallb Str.filter].
  intros H. apply andb_prop in H as [-> Hs]. now rewrite (IH Hs).
Qed.

Lemma rstrip_by_fixed (p : ascii -> bool) (s : string) :
  Str.forallb (fun c => negb (p c)) s = true -> rstrip_by p s = s.
Proof.
  induction s as [|c s IH]; [reflexivity|]. cbn [Str.forallb rstrip_by].
  intros H. apply andb_prop in H as [Hc Hs]. rewrite (IH Hs).
  apply negb_true_iff in Hc. rewrite Hc. now destruct s.
Qed.

Lemma dropwhile_fixed (p : ascii -> bool) (s : string) :
  Str.forallb (fun c => negb (p c)) s = true -> Str.dropwhile p s = s.
Proof.
  destruct s as [|c s]; [reflexivity|]. cbn [Str.forallb Str.dropwhile].
  intros H. apply andb_prop in H as [Hc _]. apply negb_true_iff in Hc. now rewrite Hc.
Qed.

(** What a digit is not. *)
Lemma digit_plain (c : ascii) :
  Char.is_digit c = true ->
  float_space c = false /\ Char.eqc "_" c = false /\ Char.eqc "-" c = false
  /\ Char.eqc "+" c = false /\ Char.lower c = c /\ Char.is_letter c = false
  /\ Char.isspace c = false.
Proof.
  destruct c as [[] [] [] [] [] [] [] []]; vm_compute; intros; try discriminate;
    repeat split; reflexivity.
Qed.

Lemma underscores_ok_digits (prev : ascii) (s : string) :
  Char.eqc "_" prev = false -> Str.forallb Char.is_digit s = true ->
  underscores_ok prev s = true.
Proof.
  revert prev; induction s as [|c s IH]; intros prev Hp H.
  - cbn [underscores_ok]. now rewrite Hp.
  - cbn [Str.forallb underscores_ok] in *. apply andb_prop in H as [Hc Hs].
    destruct (digit_plain c Hc) as (_ & Hu & _). rewrite Hu, Hp. cbn [negb orb andb].
    now apply IH.
Qed.

Lemma digits_acc_nonneg (s : string) (acc : Z) :
  Str.forallb Char.is_digit s = true -> (0 <= acc)%Z -> (0 <= digits_acc acc s)%Z.
Proof.
  revert acc; induction s as [|c s IH]; intros acc H Hacc; [exact Hacc|].
  cbn [Str.forallb digits_acc] in *. apply andb_prop in H as [Hc Hs].
  apply IH; [exact Hs|].
  assert (0 <= digit_val c)%Z; [|lia].
  unfold digit_val. unfold Char.is_digit, Char.in_range in Hc.
  apply andb_prop in Hc as [Hlo _]. apply N.leb_le in Hlo. lia.
Qed.

Lemma lower_digits (s : string) :
  Str.forallb Char.is_digit s = true -> Str.lower s = s.
Proof.
  unfold Str.lower. induction s as [|c s IH]; [reflexivity|].
  cbn [Str.forallb Str.map]. intros H. apply andb_prop in H as [Hc Hs].
  destruct (digit_plain c Hc) as (_ & _ & _ & _ & -> & _). now rewrite (IH Hs).
Qed.

Lemma eqb_digit_letter (c : ascii) (s : string) (d : ascii) (w : string) :
  Char.is_digit c = true -> Char.is_letter d = true ->
  String.eqb (String c s) (String d w) = false.
Proof.
  intros Hc Hd. cbn [String.eqb].
  destruct (Ascii.eqb c d) eqn:E; [|reflexivity].
  apply Ascii.eqb_eq in E as ->.
  destruct (digit_plain d Hc) as (_ & _ & _ & _ & _ & Hl & _). congruence.
Qed.

(** [float] on a run of digits. *)
Lemma float_of_digits (ds : string) :
  ds <> "" -> Str.forallb Char.is_digit ds = true ->
  float_of_string ds = Ok (Float.round64 (inject_Z (digits_val ds))).
Proof.
  intros Hne Hd. unfold float_of_string.
  assert (Hfs : Str.forallb (fun c => negb (float_space c)) ds = true).
  { eapply forallb_impl; [|exact Hd]. intros c Hc.
    now destruct (digit_plain c Hc) as (-> & _). }
  rewrite (dropwhile_fixed _ _ Hfs), (rstrip_by_fixed _ _ Hfs).
  rewrite (underscores_ok_digits "000"%char ds eq_refl Hd).
  unfold Str.remove. rewrite filter_all.
  2:{ eapply forallb_impl; [|exact Hd]. intros c Hc.
      now destruct (digit_plain c Hc) as (_ & -> & _). }
  unfold parse_number.
  destruct ds as [|c r]; [congruence|].
  pose proof Hd as Hd'. cbn [Str.forallb] in Hd'. apply andb_prop in Hd' as [Hc Hr].
  destruct (digit_plain c Hc) as (_ & _ & Hm & Hp & _).
  cbn [split_sign]. rewrite Hm, Hp.
  rewrite (lower_digits _ Hd).
  rewrite !(eqb_digit_letter c r) by (exact Hc || reflexivity). cbn [orb].
  destruct (takewhile_app_stop Char.is_digit (String c r) "" Hd I) as [Ht Hdw].
  rewrite app_empty_r in Ht, Hdw. rewrite Ht, Hdw.
  cbn [Str.is_empty andb split_exponent String.length].
  rewrite app_empty_r. cbn [signed]. f_equal.
  apply round64_compat. change (pow10 (0 - Z.of_nat 0)) with (inject_Z 1).
  rewrite <- inject_Z_mult. now rewrite Z.mul_1_r.
Qed.

Lemma round64_nat (z : Z) :
  (0 <= z < 2 ^ 53)%Z -> Float.round64 (inject_Z z) = Float.Fin (inject_Z z).
Proof.
  intros [H0 H1]. destruct (Z.eq_dec z 0%Z) as [->|Hz]; [reflexivity|].
  apply round64_exact. lia.
Qed.

Lemma lt_zero_nat (z : Z) :
  (0 <= z)%Z -> Float.lt (Float.Fin 0) (Float.Fin (inject_Z z)) = (0 <? z)%Z.
Proof.
  intros Hz. unfold Float.lt, Float.le, Float.eq, Qle_bool, Qeq_bool, inject_Z.
  cbn [Qnum Qden]. rewrite !Z.mul_1_r. cbn [Z.mul].
  destruct z as [|p|p]; [reflexivity | reflexivity | lia].
Qed.

Lemma parse_price_digits (s ds : string) :
  Str.strip (Str.remove "," (Str.remove "$" s)) = ds ->
  ds <> "" -> Str.forallb Char.is_digit ds = true ->
  parse_price s = Ok (Float.round64 (inject_Z (digits_val ds))).
Proof.
  intros Hs Hne Hd. unfold parse_price.
  destruct (blank s) eqn:Hb.
  { exfalso. apply blank_spaces in Hb.
    assert (Hall : Str.forallb Char.isspace (Str.remove "," (Str.remove "$" s)) = true).
    { unfold Str.remove.
      assert (Hf : forall q t, Str.forallb Char.isspace t = true ->
                               Str.forallb Char.isspace (Str.filter q t) = true).
      { intros q t. induction t as [|c t IH]; [auto|]. cbn [Str.forallb Str.filter].
        intros H. apply andb_prop in H as [Hc Ht].
        destruct (q c); [cbn [Str.forallb]; now rewrite Hc, IH | now apply IH]. }
      now apply Hf, Hf. }
    unfold Str.strip in Hs. rewrite (rstrip_spaces _ Hall) in Hs.
    cbn in Hs. congruence. }
  rewrite Hs, (lower_digits _ Hd).
  destruct ds as [|c r]; [congruence|].
  pose proof Hd as Hd'. cbn [Str.forallb] in Hd'. apply andb_prop in Hd' as [Hc _].
  unfold special_cases. cbn [existsb].
  rewrite !(eqb_digit_letter c r) by (exact Hc || reflexivity). cbn [orb].
  now rewrite (float_of_digits _ Hne Hd).
Qed.

End DigitPrices.

(** X5: a dollar amount is read as its number of dollars.  When the
    price text, once every "$" and "," is dropped and the ends are
    trimmed, is a run of digits below 2^53, [parse_price] returns exactly
    that integer as a float, and [determine_for_sale] answers whether it
    is non-zero. *)
Theorem parse_price_of_dollar_amount (s ds : string) :
  Str.strip (Str.remove "," (Str.remove "$" s)) = ds ->
  ds <> "" -> Str.forallb Char.is_digit ds = true ->
  (NumStr.digits_val ds < 2 ^ 53)%Z ->
  Price.parse_price s = Ok (Float.Fin (inject_Z (NumStr.digits_val ds)))
  /\ Price.determine_for_sale s = Ok (0 <? NumStr.digits_val ds)%Z.
Proof.
  intros Hs Hne Hd Hlt.
  assert (H0 : (0 <= NumStr.digits_val ds)%Z)
    by (apply digits_acc_nonneg; [exact Hd | lia]).
  assert (Hp : Price.parse_price s = Ok (Float.Fin (inject_Z (NumStr.digits_val ds)))).
  { rewrite (parse_price_digits s ds Hs Hne Hd). f_equal. apply round64_nat. lia. }
  split; [exact Hp|].
  destruct (for_sale_is_positive_price s) as (p & Hp' & ->).
  rewrite Hp in Hp'. injection Hp' as <-. f_equal. now apply lt_zero_nat.
Qed.

Lemma parse_price_of_dollar_amount_witness :
  Price.parse_price " $1,200 " = Ok (Float.Fin (inject_Z (NumStr.digits_val "1200")))
  /\ Price.determine_for_sale " $1,200 " = Ok (0 <? NumStr.digits_val "1200")%Z.
Proof.
  apply (parse_price_of_dollar_amount " $1,200 " "1200");
    [reflexivity | discriminate | reflexivity | vm_compute; reflexivity].
Defined.

(** ** More on basenames *)

Section SubstitutionFacts.

(** Dropping every run of a class drops every character of it. *)
Lemma sub_from_plus (p : ascii -> bool) (s : string) (n k : nat) :
  (k <= String.length (Str.takewhile p s))%nat ->
  Re.sub_from (Re.Plus p) n k s = Str.filter (fun c => negb (p c)) s.
Proof.
  revert n k; induction s as [|c s IH]; intros n k Hk; [reflexivity|].
  cbn [Re.sub_from Str.filter Str.takewhile] in *.
  destruct k as [|j].
  - unfold Re.Plus at 1. cbn [Re.bt Re.rest Re.pos Re.caps].
    destruct (p c) eqn:Ec; cbn [negb].
    + erewrite star_bt_longest by reflexivity. cbn [Re.pos].
      replace (S n + String.length (Str.takewhile p s) - n)%nat
        with (S (String.length (Str.takewhile p s))) by lia.
      apply IH. lia.
    + now rewrite IH by lia.
  - destruct (p c) eqn:Ec; cbn [String.length negb] in *; [|lia].
    apply IH. lia.
Qed.

Lemma sub_empty_plus (p : ascii -> bool) (s : string) :
  Re.sub_empty (Re.Plus p) s = Str.filter (fun c => negb (p c)) s.
Proof. apply sub_from_plus. lia. Qed.

Lemma filter_ext (p q : ascii -> bool) (s : string) :
  (forall c, p c = q c) -> Str.filter p s = Str.filter q s.
Proof.
  intros H. induction s as [|c s IH]; [reflexivity|].
  cbn [Str.filter]. now rewrite H, IH.
Qed.

(** Past the start of the text a pattern anchored there never
    matches: the rest is copied. *)
Lemma sub_from_anchored (r : Re.regex) (s : string) (n : nat) :
  Re.sub_from (Re.Seq Re.Bol r) (S n) 0 s = s.
Proof.
  revert n; induction s as [|c s IH]; intros n; [reflexivity|].
  cbn [Re.sub_from Re.bt Re.pos Nat.eqb]. now rewrite IH.
Qed.

Lemma sub_from_skip (r : Re.regex) (a b : string) (n : nat) :
  Re.sub_from (Re.Seq Re.Bol r) (S n) (String.length a) (a +:+ b) = b.
Proof.
  revert n; induction a as [|c a IH]; intros n.
  - rewrite app_nil_s. apply sub_from_anchored.
  - rewrite app_cons_s. cbn [String.length Re.sub_from]. apply IH.
Qed.

Lemma split1_first (a rest : string) :
  Basename.no_dash a = true ->
  Str.split1 "-" (a +:+ "-" +:+ rest) = [a; rest].
Proof.
  unfold Basename.no_dash. induction a as [|c a IH]; [reflexivity|].
  cbn [Str.forallb]. intros H. apply andb_prop in H as [Hc Ha].
  apply negb_true_iff in Hc. rewrite app_cons_s. cbn [Str.split1].
  now rewrite Hc, (IH Ha).
Qed.

Lemma separator_alnum (c : ascii) :
  negb (Basename.is_separator c) = Scan.alnum c.
Proof. destruct c as [[] [] [] [] [] [] [] []]; vm_compute; reflexivity. Qed.

Lemma strip_dir (a rest : string) :
  Basename.no_dash a = true ->
  Basename.stripDirStringToImageFormat (a +:+ "-" +:+ rest)
  = Ok ("LindseyAyres_" +:+ Str.filter Scan.alnum rest).
Proof.
  intros Ha. unfold Basename.stripDirStringToImageFormat.
  rewrite (split1_first a rest Ha). cbn [length Nat.ltb Nat.leb nth].
  unfold Basename.separators_re. rewrite sub_empty_plus.
  now rewrite (filter_ext _ _ rest separator_alnum).
Qed.

Lemma digits_no_dash (ds : string) :
  Str.forallb Char.is_digit ds = true -> Basename.no_dash ds = true.
Proof.
  apply forallb_impl. intros c Hc.
  now destruct (digit_plain c Hc) as (_ & _ & -> & _).
Qed.

(** The number and its dash are what the pattern "^\d+-" removes. *)
Lemma sub_number_prefix (ds rest : string) :
  ds <> "" -> Str.forallb Char.is_digit ds = true ->
  Re.sub_empty Basename.number_prefix_re (ds +:+ "-" +:+ rest) = rest.
Proof.
  intros Hne Hd. unfold Re.sub_empty, Basename.number_prefix_re.
  destruct ds as [|c r]; [congruence|].
  cbn [Str.forallb] in Hd. apply andb_prop in Hd as [Hc Hr].
  rewrite app_cons_s. cbn [Re.sub_from].
  unfold Re.Plus. cbn [Re.bt Re.pos Re.rest Re.caps Nat.eqb]. rewrite Hc.
  assert (Hstop : match "-" +:+ rest with
                  | String x _ => Char.is_digit x = false
                  | "" => True
                  end) by reflexivity.
  destruct (takewhile_app_stop Char.is_digit r ("-" +:+ rest) Hr Hstop) as [Ht Hdw].
  erewrite star_bt_longest.
  2:{ rewrite Ht, Hdw. cbn [Re.bt Re.rest Re.pos Re.caps].
      change ("-" +:+ rest) with (String "-" rest). cbn iota.
      assert (Char.eqc "-" "-" = true) as -> by reflexivity. reflexivity. }
  cbn [Re.pos].
  replace (S (1 + String.length r) - 0)%nat with (S (String.length (r +:+ "-")))
    by (rewrite length_app_s; cbn; lia).
  rewrite <- (app_assoc_s r "-" rest). apply sub_from_skip.
Qed.

Lemma derive_numbered (ds rest : string) :
  ds <> "" -> Str.forallb Char.is_digit ds = true ->
  Basename.derive_image_basename_from_folder (ds +:+ "-" +:+ rest)
  = "LindseyAyres_" +:+ Str.remove "_" rest.
Proof.
  intros Hne Hd. unfold Basename.derive_image_basename_from_folder.
  now rewrite (sub_number_prefix ds rest Hne Hd).
Qed.

Lemma length_filter_le (p : ascii -> bool) (s : string) :
  (String.length (Str.filter p s) <= String.length s)%nat.
Proof.
  induction s as [|c s IH]; [reflexivity|]. cbn [Str.filter].
  destruct (p c); cbn [String.length]; lia.
Qed.

Lemma filter_alnum_remove (rest : string) :
  Str.filter Scan.alnum rest = Str.remove "_" rest
  <-> Str.forallb Char.is_word rest = true.
Proof.
  unfold Str.remove. induction rest as [|c s IH]; [now split|].
  cbn [Str.filter Str.forallb].
  assert (Hle : (String.length (Str.filter Scan.alnum s)
                 <= String.length (Str.filter (fun x => negb (Char.eqc "_" x)) s))%nat).
  { clear. induction s as [|c s IH]; [reflexivity|]. cbn [Str.filter].
    unfold Scan.alnum at 1. destruct (Char.is_word c); cbn [andb].
    - destruct (negb (Char.eqc "_" c)); cbn [String.length]; lia.
    - destruct (negb (Char.eqc "_" c)); cbn [String.length]; lia. }
  unfold Scan.alnum at 1.
  destruct (Char.is_word c) eqn:Ew; cbn [andb].
  - destruct (negb (Char.eqc "_" c)).
    + rewrite <- IH. split; [now intros [= ->] | now intros ->].
    + exact IH.
  - assert (Hu : negb (Char.eqc "_" c) = true).
    { destruct c as [[] [] [] [] [] [] [] []]; vm_compute in Ew |- *; congruence. }
    rewrite Hu. split; [|discriminate]. intros H.
    apply (f_equal String.length) in H. cbn [String.length] in H. lia.
Qed.

End SubstitutionFacts.

(** X6: the validator's expected image name.  The folder name is cut at
    its first dash; after the prefix "LindseyAyres_" come the
    alphanumeric characters of what follows that dash, in order, and
    nothing else: further dashes, underscores, blanks and punctuation
    are all dropped. *)
Theorem strip_dir_keeps_alphanumerics (a rest : string) :
  Basename.no_dash a = true ->
  Basename.stripDirStringToImageFormat (a +:+ "-" +:+ rest)
  = Ok ("LindseyAyres_" +:+ Str.filter Scan.alnum rest).
Proof. exact (strip_dir a rest). Qed.

Lemma strip_dir_keeps_alphanumerics_witness :
  Basename.stripDirStringToImageFormat ("04" +:+ "-" +:+ "The_Cat-Who Ate.")
  = Ok ("LindseyAyres_" +:+ Str.filter Scan.alnum "The_Cat-Who Ate.").
Proof.
  apply (strip_dir_keeps_alphanumerics "04" "The_Cat-Who Ate."). reflexivity.
Defined.

(** X7: the two scripts expect the same image name exactly for the
    folder names "digits-rest" whose rest is made of letters, digits and
    underscores.  On such a name [stripDirStringToImageFormat] (the
    validator) and [derive_image_basename_from_folder] (the merge
    script) return the same text; as soon as the rest holds any other
    character, a dash or a blank for instance, they differ. *)
Theorem basenames_agree_iff_word_characters (ds rest : string) :
  ds <> "" -> Str.forallb Char.is_digit ds = true ->
  (Basename.stripDirStringToImageFormat (ds +:+ "-" +:+ rest)
   = Ok (Basename.derive_image_basename_from_folder (ds +:+ "-" +:+ rest))
   <-> Str.forallb Char.is_word rest = true).
Proof.
  intros Hne Hd.
  rewrite (strip_dir ds rest (digits_no_dash ds Hd)), (derive_numbered ds rest Hne Hd).
  rewrite <- filter_alnum_remove. split.
  - intros [= H]. exact H.
  - now intros ->.
Qed.

Lemma basenames_agree_iff_word_characters_witness :
  Basename.stripDirStringToImageFormat ("04" +:+ "-" +:+ "The_Cat")
  = Ok (Basename.derive_image_basename_from_folder ("04" +:+ "-" +:+ "The_Cat")).
Proof.
  apply (proj2 (basenames_agree_iff_word_characters "04" "The_Cat"
                  ltac:(discriminate) eq_refl)).
  reflexivity.
Defined.

(** ** More on the scan *)

Section ScanFacts.
Import Validator Scan.

Lemma scan_images_fold (name : string) (es : list entry) (l : list path) (b : bool) :
  fold_left
    (fun (acc : list path * bool) (e : entry) =>
       if e_is_file e && negb (String.eqb (Str.lower (suffix (e_name e))) ".txt")
       then if e_image e
            then (fst acc ++ [Path name (e_name e)], true)
            else acc
       else acc)
    es (l, b)
  = (l ++ List.map (fun e => Path name (e_name e)) (List.filter is_image_entry es),
     b || existsb is_image_entry es).
Proof.
  revert l b; induction es as [|e es IH]; intros l b.
  - cbn. now rewrite app_nil_r, orb_false_r.
  - cbn [fold_left List.filter existsb].
    assert (Hie : is_image_entry e
                  = e_is_file e && negb (String.eqb (Str.lower (suffix (e_name e))) ".txt")
                    && e_image e) by reflexivity.
    rewrite Hie.
    destruct (e_is_file e && negb (String.eqb (Str.lower (suffix (e_name e))) ".txt"));
      cbn [andb]; [destruct (e_image e)|]; rewrite IH; cbn [fst List.map orb].
    + now rewrite <- app_assoc, orb_true_r.
    + reflexivity.
    + reflexivity.
Qed.

Lemma scan_images_spec (d : artdir) (images : list path) :
  scan_images d images = (images ++ found d, has_image d).
Proof. unfold scan_images. now rewrite scan_images_fold. Qed.



Lemma find_title_trimmed (text t : string) :
  find_title text = Some t -> Document.trimmed t.
Proof.
  unfold find_title. destruct (Re.search _ _) as [m|]; [|discriminate].
  destruct (Str.is_empty _) eqn:E; [discriminate|]. intros [= <-].
  now apply strip_trimmed.
Qed.

(** One directory: when the step returns, the images found are added
    to the candidates, and the directory goes either to the valid list
    or to the invalid one together with at least one diagnosis. *)
Lemma step_ok_cases (st st' : vstate) (d : artdir) :
  step st d = Ok st' ->
  valid_images st' = valid_images st ++ found d
  /\ ((exists v,
         valid_art_info st' = valid_art_info st ++ [v]
         /\ invalid_art_info st' = invalid_art_info st
         /\ missing_txt st' = missing_txt st /\ missing_img st' = missing_img st
         /\ missing_title st' = missing_title st
         /\ missing_matched_img st' = missing_matched_img st
         /\ dir_path v = d_name d
         /\ (exists e, expected_txt d = Some e)
         /\ (exists t, title v = Some t /\ Document.trimmed t)
         /\ (exists img base,
               large_image v = Some img
               /\ Basename.stripDirStringToImageFormat (d_name d) = Ok base
               /\ name_matches base img = true
               /\ In img (valid_images st ++ found d)))
      \/ (valid_art_info st' = valid_art_info st
          /\ invalid_art_info st' = invalid_art_info st ++ [d_name d]
          /\ (forall n, diagnosed st' n <-> diagnosed st n \/ n = d_name d))).
Proof.
  unfold step. rewrite scan_images_spec.
  set (ttl := match expected_txt d with
              | Some e => match e_text e with
                          | Some raw => find_title (Str.universal_newlines raw)
                          | None => None
                          end
              | None => None
              end).
  assert (Httl : forall t, ttl = Some t -> Document.trimmed t).
  { intros t. unfold ttl. destruct (expected_txt d) as [e|]; [|discriminate].
    destruct (e_text e); [apply find_title_trimmed | discriminate]. }
  assert (Hdiag : forall b1 b2 b3 b4 : bool,
            b1 && b2 && b3 && b4 = false ->
            forall n,
              (In n (append_if (negb b1) (d_name d) (missing_txt st))
               \/ In n (append_if (negb b2) (d_name d) (missing_img st))
               \/ In n (append_if (b1 && negb b4) (d_name d) (missing_title st))
               \/ In n (append_if (b2 && negb b3) (d_name d) (missing_matched_img st)))
              <-> diagnosed st n \/ n = d_name d).
  { intros b1 b2 b3 b4 Hb n. unfold diagnosed, append_if.
    destruct b1, b2, b3, b4; try discriminate; cbn [negb andb];
      rewrite ?in_app_iff; cbn [In]; intuition congruence. }
  destruct (has_image d) eqn:Himg.
  - destruct (Basename.stripDirStringToImageFormat (d_name d)) as [base|e] eqn:Eb;
      [|discriminate].
    rewrite bind_ok.
    destruct (List.find (name_matches base) (valid_images st ++ found d))
      as [img|] eqn:Ef.
    + rewrite bind_ok.
      destruct (expected_txt d) as [e|] eqn:Et; cbn [andb].
      * destruct ttl as [t|] eqn:Etl.
        -- intros [= <-]. cbn. split; [reflexivity|]. left.
           eexists. repeat split; try reflexivity.
           ++ now exists e.
           ++ exists t. split; [reflexivity | now apply Httl].
           ++ exists img, base. apply find_some in Ef as [Hin Hm]. auto.
        -- intros [= <-]. cbn [valid_images valid_art_info invalid_art_info].
           split; [reflexivity|]. right. split; [reflexivity|]. split; [reflexivity|].
           apply (Hdiag true true true false eq_refl).
      * intros [= <-]. cbn [valid_images valid_art_info invalid_art_info].
        split; [reflexivity|]. right. split; [reflexivity|]. split; [reflexivity|].
        destruct ttl; [apply (Hdiag false true true true eq_refl)
                      | apply (Hdiag false true true false eq_refl)].
    + rewrite bind_ok. rewrite !andb_false_r. cbn [andb].
      intros [= <-]. cbn [valid_images valid_art_info invalid_art_info].
      split; [reflexivity|]. right. split; [reflexivity|]. split; [reflexivity|].
      destruct (expected_txt d), ttl;
        [apply (Hdiag true true false true eq_refl)
        |apply (Hdiag true true false false eq_refl)
        |apply (Hdiag false true false true eq_refl)
        |apply (Hdiag false true false false eq_refl)].
  - rewrite bind_ok. rewrite !andb_false_r. cbn [andb].
    intros [= <-]. cbn [valid_images valid_art_info invalid_art_info].
    split; [reflexivity|]. right. split; [reflexivity|]. split; [reflexivity|].
    destruct (expected_txt d), ttl;
      [apply (Hdiag true false false true eq_refl)
      |apply (Hdiag true false false false eq_refl)
      |apply (Hdiag false false false true eq_refl)
      |apply (Hdiag false false false false eq_refl)].
Qed.


Lemma insert_dir_perm (d : artdir) (l : list artdir) :
  Permutation (insert_dir d l) (d :: l).
Proof.
  induction l as [|y l IH]; [reflexivity|]. cbn [insert_dir].
  destruct (String.ltb _ _); [|reflexivity].
  rewrite IH. apply perm_swap.
Qed.

Lemma sort_dirs_perm (dirs : list artdir) : Permutation (sort_dirs dirs) dirs.
Proof.
  induction dirs as [|d dirs IH]; [reflexivity|].
  unfold sort_dirs in *. cbn [fold_right]. rewrite insert_dir_perm. now constructor.
Qed.


Lemma run_reported (ds : list artdir) (st st' : vstate) :
  run st ds = Ok st' ->
  Permutation (reported st') (reported st ++ List.map d_name ds)
  /\ ((forall n, diagnosed st n <-> In n (invalid_art_info st)) ->
      forall n, diagnosed st' n <-> In n (invalid_art_info st')).
Proof.
  revert st; induction ds as [|d ds IH]; intros st.
  - cbn. intros [= <-]. now rewrite app_nil_r.
  - cbn [run]. destruct (step st d) as [st1|e] eqn:Es; [|discriminate].
    rewrite bind_ok. intros Hrun. destruct (IH _ Hrun) as [Hperm Hinv].
    apply step_ok_cases in Es as [_ [Hv | Hi]].
    + destruct Hv as (v & Hva & Hia & H1 & H2 & H3 & H4 & Hdp & _).
      split.
      * rewrite Hperm. unfold reported. rewrite Hva, Hia, List.map_app.
        cbn [List.map]. rewrite Hdp, <- !app_assoc. apply Permutation_app_head.
        cbn [app]. rewrite <- Permutation_middle. reflexivity.
      * intros Hst. apply Hinv. intros n. unfold diagnosed.
        rewrite H1, H2, H3, H4, Hia. apply Hst.
    + destruct Hi as (Hva & Hia & Hd). split.
      * rewrite Hperm. unfold reported. rewrite Hva, Hia, <- !app_assoc.
        reflexivity.
      * intros Hst. apply Hinv. intros n. rewrite Hd, Hia, in_app_iff, Hst.
        cbn [In]. intuition congruence.
Qed.

Lemma entry_ok_mono (ds ds' : list artdir) (v : valid_info) :
  (forall d, In d ds -> In d ds') -> entry_ok ds v -> entry_ok ds' v.
Proof.
  intros Hsub (d & t & img & base & Hd & H1 & H2 & H3 & H4 & H5 & H6 & H7 & d' & Hd' & H8).
  exists d, t, img, base.
  split; [auto|]. split; [exact H1|]. split; [exact H2|]. split; [exact H3|].
  split; [exact H4|]. split; [exact H5|]. split; [exact H6|]. split; [exact H7|].
  exists d'. auto.
Qed.

Lemma run_entries (ds done : list artdir) (st st' : vstate) :
  run st ds = Ok st' ->
  Forall (entry_ok done) (valid_art_info st) ->
  (forall img, In img (valid_images st) -> exists d', In d' done /\ In img (found d')) ->
  Forall (entry_ok (done ++ ds)) (valid_art_info st').
Proof.
  revert done st; induction ds as [|d ds IH]; intros done st.
  - cbn. intros [= <-] H _. now rewrite app_nil_r.
  - cbn [run]. destruct (step st d) as [st1|e] eqn:Es; [|discriminate].
    rewrite bind_ok. intros Hrun Hall Himgs.
    replace (done ++ d :: ds) with ((done ++ [d]) ++ ds) by now rewrite <- app_assoc.
    apply (IH _ st1 Hrun).
    + apply step_ok_cases in Es as [_ [Hv | Hi]].
      * destruct Hv as (v & Hva & _ & _ & _ & _ & _ & Hdp & Htxt & (t & Ht & Htr)
                        & img & base & Hli & Hb & Hm & Hin).
        rewrite Hva. apply Forall_app. split.
        -- eapply List.Forall_impl; [|exact Hall]. intros a. apply entry_ok_mono.
           intros x Hx. apply in_app_iff. now left.
        -- constructor; [|constructor].
           exists d, t, img, base.
           split; [apply in_app_iff; right; now left|].
           split; [exact Hdp|]. split; [exact Htxt|]. split; [exact Ht|].
           split; [exact Htr|]. split; [exact Hli|]. split; [exact Hb|].
           split; [exact Hm|].
           apply in_app_iff in Hin as [Hin | Hin].
           ++ destruct (Himgs img Hin) as (d' & Hd' & Hf). exists d'.
              split; [apply in_app_iff; now left | exact Hf].
           ++ exists d. split; [apply in_app_iff; right; now left | exact Hin].
      * destruct Hi as (-> & _). eapply List.Forall_impl; [|exact Hall].
        intros a. apply entry_ok_mono. intros x Hx. apply in_app_iff. now left.
    + apply step_ok_cases in Es as [Hvi _]. rewrite Hvi. intros img Hin.
      apply in_app_iff in Hin as [Hin | Hin].
      * destruct (Himgs img Hin) as (d' & Hd' & Hf). exists d'.
        split; [apply in_app_iff; now left | exact Hf].
      * exists d. split; [apply in_app_iff; right; now left | exact Hin].
Qed.

End ScanFacts.

(** X8: the scan accounts for every directory.  When
    [get_valid_art_directories] returns, each subdirectory is reported
    exactly once, in the list of valid directories or in the list of
    invalid ones; and the four diagnostic lists (missing description,
    missing image, missing title, missing matching image) name the
    invalid directories and no other: every invalid directory is in at
    least one of them. *)
Theorem scan_accounts_for_every_directory
        (dirs : list Validator.artdir) (st : Validator.vstate) :
  Validator.get_valid_art_directories dirs = Ok st ->
  Permutation (Scan.reported st) (List.map Validator.d_name dirs)
  /\ (forall n, Scan.diagnosed st n <-> In n (Validator.invalid_art_info st)).
Proof.
  unfold Validator.get_valid_art_directories. intros H.
  destruct (run_reported _ _ _ H) as [Hperm Hinv]. split.
  - rewrite Hperm. cbn [Scan.reported Validator.init app List.map Validator.valid_art_info
                        Validator.invalid_art_info].
    apply Permutation_map, sort_dirs_perm.
  - apply Hinv. intros n. unfold Scan.diagnosed. cbn. tauto.
Qed.

Lemma scan_accounts_for_every_directory_witness :
  exists st,
    Validator.get_valid_art_directories [Validator.dir_B; Validator.dir_A] = Ok st
    /\ Permutation (Scan.reported st)
         (List.map Validator.d_name [Validator.dir_B; Validator.dir_A])
    /\ (forall n, Scan.diagnosed st n <-> In n (Validator.invalid_art_info st)).
Proof.
  eexists. split; [vm_compute; reflexivity|].
  apply (scan_accounts_for_every_directory [Validator.dir_B; Validator.dir_A]).
  vm_compute. reflexivity.
Defined.


(** X10: what a valid entry is.  When the scan returns, every entry of
    the list of valid directories stands for a scanned directory that
    has its description file; its title is not empty and has no white
    space at either end; its primary image is an image recorded in some
    scanned directory, and that file's name equals, up to case, the
    expected basename of the directory followed by the file's own
    extension. *)
Theorem valid_entries_are_well_formed
        (dirs : list Validator.artdir) (st : Validator.vstate) :
  Validator.get_valid_art_directories dirs = Ok st ->
  Forall (Scan.entry_ok dirs) (Validator.valid_art_info st).
Proof.
  unfold Validator.get_valid_art_directories. intros H.
  apply (run_entries _ [] _ _) in H; [|constructor | intros img []].
  cbn [app] in H. eapply List.Forall_impl; [|exact H].
  intros v. apply entry_ok_mono. intros d Hd.
  eapply Permutation_in; [apply sort_dirs_perm | exact Hd].
Qed.

Lemma valid_entries_are_well_formed_witness :
  exists st,
    Validator.get_valid_art_directories [Validator.dir_A; Validator.dir_B] = Ok st
    /\ Forall (Scan.entry_ok [Validator.dir_A; Validator.dir_B])
              (Validator.valid_art_info st).
Proof.
  eexists. split; [vm_compute; reflexivity|].
  apply (valid_entries_are_well_formed [Validator.dir_A; Validator.dir_B]).
  vm_compute. reflexivity.
Defined.

(** ** Integers and their numerals *)

Section Numerals.
Import NumStr.
Local Open Scope Z_scope.

(** The value of a numeral of the Standard Library, read digit by
    digit after the digits [acc]. *)

Lemma of_uint_acc_digits (d : Decimal.uint) (acc : positive) :
  Z.pos (Pos.of_uint_acc d acc)
  = digits_acc (Z.pos acc) (NilEmpty.string_of_uint d).
Proof.
  revert acc; induction d; intros acc; cbn [Pos.of_uint_acc NilEmpty.string_of_uint digits_acc];
    [reflexivity|..]; rewrite IHd; f_equal; unfold digit_val; cbn; lia.
Qed.

Lemma of_uint_digits (d : Decimal.uint) :
  Z.of_N (Pos.of_uint d) = digits_acc 0 (NilEmpty.string_of_uint d).
Proof.
  induction d; cbn [Pos.of_uint NilEmpty.string_of_uint digits_acc];
    [reflexivity | exact IHd |..];
    cbn [Z.of_N]; rewrite of_uint_acc_digits; f_equal.
Qed.

(** Reading the numeral of a natural number gives the number back. *)
Lemma digits_val_str (z : Z) : 0 <= z -> digits_val (str_of_Z z) = z.
Proof.
  intros Hz. unfold digits_val, str_of_Z.
  destruct z as [|p|p]; [reflexivity| |lia].
  cbn [Z.to_int NilZero.string_of_int]. unfold NilZero.string_of_uint.
  pose proof (DecimalPos.Unsigned.to_uint_nonnil p) as Hnn.
  destruct (Pos.to_uint p) eqn:E; [congruence|..];
    rewrite <- E, <- of_uint_digits, DecimalPos.Unsigned.of_to; reflexivity.
Qed.

Lemma str_digits (z : Z) :
  0 <= z -> str_of_Z z <> "" /\ Str.forallb Char.is_digit (str_of_Z z) = true.
Proof.
  intros Hz. unfold str_of_Z.
  assert (Hd : forall d, Str.forallb Char.is_digit (NilEmpty.string_of_uint d) = true).
  { induction d; cbn [NilEmpty.string_of_uint Str.forallb]; [reflexivity|..];
      rewrite IHd; reflexivity. }
  destruct z as [|p|p]; [split; [discriminate | reflexivity]| |lia].
  cbn [Z.to_int NilZero.string_of_int]. unfold NilZero.string_of_uint.
  pose proof (DecimalPos.Unsigned.to_uint_nonnil p) as Hnn.
  destruct (Pos.to_uint p) eqn:E; [congruence|..];
    (split; [discriminate | rewrite <- E; apply Hd]).
Qed.

Lemma uint_of_digits (ds : string) :
  Str.forallb Char.is_digit ds = true ->
  exists d, NilEmpty.uint_of_string ds = Some d
            /\ NilEmpty.string_of_uint d = ds.
Proof.
  induction ds as [|c ds IH]; [now exists Nil|].
  cbn [Str.forallb]. intros H. apply andb_prop in H as [Hc Hds].
  destruct (IH Hds) as (d & Hd & Hs). cbn [NilEmpty.uint_of_string]. rewrite Hd.
  destruct c as [[] [] [] [] [] [] [] []]; try discriminate Hc;
    cbn [uint_of_char]; eexists; (split; [reflexivity|]);
    cbn [NilEmpty.string_of_uint]; now rewrite Hs.
Qed.

(** Writing the value of a canonical numeral gives the numeral
    back. *)
Lemma str_digits_val (ds : string) :
  IntStr.canonical ds = true -> str_of_Z (digits_val ds) = ds.
Proof.
  unfold IntStr.canonical. intros H. apply andb_prop in H as [Hd Hc].
  destruct (uint_of_digits ds Hd) as (d & Hu & Hs).
  unfold digits_val. rewrite <- Hs at 1. rewrite <- of_uint_digits.
  unfold str_of_Z.
  destruct ds as [|c r]; [discriminate|].
  destruct (Char.eqc "0" c) eqn:E0; cbn [negb orb] in Hc.
  - apply eqc_eq in E0 as <-. destruct r; [|discriminate].
    cbn in Hu. injection Hu as <-. reflexivity.
  - assert (Hn : unorm d = d /\ d <> Nil).
    { destruct d; cbn [NilEmpty.string_of_uint] in Hs; try discriminate Hs;
        injection Hs as <- _; try discriminate E0; split; try reflexivity; discriminate. }
    destruct Hn as [Hn Hnn].
    pose proof (DecimalN.Unsigned.to_of d) as Hto. rewrite Hn in Hto.
    unfold N.of_uint in Hto.
    destruct (Pos.of_uint d) as [|p] eqn:Ep.
    + cbn in Hto. rewrite <- Hto in Hs. cbn in Hs. injection Hs as <- _.
      discriminate E0.
    + cbn [Z.of_N Z.to_int NilZero.string_of_int]. cbn [N.to_uint] in Hto.
      rewrite Hto. unfold NilZero.string_of_uint.
      destruct d; [congruence|..]; exact Hs.
Qed.

End Numerals.

(** ** Dates *)

Section DateFacts.
Import NumStr IntStr Dates.

Lemma digits_trimmed (ds : string) :
  ds <> "" -> Str.forallb Char.is_digit ds = true -> Document.trimmed ds.
Proof.
  intros Hne Hd. split; [exact Hne|]. split.
  - destruct ds as [|c r]; [congruence|]. cbn [Str.forallb Str.head_space] in *.
    apply andb_prop in Hd as [Hc _]. now destruct (digit_plain c Hc) as (_ & _ & _ & _ & _ & _ & ->).
  - induction ds as [|c r IH]; [congruence|]. cbn [Str.forallb Str.ends_space] in *.
    apply andb_prop in Hd as [Hc Hr]. destruct r as [|c' r'].
    + now destruct (digit_plain c Hc) as (_ & _ & _ & _ & _ & _ & ->).
    + apply IH; [discriminate | exact Hr].
Qed.

(** White space around a trimmed text is what [strip] removes. *)
Lemma strip_padded (a x b : string) :
  Str.forallb Char.isspace a = true -> Str.forallb Char.isspace b = true ->
  Document.trimmed x -> Str.strip (a +:+ x +:+ b) = x.
Proof.
  intros Ha Hb (Hne & Hh & He). unfold Str.strip.
  rewrite <- app_assoc_s, (rstrip_app_spaces _ _ Hb).
  assert (Hr : Str.rstrip x = x) by now apply rstrip_fixed.
  rewrite rstrip_app_keep by congruence.
  rewrite Hr, (lstrip_app_spaces _ _ Ha). now apply lstrip_fixed.
Qed.

Lemma padded_not_blank (a x b : string) :
  Document.trimmed x -> Price.blank (a +:+ x +:+ b) = false.
Proof.
  intros (Hne & Hh & _). destruct (Price.blank _) eqn:E; [|reflexivity].
  apply blank_spaces in E. rewrite !forallb_app in E.
  apply andb_prop in E as [_ E]. apply andb_prop in E as [E _].
  destruct x as [|c r]; [congruence|]. cbn [Str.forallb Str.head_space] in *.
  apply andb_prop in E as [E _]. congruence.
Qed.

Lemma canonical_digits (ds : string) :
  canonical ds = true -> ds <> "" /\ Str.forallb Char.is_digit ds = true.
Proof.
  unfold canonical. intros H. apply andb_prop in H as [Hd Hc].
  split; [|exact Hd]. destruct ds; [discriminate | discriminate].
Qed.

(** [int] on a run of digits. *)
Lemma int_of_digits (ds : string) :
  ds <> "" -> Str.forallb Char.is_digit ds = true ->
  (String.length ds <= max_str_digits)%nat ->
  int_of_string ds = Ok (digits_val ds).
Proof.
  intros Hne Hd Hlen. unfold int_of_string.
  assert (Hfs : Str.forallb (fun c => negb (float_space c)) ds = true).
  { eapply forallb_impl; [|exact Hd]. intros c Hc.
    now destruct (digit_plain c Hc) as (-> & _). }
  rewrite (dropwhile_fixed _ _ Hfs), (rstrip_by_fixed _ _ Hfs).
  assert (Hsign : split_sign ds = (false, ds)).
  { destruct ds as [|c r]; [congruence|]. cbn [Str.forallb] in Hd.
    apply andb_prop in Hd as [Hc _].
    destruct (digit_plain c Hc) as (_ & _ & Hm & Hp & _).
    cbn [split_sign]. now rewrite Hm, Hp. }
  rewrite Hsign. unfold Str.remove. rewrite filter_all.
  2:{ eapply forallb_impl; [|exact Hd]. intros c Hc.
      now destruct (digit_plain c Hc) as (_ & -> & _). }
  rewrite (underscores_ok_digits "000"%char ds eq_refl Hd), Hd.
  apply Nat.leb_le in Hlen. rewrite Hlen.
  destruct ds; [congruence | reflexivity].
Qed.

Lemma space_year_char (c : ascii) : Char.isspace c = true -> year_char c = true.
Proof. unfold year_char. intros ->. now rewrite orb_true_r. Qed.

Lemma float_space_year_char (c : ascii) : float_space c = true -> year_char c = true.
Proof. destruct c as [[] [] [] [] [] [] [] []]; vm_compute; congruence. Qed.

(** A text that [int] accepts is made of digits, signs, underscores
    and white space. *)
Lemma int_of_string_chars (t : string) (z : Z) :
  int_of_string t = Ok z -> Str.forallb year_char t = true.
Proof.
  unfold int_of_string.
  rewrite (dropwhile_split float_space t) at 2. rewrite forallb_app.
  rewrite (forallb_impl _ _ _ float_space_year_char (takewhile_all _ _)). cbn [andb].
  destruct (rstrip_by_split float_space (Str.dropwhile float_space t)) as (b & Hb & Hbs).
  rewrite Hb at 2. rewrite forallb_app.
  rewrite (forallb_impl _ _ _ float_space_year_char Hbs), andb_true_r.
  set (u := rstrip_by float_space (Str.dropwhile float_space t)).
  assert (Hu : Str.forallb year_char u = Str.forallb year_char (snd (split_sign u))).
  { destruct u as [|c r]; [reflexivity|]. cbn [split_sign].
    destruct (Char.eqc "-" c) eqn:E1.
    { apply eqc_eq in E1 as <-. reflexivity. }
    destruct (Char.eqc "+" c) eqn:E2; [|reflexivity].
    apply eqc_eq in E2 as <-. reflexivity. }
  rewrite Hu. destruct (split_sign u) as [neg body]. cbn [snd].
  destruct (underscores_ok "000" body); [|discriminate].
  destruct (Str.is_empty _); [discriminate|]. cbn [negb andb].
  destruct (Str.forallb Char.is_digit (Str.remove "_" body)) eqn:Hd; [|discriminate].
  intros _. clear - Hd. unfold Str.remove in Hd.
  induction body as [|c r IH]; [reflexivity|]. cbn [Str.filter Str.forallb] in *.
  destruct (Char.eqc "_" c) eqn:E; cbn [negb] in Hd.
  - apply eqc_eq in E as <-. now rewrite (IH Hd).
  - cbn [Str.forallb] in Hd. apply andb_prop in Hd as [Hc Hr].
    rewrite (IH Hr), andb_true_r. unfold year_char. now rewrite Hc.
Qed.

(** Within the limit [str] writes the numeral back. *)
Lemma str_int_digits (ds : string) :
  canonical ds = true -> (String.length ds <= max_str_digits)%nat ->
  str_int (digits_val ds) = Ok ds.
Proof.
  intros Hc Hlen. destruct (canonical_digits ds Hc) as [_ Hd].
  unfold str_int. rewrite Z.abs_eq by now apply digits_acc_nonneg.
  rewrite (str_digits_val ds Hc).
  apply Nat.leb_le in Hlen. unfold max_str_digits in Hlen. now rewrite Hlen.
Qed.

Lemma parse_date_year (a ds b : string) :
  Str.forallb Char.isspace a = true -> Str.forallb Char.isspace b = true ->
  canonical ds = true -> (String.length ds <= max_str_digits)%nat ->
  parse_date_produced (a +:+ ds +:+ b) = Some (ds +:+ "-01-01").
Proof.
  intros Ha Hb Hc Hlen. destruct (canonical_digits ds Hc) as [Hne Hd].
  pose proof (digits_trimmed ds Hne Hd) as Htr.
  unfold parse_date_produced.
  rewrite (padded_not_blank a ds b Htr), (strip_padded a ds b Ha Hb Htr).
  rewrite (int_of_digits ds Hne Hd Hlen). now rewrite (str_int_digits ds Hc Hlen).
Qed.

Lemma parse_date_other (s : string) :
  Str.forallb year_char s = false -> parse_date_produced s = None.
Proof.
  intros H. unfold parse_date_produced. destruct (Price.blank s); [reflexivity|].
  destruct (int_of_string (Str.strip s)) as [z|e] eqn:E; [|reflexivity].
  apply int_of_string_chars in E. rewrite (forallb_strip _ _ space_year_char) in E.
  congruence.
Qed.

End DateFacts.

(** X11: a year becomes the first of January of that year.  For a
    numeral written without superfluous zeros (at most 4300 digits) with
    any white space around it, [parse_date_produced] returns the numeral
    followed by "-01-01". *)
Theorem parse_date_of_year (a ds b : string) :
  Str.forallb Char.isspace a = true -> Str.forallb Char.isspace b = true ->
  IntStr.canonical ds = true -> (String.length ds <= IntStr.max_str_digits)%nat ->
  Dates.parse_date_produced (a +:+ ds +:+ b) = Some (ds +:+ "-01-01").
Proof. exact (parse_date_year a ds b). Qed.

Lemma parse_date_of_year_witness :
  Dates.parse_date_produced (" " +:+ "2002" +:+ Str.nl) = Some ("2002" +:+ "-01-01").
Proof.
  apply (parse_date_of_year " " "2002" Str.nl);
    [reflexivity | reflexivity | reflexivity | vm_compute; lia].
Defined.

(** X12: anything but a bare integer gives no date.  If the text holds
    a character that is neither a digit, a sign, an underscore nor white
    space (a full date "17/05/2002", "c. 1998", "2002.0"),
    [parse_date_produced] returns [None]: the [ValueError] of [int] is
    caught and the date is lost rather than passed on. *)
Theorem parse_date_of_other_text (s : string) :
  Str.forallb Dates.year_char s = false -> Dates.parse_date_produced s = None.
Proof. exact (parse_date_other s). Qed.

Lemma parse_date_of_other_text_witness :
  Dates.parse_date_produced "17/05/2002" = None.
Proof. apply (parse_date_of_other_text "17/05/2002"). reflexivity. Defined.

(** ** More on the ratio matcher *)

Section LowestTerms.
Import Float Num Ratio.
Local Open Scope Z_scope.

Lemma tenfold_int (W : Z) : 0 < W -> 10 * W < 2 ^ 53 -> tenfold (Int W) (10 * W).
Proof.
  intros H0 H1. split; [reflexivity|]. split; [|lia].
  cbn [Num.value]. rewrite inject_Z_mult. ring.
Qed.

Lemma calculate_ratio_int (W H : Z) :
  0 < W -> 0 < H -> 10 * W < 2 ^ 53 -> 10 * H < 2 ^ 53 ->
  calculate_ratio (Int W) (Int H)
  = Ok (Fin (inject_Z (W / Z.gcd W H)), Fin (inject_Z (H / Z.gcd W H))).
Proof.
  intros HW HH HW' HH'.
  rewrite (tenfold_calculate_ratio _ _ _ _ (tenfold_int W HW HW') (tenfold_int H HH HH')).
  rewrite Z.gcd_mul_mono_l_nonneg by lia.
  assert (Hg : 0 < Z.gcd W H).
  { pose proof (Z.gcd_nonneg W H).
    destruct (Z.eq_dec (Z.gcd W H) 0) as [E|]; [|lia].
    apply Z.gcd_eq_0_l in E. lia. }
  rewrite !Z.div_mul_cancel_l by lia. reflexivity.
Qed.

End LowestTerms.

(** X13: [calculate_ratio] puts pixel dimensions in lowest terms.  For
    a positive width and height (tenfold below 2^53) it returns the two
    integers obtained by dividing both by their greatest common divisor:
    they are coprime and in the same proportion as the width and the
    height. *)
Theorem calculate_ratio_in_lowest_terms (W H : Z) :
  (0 < W)%Z -> (0 < H)%Z -> (10 * W < 2 ^ 53)%Z -> (10 * H < 2 ^ 53)%Z ->
  Ratio.calculate_ratio (Num.Int W) (Num.Int H)
  = Ok (Float.Fin (inject_Z (W / Z.gcd W H)), Float.Fin (inject_Z (H / Z.gcd W H)))
  /\ Z.gcd (W / Z.gcd W H) (H / Z.gcd W H) = 1%Z
  /\ (W / Z.gcd W H * H = H / Z.gcd W H * W)%Z.
Proof.
  intros HW HH HW' HH'. split; [now apply calculate_ratio_int|].
  assert (Hg : (0 < Z.gcd W H)%Z).
  { pose proof (Z.gcd_nonneg W H).
    destruct (Z.eq_dec (Z.gcd W H) 0%Z) as [E|]; [|lia].
    apply Z.gcd_eq_0_l in E. lia. }
  split; [apply Z.gcd_div_gcd; [lia | reflexivity]|].
  destruct (Z.gcd_divide_l W H) as [a Ha], (Z.gcd_divide_r W H) as [b Hb].
  revert Hg Ha Hb. generalize (Z.gcd W H). intros g Hg Ha Hb.
  assert (Hqa : (W / g = a)%Z) by (rewrite Ha; apply Z.div_mul; lia).
  assert (Hqb : (H / g = b)%Z) by (rewrite Hb; apply Z.div_mul; lia).
  rewrite Hqa, Hqb, Ha, Hb. ring.
Qed.

Lemma calculate_ratio_in_lowest_terms_witness :
  Ratio.calculate_ratio (Num.Int 1200) (Num.Int 1800)
  = Ok (Float.Fin (inject_Z (1200 / Z.gcd 1200 1800)),
        Float.Fin (inject_Z (1800 / Z.gcd 1200 1800)))
  /\ Z.gcd (1200 / Z.gcd 1200 1800) (1800 / Z.gcd 1200 1800) = 1%Z
  /\ (1200 / Z.gcd 1200 1800 * 1800 = 1800 / Z.gcd 1200 1800 * 1200)%Z.
Proof.
  apply (calculate_ratio_in_lowest_terms 1200 1800); lia.
Defined.

Section MatchFacts.
Import Float Num NumStr Ratio Sizes.

Lemma match_step_spec (r tol : float) (acc acc' : list string) (size : num * num) :
  match_step r tol acc size = Ok acc' ->
  forall s, In s acc' <-> In s acc
                          \/ (within r tol size /\ format_size (fst size) (snd size) = Ok s).
Proof.
  unfold match_step, within. destruct size as [pw ph]. cbn [fst snd].
  destruct (Num.truediv pw ph) as [pr|e] eqn:Epr; [|discriminate]. rewrite bind_ok.
  destruct (Float.div _ r) as [rd|e] eqn:Erd; [|discriminate]. rewrite bind_ok.
  destruct (Float.le rd tol) eqn:Hle.
  - destruct (format_size pw ph) as [s0|e]; [|discriminate]. rewrite bind_ok.
    intros [= <-] s. rewrite in_app_iff. cbn [In]. split.
    + intros [H | [<- | []]]; [now left|]. right. split; [|reflexivity].
      now exists pr, rd.
    + intros [H | [_ [= <-]]]; [now left | right; now left].
  - intros [= <-] s. split; [now left|].
    intros [H | [(pr' & rd' & [= <-] & Hrd & H) _]]; [exact H|].
    rewrite Erd in Hrd. injection Hrd as <-. congruence.
Qed.

Lemma match_loop_spec (r tol : float) (sizes : list (num * num)) (acc l : list string) :
  match_loop r tol acc sizes = Ok l ->
  forall s, In s l <-> In s acc
                       \/ exists size, In size sizes /\ within r tol size
                                       /\ format_size (fst size) (snd size) = Ok s.
Proof.
  revert acc; induction sizes as [|size sizes IH]; intros acc.
  - cbn. intros [= <-] s. split; [now left | intros [H | (? & [] & _)]; exact H].
  - cbn [match_loop]. destruct (match_step r tol acc size) as [acc'|e] eqn:Es;
      [|discriminate].
    rewrite bind_ok. intros Hl s. rewrite (IH _ Hl s), (match_step_spec _ _ _ _ _ Es s).
    cbn [In]. split.
    + intros [[H | [H1 H2]] | (sz & Hin & H)]; [now left | |].
      * right. exists size. auto.
      * right. exists sz. auto.
    + intros [H | (sz & [<- | Hin] & H1 & H2)]; [now left; left | now left; right |].
      right. now exists sz.
Qed.

Lemma dedup_In (l : list string) (x : string) : In x (dedup l) <-> In x l.
Proof.
  induction l as [|y l IH]; [reflexivity|]. cbn [dedup In].
  rewrite filter_In, IH. split.
  - intros [H | [H _]]; auto.
  - intros [H | H]; [now left|]. destruct (String.eqb_spec y x) as [E|E]; [now left|].
    right. split; [exact H|]. destruct (String.eqb_spec y x); [contradiction | reflexivity].
Qed.

Lemma dedup_NoDup (l : list string) : List.NoDup (dedup l).
Proof.
  induction l as [|y l IH]; [constructor|]. cbn [dedup]. constructor.
  - rewrite filter_In. intros [_ H]. now rewrite String.eqb_refl in H.
  - now apply List.NoDup_filter.
Qed.

Lemma keyed_spec (l : list string) (ks : list ((float * float) * string)) :
  keyed l = Ok ks ->
  List.map snd ks = l /\ Forall (fun kx => size_key (snd kx) = Ok (fst kx)) ks.
Proof.
  revert ks; induction l as [|x l IH]; intros ks.
  - cbn. intros [= <-]. split; [reflexivity | constructor].
  - cbn [keyed]. destruct (size_key x) as [k|e] eqn:Ek; [|discriminate].
    rewrite bind_ok. destruct (keyed l) as [ks'|e]; [|discriminate].
    rewrite bind_ok. intros [= <-]. destruct (IH _ eq_refl) as [Hm Hf].
    split; [cbn; now rewrite Hm | now constructor].
Qed.

Lemma insert_keyed_perm (x : (float * float) * string) l :
  Permutation (insert_keyed x l) (x :: l).
Proof.
  induction l as [|y l IH]; [reflexivity|]. cbn [insert_keyed].
  destruct (key_lt (fst y) (fst x)); [|reflexivity].
  rewrite IH. apply perm_swap.
Qed.

Lemma sort_keyed_perm (ks : list ((float * float) * string)) :
  Permutation (fold_right insert_keyed [] ks) ks.
Proof.
  induction ks as [|k ks IH]; [reflexivity|]. cbn [fold_right].
  rewrite insert_keyed_perm. now constructor.
Qed.

(** *** The order of the keys *)

Lemma Qle_bool_false (a b : Q) : Qle_bool a b = false -> (b < a)%Q.
Proof.
  intros H. apply Qnot_le_lt. intros Hle. apply Qle_bool_iff in Hle. congruence.
Qed.

Lemma Qeq_bool_false (a b : Q) : Qeq_bool a b = false -> ~ (a == b)%Q.
Proof. intros H E. apply Qeq_bool_iff in E. congruence. Qed.

Lemma key_lt_le (a b : float * float) :
  finite_key a = true -> finite_key b = true -> key_lt a b = true -> key_le a b.
Proof.
  destruct a as [[wa| |] [ha| |]]; try discriminate.
  destruct b as [[wb| |] [hb| |]]; try discriminate. intros _ _.
  unfold key_lt, key_le, Float.lt, Float.le, Float.eq. cbn [fst snd].
  destruct (Qeq_bool wa wb) eqn:Ew; cbn [negb].
  - apply Qeq_bool_iff in Ew. destruct (Qeq_bool ha hb) eqn:Eh; cbn [negb]; [discriminate|].
    rewrite andb_true_r. intros H. apply Qle_bool_iff in H. now right.
  - rewrite andb_true_r. intros H. apply Qle_bool_iff in H. left.
    apply Qeq_bool_false in Ew. apply Qle_lteq in H as [H | H]; [exact H | contradiction].
Qed.

Lemma key_not_lt_le (a b : float * float) :
  finite_key a = true -> finite_key b = true -> key_lt a b = false -> key_le b a.
Proof.
  destruct a as [[wa| |] [ha| |]]; try discriminate.
  destruct b as [[wb| |] [hb| |]]; try discriminate. intros _ _.
  unfold key_lt, key_le, Float.lt, Float.le, Float.eq. cbn [fst snd].
  destruct (Qeq_bool wa wb) eqn:Ew; cbn [negb].
  - apply Qeq_bool_iff in Ew. right. split; [now symmetry|].
    destruct (Qeq_bool ha hb) eqn:Eh; cbn [negb] in *.
    + apply Qeq_bool_iff in Eh. rewrite Eh. apply Qle_refl.
    + rewrite andb_true_r in H. apply Qle_bool_false in H. now apply Qlt_le_weak.
  - rewrite andb_true_r. intros H. left. now apply Qle_bool_false.
Qed.

Lemma key_le_trans (a b c : float * float) : key_le a b -> key_le b c -> key_le a c.
Proof.
  destruct a as [[wa| |] [ha| |]]; try contradiction.
  destruct b as [[wb| |] [hb| |]]; try contradiction.
  destruct c as [[wc| |] [hc| |]]; try contradiction.
  unfold key_le. intros [H1 | [H1 H1']] [H2 | [H2 H2']].
  - left. now apply Qlt_trans with wb.
  - left. now rewrite <- H2.
  - left. now rewrite H1.
  - right. split; [now rewrite H1 | now apply Qle_trans with hb].
Qed.

Lemma insert_keyed_sorted (x : (float * float) * string) l :
  finite_key (fst x) = true -> Forall (fun y => finite_key (fst y) = true) l ->
  StronglySorted (fun a b => key_le (fst a) (fst b)) l ->
  StronglySorted (fun a b => key_le (fst a) (fst b)) (insert_keyed x l).
Proof.
  intros Hx Hfin Hs. induction Hs as [|y l Hs IH Hy]; cbn [insert_keyed].
  - constructor; constructor.
  - inversion Hfin as [|? ? Hfy Hfl]; subst.
    destruct (key_lt (fst y) (fst x)) eqn:E.
    + constructor; [now apply IH|].
      apply (Permutation_Forall (Permutation_sym (insert_keyed_perm x l))).
      constructor; [now apply key_lt_le | exact Hy].
    + pose proof (key_not_lt_le _ _ Hfy Hx E) as Hxy.
      constructor; [now constructor|]. constructor; [exact Hxy|].
      eapply List.Forall_impl; [|exact Hy]. intros z Hz.
      now apply key_le_trans with (fst y).
Qed.

Lemma sort_keyed_sorted (ks : list ((float * float) * string)) :
  Forall (fun y => finite_key (fst y) = true) ks ->
  StronglySorted (fun a b => key_le (fst a) (fst b)) (fold_right insert_keyed [] ks).
Proof.
  induction 1 as [|k ks Hk Hks IH]; [constructor|]. cbn [fold_right].
  apply insert_keyed_sorted; [exact Hk | | exact IH].
  apply (Permutation_Forall (Permutation_sym (sort_keyed_perm ks))). exact Hks.
Qed.

Lemma catalog_keys : forallb key_check ALL_VALID_SIZES = true.
Proof. vm_compute. reflexivity. Qed.

Lemma catalog_key_finite (size : num * num) (s : string) :
  In size ALL_VALID_SIZES -> format_size (fst size) (snd size) = Ok s ->
  exists k, size_key s = Ok k /\ finite_key k = true.
Proof.
  intros Hin Hs. pose proof catalog_keys as H. rewrite forallb_forall in H.
  specialize (H size Hin). unfold key_check in H. rewrite Hs in H.
  destruct (Num.to_float (fst size)) as [[w| |]|]; try discriminate.
  destruct (Num.to_float (snd size)) as [[h| |]|]; try discriminate.
  destruct (size_key s) as [[[kw| |] [kh| |]]|]; try discriminate.
  eexists. split; reflexivity.
Qed.

Lemma sorted_map_snd (ks : list ((float * float) * string)) :
  Forall (fun kx => size_key (snd kx) = Ok (fst kx)) ks ->
  StronglySorted (fun a b => key_le (fst a) (fst b)) ks ->
  StronglySorted ascending (List.map snd ks).
Proof.
  intros Hk Hs. induction Hs as [|y l Hs IH Hy]; [constructor|].
  inversion Hk as [|? ? Hky Hkl]; subst. cbn [List.map]. constructor; [now apply IH|].
  apply List.Forall_forall. intros b Hb. apply in_map_iff in Hb as (z & <- & Hz).
  rewrite List.Forall_forall in Hy, Hkl. exists (fst y), (fst z).
  split; [exact Hky|]. split; [now apply Hkl | now apply Hy].
Qed.

Lemma matcher_spec (w h : num) (tol : float) (l : list string) :
  find_matching_print_sizes w h tol = Ok l ->
  exists r,
    Num.truediv w h = Ok r
    /\ (forall s, In s l <-> exists size, In size ALL_VALID_SIZES /\ within r tol size
                                          /\ format_size (fst size) (snd size) = Ok s)
    /\ List.NoDup l /\ StronglySorted ascending l.
Proof.
  unfold find_matching_print_sizes.
  destruct (Num.truediv w h) as [r|e]; [|discriminate]. rewrite bind_ok.
  destruct (match_loop r tol [] ALL_VALID_SIZES) as [m|e] eqn:Em; [|discriminate].
  rewrite bind_ok. unfold sorted_by_size.
  destruct (keyed (dedup m)) as [ks|e] eqn:Ek; [|discriminate]. rewrite bind_ok.
  intros [= <-]. exists r. split; [reflexivity|].
  destruct (keyed_spec _ _ Ek) as [Hmap Hkeys].
  pose proof (sort_keyed_perm ks) as Hperm.
  assert (Hpl : Permutation (List.map snd (fold_right insert_keyed [] ks)) (dedup m)).
  { rewrite <- Hmap. now apply Permutation_map. }
  assert (Hmem : forall s, In s m <-> exists size, In size ALL_VALID_SIZES
                   /\ within r tol size /\ format_size (fst size) (snd size) = Ok s).
  { intros s. rewrite (match_loop_spec _ _ _ _ _ Em s). cbn [In]. tauto. }
  split; [|split].
  - intros s. rewrite <- Hmem. split; intros H.
    + apply dedup_In. now apply (Permutation_in _ Hpl).
    + apply dedup_In in H. now apply (Permutation_in _ (Permutation_sym Hpl)).
  - apply (Permutation_NoDup (Permutation_sym Hpl)), dedup_NoDup.
  - apply sorted_map_snd.
    + apply (Permutation_Forall (Permutation_sym Hperm)). exact Hkeys.
    + apply sort_keyed_sorted. apply List.Forall_forall. intros kx Hin.
      rewrite List.Forall_forall in Hkeys. pose proof (Hkeys kx Hin) as Hk.
      assert (Hx : In (snd kx) (dedup m)).
      { rewrite <- Hmap. apply in_map_iff. exists kx. split; [reflexivity | exact Hin]. }
      apply (proj1 (dedup_In m (snd kx))) in Hx.
      apply (proj1 (Hmem (snd kx))) in Hx.
      destruct Hx as (size & Hsz & _ & Hf).
      destruct (catalog_key_finite size (snd kx) Hsz Hf) as (k' & Hk' & Hfin).
      rewrite Hk in Hk'. injection Hk' as <-. exact Hfin.
Qed.

End MatchFacts.

(** X14: what the matcher returns.  When [find_matching_print_sizes]
    returns a list, the list holds exactly the formatted catalog sizes
    whose ratio lies within the tolerance of the artwork's ratio (as the
    loop computes it); no size is listed twice; and the list is in
    ascending order of width, then of height, both taken as numbers. *)
Theorem matches_are_the_catalog_sizes_within_tolerance
        (w h : Num.num) (tolerance : Float.float) (l : list string) :
  Ratio.find_matching_print_sizes w h tolerance = Ok l ->
  exists artwork_ratio,
    Num.truediv w h = Ok artwork_ratio
    /\ (forall s, In s l <-> exists size, In size Ratio.ALL_VALID_SIZES
                                          /\ Sizes.within artwork_ratio tolerance size
                                          /\ Ratio.format_size (fst size) (snd size) = Ok s)
    /\ List.NoDup l /\ StronglySorted Sizes.ascending l.
Proof. exact (matcher_spec w h tolerance l). Qed.

Lemma matches_are_the_catalog_sizes_within_tolerance_witness :
  exists artwork_ratio,
    Num.truediv (Num.Int 1200) (Num.Int 1800) = Ok artwork_ratio
    /\ (forall s, In s Ratio.matches_1200_1800
                  <-> exists size, In size Ratio.ALL_VALID_SIZES
                                   /\ Sizes.within artwork_ratio Ratio.default_tolerance size
                                   /\ Ratio.format_size (fst size) (snd size) = Ok s)
    /\ List.NoDup Ratio.matches_1200_1800
    /\ StronglySorted Sizes.ascending Ratio.matches_1200_1800.
Proof.
  apply (matches_are_the_catalog_sizes_within_tolerance
           (Num.Int 1200) (Num.Int 1800) Ratio.default_tolerance).
  vm_compute. reflexivity.
Defined.

Section KeyFacts.
Import Float Num NumStr Ratio Sizes.

Lemma split_none (c : ascii) (s : string) :
  Str.forallb (fun x => negb (Char.eqc c x)) s = true -> Str.split c s = [s].
Proof.
  induction s as [|x s IH]; [reflexivity|]. cbn [Str.forallb Str.split].
  intros H. apply andb_prop in H as [Hx Hs]. apply negb_true_iff in Hx.
  now rewrite Hx, (IH Hs).
Qed.

Lemma split_two (c : ascii) (a b : string) :
  Str.forallb (fun x => negb (Char.eqc c x)) a = true ->
  Str.forallb (fun x => negb (Char.eqc c x)) b = true ->
  Str.split c (a +:+ String c b) = [a; b].
Proof.
  intros Ha Hb. induction a as [|x a IH].
  - rewrite app_nil_s. cbn [Str.split].
    assert (Char.eqc c c = true) as -> by now apply eqc_eq.
    now rewrite (split_none c b Hb).
  - cbn [Str.forallb] in Ha. apply andb_prop in Ha as [Hx Ha].
    apply negb_true_iff in Hx. rewrite app_cons_s. cbn [Str.split].
    now rewrite Hx, (IH Ha).
Qed.

Lemma digit_not_x (c : ascii) : Char.is_digit c = true -> negb (Char.eqc "x" c) = true.
Proof. destruct c as [[] [] [] [] [] [] [] []]; vm_compute; congruence. Qed.

Lemma float_of_numeral (z : Z) :
  (0 <= z)%Z -> float_of_string (str_of_Z z) = Ok (round64 (inject_Z z)).
Proof.
  intros Hz. destruct (str_digits z Hz) as [Hne Hd].
  rewrite (float_of_digits _ Hne Hd). now rewrite (digits_val_str z Hz).
Qed.

Lemma format_dim_int (a : Z) :
  (0 <= a)%Z ->
  format_dim (Int a)
  = if (String.length (str_of_Z a) <=? max_str_digits)%nat
    then Ok (str_of_Z a) else Raise ValueError.
Proof.
  intros Ha. unfold format_dim. cbn [Num.is_integral Num.to_int].
  rewrite !bind_ok. unfold str_int. now rewrite Z.abs_eq.
Qed.

Lemma size_key_int (a b : Z) :
  (0 <= a)%Z -> (0 <= b)%Z ->
  (String.length (str_of_Z a) <= max_str_digits)%nat ->
  (String.length (str_of_Z b) <= max_str_digits)%nat ->
  format_size (Int a) (Int b) = Ok (str_of_Z a +:+ "x" +:+ str_of_Z b)
  /\ size_key (str_of_Z a +:+ "x" +:+ str_of_Z b)
     = Ok (round64 (inject_Z a), round64 (inject_Z b)).
Proof.
  intros Ha Hb La Lb. apply Nat.leb_le in La, Lb. split.
  { unfold format_size. rewrite (format_dim_int a Ha), La, bind_ok.
    now rewrite (format_dim_int b Hb), Lb, bind_ok. }
  unfold size_key.
  destruct (str_digits a Ha) as [_ Hda]. destruct (str_digits b Hb) as [_ Hdb].
  change ("x" +:+ str_of_Z b) with (String "x" (str_of_Z b)).
  rewrite (split_two "x" _ _ (forallb_impl _ _ _ digit_not_x Hda)
                              (forallb_impl _ _ _ digit_not_x Hdb)).
  cbn [item nth_error]. rewrite !bind_ok.
  rewrite (float_of_numeral a Ha), !bind_ok, (float_of_numeral b Hb), !bind_ok.
  reflexivity.
Qed.

Lemma format_size_limit (a b : Z) :
  (0 <= a)%Z ->
  (max_str_digits < String.length (str_of_Z a))%nat ->
  format_size (Int a) (Int b) = Raise ValueError.
Proof.
  intros Ha La. apply Nat.leb_gt in La.
  unfold format_size. now rewrite (format_dim_int a Ha), La.
Qed.

Lemma size_key_catalog (size : num * num) :
  In size ALL_VALID_SIZES ->
  exists s w h kw kh,
    format_size (fst size) (snd size) = Ok s
    /\ Num.to_float (fst size) = Ok (Fin w) /\ Num.to_float (snd size) = Ok (Fin h)
    /\ size_key s = Ok (Fin kw, Fin kh) /\ (kw == w)%Q /\ (kh == h)%Q.
Proof.
  intros Hin. pose proof catalog_keys as H. rewrite forallb_forall in H.
  specialize (H size Hin). unfold key_check in H.
  destruct (format_size (fst size) (snd size)) as [s|]; [|discriminate].
  destruct (Num.to_float (fst size)) as [[w| |]|]; try discriminate.
  destruct (Num.to_float (snd size)) as [[h| |]|]; try discriminate.
  destruct (size_key s) as [[[kw| |] [kh| |]]|] eqn:Ek; try discriminate.
  apply andb_prop in H as [H1 H2]. apply Qeq_bool_iff in H1, H2.
  exists s, w, h, kw, kh. repeat (split; [reflexivity|]).
  split; [exact Ek|]. split; assumption.
Qed.

End KeyFacts.

(** X15: the sort key reads the size back.  The text that
    [format_size] writes for two non-negative integers of at most 4300
    digits is their decimal numerals around an "x", and the key under
    which the matcher sorts that text is the pair of the two integers as
    floats; a width of more digits makes [format_size] raise the
    [ValueError] of [str].  And for every size of the catalog,
    fractional ones such as 6.8 x 16 included, the key of its formatted
    text is the size itself.  So the order of the returned list is the
    numeric order of the sizes. *)
Theorem size_key_reads_back_the_size :
  (forall a b : Z, (0 <= a)%Z -> (0 <= b)%Z ->
     (String.length (NumStr.str_of_Z a) <= NumStr.max_str_digits)%nat ->
     (String.length (NumStr.str_of_Z b) <= NumStr.max_str_digits)%nat ->
     Ratio.format_size (Num.Int a) (Num.Int b)
     = Ok (NumStr.str_of_Z a +:+ "x" +:+ NumStr.str_of_Z b)
     /\ Ratio.size_key (NumStr.str_of_Z a +:+ "x" +:+ NumStr.str_of_Z b)
        = Ok (Float.round64 (inject_Z a), Float.round64 (inject_Z b)))
  /\ (forall a b : Z, (0 <= a)%Z ->
        (NumStr.max_str_digits < String.length (NumStr.str_of_Z a))%nat ->
        Ratio.format_size (Num.Int a) (Num.Int b) = Raise ValueError)
  /\ (forall size, In size Ratio.ALL_VALID_SIZES ->
        exists s w h kw kh,
          Ratio.format_size (fst size) (snd size) = Ok s
          /\ Num.to_float (fst size) = Ok (Float.Fin w)
          /\ Num.to_float (snd size) = Ok (Float.Fin h)
          /\ Ratio.size_key s = Ok (Float.Fin kw, Float.Fin kh)
          /\ (kw == w)%Q /\ (kh == h)%Q).
Proof.
  split; [exact size_key_int|]. split; [exact format_size_limit | exact size_key_catalog].
Qed.

(** ** More on trimming *)

Section StripFacts.

Lemma strip_app_spaces_l (a y : string) :
  Str.forallb Char.isspace a = true -> Str.strip (a +:+ y) = Str.strip y.
Proof.
  intros Ha. unfold Str.strip. destruct (Str.rstrip y) as [|c r] eqn:Ey.
  - apply rstrip_empty in Ey.
    rewrite rstrip_spaces; [reflexivity|]. now rewrite forallb_app, Ha, Ey.
  - rewrite rstrip_app_keep by congruence. rewrite Ey. now apply lstrip_app_spaces.
Qed.

Lemma filter_app (q : ascii -> bool) (a b : string) :
  Str.filter q (a +:+ b) = Str.filter q a +:+ Str.filter q b.
Proof.
  induction a as [|c a IH]; [reflexivity|]. rewrite app_cons_s. cbn [Str.filter].
  rewrite IH. now destruct (q c).
Qed.

Lemma strip_split (v : string) :
  exists a b, v = a +:+ Str.strip v +:+ b
              /\ Str.forallb Char.isspace a = true /\ Str.forallb Char.isspace b = true.
Proof.
  destruct (rstrip_split v) as (b & Hv & Hb).
  destruct (lstrip_split (Str.rstrip v)) as (a & Hr & Ha).
  exists a, b. split; [|auto]. unfold Str.strip.
  rewrite Hv at 1. rewrite Hr at 1. now rewrite app_assoc_s.
Qed.

Lemma strip_idem (v : string) : Str.strip (Str.strip v) = Str.strip v.
Proof. apply strip_fixed; [apply strip_head | apply strip_ends]. Qed.

End StripFacts.

(** ** Categories *)

Example format_categories_tests :
  Categories.format_categories Categories.test1 = Some Categories.expected1
  /\ Categories.format_categories Categories.test2 = Some Categories.expected2.
Proof. split; vm_compute; reflexivity. Qed.

Section TitleFacts.
Import Categories.

(** A character in lower case: cased as before, not changed again,
    white space or comma only if it was. *)
Lemma lower_step (c : ascii) :
  is_cased (Char.lower c) = is_cased c
  /\ Char.lower (Char.lower c) = Char.lower c
  /\ Char.isspace (Char.lower c) = Char.isspace c
  /\ no_comma (Char.lower c) = no_comma c.
Proof. destruct c as [[] [] [] [] [] [] [] []]; vm_compute; repeat split. Qed.

(** The title-case form of a character: one character of the same
    kind that is its own title-case form, or "Ss" for the sharp s. *)
Lemma title_step (c : ascii) (o : string) :
  title_char c = Some o ->
  (exists u, o = String u ""
             /\ title_char u = Some (String u "")
             /\ is_cased u = is_cased c
             /\ Char.isspace u = Char.isspace c
             /\ no_comma u = no_comma c)
  \/ (o = "Ss" /\ is_cased c = true /\ Char.isspace c = false /\ no_comma c = true).
Proof.
  destruct c as [[] [] [] [] [] [] [] []]; intros H; vm_compute in H;
    try discriminate H; injection H as <-;
    first [ left; eexists; split; [reflexivity|]; vm_compute; repeat split; fail
          | right; vm_compute; repeat split ].
Qed.

Lemma title_from_cons (b : bool) (c : ascii) (s : string) :
  title_from b (String c s)
  = match (if b then Some (String (Char.lower c) "") else title_char c),
          title_from (is_cased c) s with
    | Some o, Some r => Some (o +:+ r)
    | _, _ => None
    end.
Proof. reflexivity. Qed.

Lemma title_from_idem (s : string) (b : bool) (r : string) :
  title_from b s = Some r -> title_from b r = Some r.
Proof.
  revert b r; induction s as [|c s IH]; intros b r.
  - cbn. now intros [= <-].
  - rewrite title_from_cons.
    destruct (title_from (is_cased c) s) as [r'|] eqn:Er.
    2:{ destruct (if b then _ else _); discriminate. }
    specialize (IH _ _ Er). destruct b.
    + intros [= <-]. rewrite app_cons_s, app_nil_s, title_from_cons.
      destruct (lower_step c) as (Hc & Hl & _). now rewrite Hc, Hl, IH.
    + destruct (title_char c) as [o|] eqn:Eo; [|discriminate]. intros [= <-].
      destruct (title_step c o Eo) as [(u & -> & Hu & Hc & _) | (-> & Hc & _)].
      * rewrite app_cons_s, app_nil_s, title_from_cons. now rewrite Hu, Hc, IH.
      * change ("Ss" +:+ r') with (String "S" (String "s" r')).
        rewrite title_from_cons. change (title_char "S") with (Some "S").
        change (is_cased "S") with true. rewrite title_from_cons.
        change (is_cased "s") with true. change (Char.lower "s") with "s"%char.
        rewrite <- Hc, IH. reflexivity.
Qed.

(** Title case keeps the shape of a text: empty or not, white space
    at either end, commas. *)
Lemma title_from_shape (s : string) (b : bool) (r : string) :
  title_from b s = Some r ->
  (s = "" <-> r = "")
  /\ Str.head_space r = Str.head_space s
  /\ Str.ends_space r = Str.ends_space s
  /\ Str.forallb no_comma r = Str.forallb no_comma s.
Proof.
  revert b r; induction s as [|c s IH]; intros b r.
  - cbn. intros [= <-]. repeat split; reflexivity.
  - rewrite title_from_cons.
    destruct (title_from (is_cased c) s) as [r'|] eqn:Er.
    2:{ destruct (if b then _ else _); discriminate. }
    destruct (IH _ _ Er) as (He & Hh & Hn & Hk).
    assert (Hends : forall u, Char.isspace u = Char.isspace c ->
              Str.ends_space (String u r') = Str.ends_space (String c s)).
    { intros u Hu. cbn [Str.ends_space]. destruct s as [|c' s'].
      - destruct r' as [|x r'']; [exact Hu|]. destruct He as [He _].
        specialize (He eq_refl). discriminate.
      - destruct r' as [|x r'']; [|exact Hn]. destruct He as [_ He].
        specialize (He eq_refl). discriminate. }
    assert (Hone : forall u, Char.isspace u = Char.isspace c -> no_comma u = no_comma c ->
              (String c s = "" <-> String u r' = "")
              /\ Str.head_space (String u r') = Str.head_space (String c s)
              /\ Str.ends_space (String u r') = Str.ends_space (String c s)
              /\ Str.forallb no_comma (String u r') = Str.forallb no_comma (String c s)).
    { intros u Hu Hc. split; [split; discriminate|]. split; [exact Hu|].
      split; [now apply Hends|]. cbn [Str.forallb]. now rewrite Hc, Hk. }
    destruct b.
    + intros [= <-]. rewrite app_cons_s, app_nil_s.
      destruct (lower_step c) as (_ & _ & Hsp & Hcm). now apply Hone.
    + destruct (title_char c) as [o|] eqn:Eo; [|discriminate]. intros [= <-].
      destruct (title_step c o Eo) as [(u & -> & _ & _ & Hsp & Hcm) | (-> & _ & Hsp & Hcm)].
      * rewrite app_cons_s, app_nil_s. now apply Hone.
      * change ("Ss" +:+ r') with (String "S" (String "s" r')).
        split; [split; discriminate|]. split; [cbn; now rewrite Hsp|]. split.
        -- transitivity (Str.ends_space (String "s" r')); [reflexivity|].
           apply Hends. now rewrite Hsp.
        -- cbn [Str.forallb]. rewrite Hk, Hcm. reflexivity.
Qed.

Lemma title_item (x y : string) : item_ok x -> title x = Some y -> item_ok y.
Proof.
  intros [(Hne & Hh & He) Hc] Ht. apply title_from_shape in Ht as (Hemp & Hh' & He' & Hc').
  split; [split; [|split]|].
  - intros E. apply Hne. now apply Hemp.
  - congruence.
  - congruence.
  - fold no_comma in Hc. unfold no_comma in *. congruence.
Qed.

Lemma title_all_spec (l ys : list string) :
  title_all l = Some ys -> Forall item_ok l ->
  Forall item_ok ys /\ title_all ys = Some ys /\ (l = [] <-> ys = []).
Proof.
  revert ys; induction l as [|x l IH]; intros ys.
  - cbn. intros [= <-] _. repeat split; auto.
  - cbn [title_all]. destruct (title x) as [y|] eqn:Ey; [|discriminate].
    destruct (title_all l) as [ys'|]; [|discriminate]. intros [= <-] Hall.
    inversion Hall as [|? ? Hx Hl]; subst. destruct (IH _ eq_refl Hl) as (H1 & H2 & _).
    split; [constructor; [now apply (title_item x) | exact H1]|].
    split; [|split; discriminate].
    cbn [title_all]. unfold title in *. now rewrite (title_from_idem _ _ _ Ey), H2.
Qed.

(** *** Splitting and joining *)

Lemma split_app_sep (c : ascii) (a b : string) :
  Str.forallb (fun x => negb (Char.eqc c x)) a = true ->
  Str.split c (a +:+ String c b) = a :: Str.split c b.
Proof.
  intros Ha. induction a as [|x a IH].
  - rewrite app_nil_s. cbn [Str.split].
    now assert (Char.eqc c c = true) as -> by now apply eqc_eq.
  - cbn [Str.forallb] in Ha. apply andb_prop in Ha as [Hx Ha].
    apply negb_true_iff in Hx. rewrite app_cons_s. cbn [Str.split].
    now rewrite Hx, (IH Ha).
Qed.

Lemma split_join (c : ascii) (l : list string) :
  l <> [] -> Forall (fun x => Str.forallb (fun y => negb (Char.eqc c y)) x = true) l ->
  Str.split c (Str.join (String c "") l) = l.
Proof.
  induction l as [|x l IH]; [congruence|]. intros _ Hall.
  inversion Hall as [|? ? Hx Hl]; subst. destruct l as [|y l].
  - cbn. now apply split_none.
  - rewrite join_cons. change (String c "" +:+ Str.join (String c "") (y :: l))
      with (String c (Str.join (String c "") (y :: l))).
    rewrite (split_app_sep c x _ Hx). f_equal. apply IH; [discriminate | exact Hl].
Qed.

Lemma split_pieces (c : ascii) (s : string) :
  Forall (fun x => Str.forallb (fun y => negb (Char.eqc c y)) x = true) (Str.split c s).
Proof.
  induction s as [|x s IH]; [repeat constructor|]. cbn [Str.split].
  destruct (Char.eqc c x) eqn:E; [constructor; [reflexivity | exact IH]|].
  destruct (Str.split c s) as [|p ps]; [repeat constructor; cbn; now rewrite E|].
  inversion IH as [|? ? Hp Hps]; subst. constructor; [|exact Hps].
  cbn [Str.forallb]. now rewrite E, Hp.
Qed.

Lemma stripped_items (s : string) :
  Forall item_ok
    (List.filter (fun cat => negb (Str.is_empty cat))
                 (List.map Str.strip (Str.split "," s))).
Proof.
  apply List.Forall_forall. intros x Hx. apply filter_In in Hx as [Hx Hne].
  apply in_map_iff in Hx as (p & <- & Hp). apply negb_true_iff in Hne.
  split; [now apply strip_trimmed|].
  pose proof (split_pieces "," s) as Hall. rewrite List.Forall_forall in Hall.
  specialize (Hall p Hp). cbn beta in Hall.
  destruct (strip_split p) as (a & b & Hv & _). rewrite Hv, !forallb_app in Hall.
  apply andb_prop in Hall as [_ Hall]. now apply andb_prop in Hall as [Hall _].
Qed.

Lemma items_fixed (ys : list string) :
  Forall item_ok ys ->
  List.filter (fun cat => negb (Str.is_empty cat)) (List.map Str.strip ys) = ys.
Proof.
  induction 1 as [|y ys [(Hne & Hh & He) _] Hys IH]; [reflexivity|].
  cbn [List.map List.filter]. rewrite (strip_fixed y Hh He).
  destruct y; [congruence|]. cbn [Str.is_empty negb]. now rewrite IH.
Qed.

Lemma format_categories_spec (s r : string) :
  format_categories s = Some r -> formatted r /\ format_categories r = Some r.
Proof.
  unfold format_categories at 1. destruct (Price.blank s).
  { intros [= <-]. split; [now left | reflexivity]. }
  destruct (title_all _) as [ys|] eqn:Et; [|discriminate]. intros [= <-].
  destruct (title_all_spec _ _ Et (stripped_items s)) as (Hok & Hidem & _).
  destruct ys as [|y ys]; [split; [now left | reflexivity]|].
  assert (Hsplit : Str.split "," (Str.join "," (y :: ys)) = y :: ys).
  { apply (split_join ","); [discriminate|].
    eapply List.Forall_impl; [|exact Hok]. now intros x [_ Hx]. }
  split.
  - right. exists (y :: ys). split; [discriminate|]. split; [exact Hok|]. now split.
  - unfold format_categories.
    assert (Hb : Price.blank (Str.join "," (y :: ys)) = false).
    { destruct (Price.blank _) eqn:E; [|reflexivity]. apply blank_spaces in E.
      inversion Hok as [|? ? [(Hne & Hh & _) _] _]; subst.
      assert (Hj : exists t, Str.join "," (y :: ys) = y +:+ t).
      { destruct ys; [exists ""; cbn; now rewrite app_empty_r | eexists; apply join_cons]. }
      destruct Hj as [t Hj]. rewrite Hj in E. destruct y as [|c y']; [congruence|].
      rewrite app_cons_s in E. cbn [Str.forallb Str.head_space] in *.
      apply andb_prop in E as [E _]. congruence. }
    now rewrite Hb, Hsplit, (items_fixed _ Hok), Hidem.
Qed.

End TitleFacts.

(** X18: [format_categories] normalises and is idempotent.  Whatever it
    returns is either empty or a list of items separated by single
    commas in which every item is non-empty, has no white space at its
    ends and holds no comma (so no blank follows a comma and no item is
    empty); and formatting the result again gives the result back. *)
Theorem format_categories_is_idempotent (s r : string) :
  Categories.format_categories s = Some r ->
  Categories.formatted r /\ Categories.format_categories r = Some r.
Proof. exact (format_categories_spec s r). Qed.

Lemma format_categories_is_idempotent_witness :
  Categories.formatted Categories.expected1
  /\ Categories.format_categories Categories.expected1 = Some Categories.expected1.
Proof.
  apply (format_categories_is_idempotent Categories.test1 Categories.expected1).
  vm_compute. reflexivity.
Defined.

(** ** Missing titles *)

Section PathFacts.
Import Paths TitleFix.

Lemma split_nonempty (c : ascii) (s : string) : Str.split c s <> [].
Proof.
  destruct s as [|x s]; [discriminate|]. cbn [Str.split].
  destruct (Char.eqc c x); [discriminate|]. now destruct (Str.split c s).
Qed.

Lemma split_app (c : ascii) (a b : string) :
  Str.split c (a +:+ String c b) = Str.split c a ++ Str.split c b.
Proof.
  induction a as [|x a IH].
  - rewrite app_nil_s. cbn [Str.split].
    now assert (Char.eqc c c = true) as -> by now apply eqc_eq.
  - rewrite app_cons_s. cbn [Str.split]. destruct (Char.eqc c x).
    + now rewrite IH.
    + rewrite IH. pose proof (split_nonempty c a) as Hne.
      destruct (Str.split c a); [congruence | reflexivity].
Qed.

Lemma name_of_file (dir x : string) :
  Str.forallb (fun y => negb (Char.eqc "/" y)) x = true ->
  x <> "" -> x <> "." -> name (dir +:+ "/" +:+ x) = x.
Proof.
  intros Hx Hne Hdot. unfold name, parts.
  change ("/" +:+ x) with (String "/" x).
  rewrite split_app, (split_none "/" x Hx), List.filter_app.
  cbn [List.filter].
  assert (negb (Str.is_empty x || String.eqb x ".") = true) as ->.
  { apply negb_true_iff, orb_false_iff. split; [now destruct x|].
    now apply String.eqb_neq. }
  apply last_last.
Qed.

Lemma rfind_dot_last (a b : string) (i : nat) (last : option nat) :
  Str.forallb (fun y => negb (Char.eqc "." y)) b = true ->
  Validator.rfind_dot (a +:+ String "." b) i last = Some (i + String.length a)%nat.
Proof.
  intros Hb. revert i last; induction a as [|x a IH]; intros i last.
  - rewrite app_nil_s. cbn [Validator.rfind_dot String.length].
    assert (Char.eqc "." "." = true) as -> by reflexivity.
    rewrite Nat.add_0_r. generalize (S i). clear - Hb.
    induction b as [|y b IH]; intros j; [reflexivity|].
    cbn [Str.forallb] in Hb. apply andb_prop in Hb as [Hy Hb].
    apply negb_true_iff in Hy. cbn [Validator.rfind_dot]. rewrite Hy. now apply IH.
  - rewrite app_cons_s. cbn [Validator.rfind_dot String.length].
    rewrite IH. f_equal. lia.
Qed.

Lemma stem_of_file (a b : string) :
  a <> "" -> b <> "" -> Str.forallb (fun y => negb (Char.eqc "." y)) b = true ->
  stem_of_name (a +:+ String "." b) = a.
Proof.
  intros Ha Hb Hnd. unfold stem_of_name. rewrite (rfind_dot_last a b 0 None Hnd).
  cbn [Nat.add]. rewrite length_app_s. cbn [String.length].
  assert ((0 <? String.length a)%nat = true) as ->.
  { apply Nat.ltb_lt. destruct a; [congruence | cbn; lia]. }
  assert ((String.length a <? String.length a + S (String.length b) - 1)%nat = true) as ->.
  { apply Nat.ltb_lt. destruct b; [congruence | cbn; lia]. }
  apply substring_app_exact.
Qed.

Lemma extract_title (dir ds rest : string) :
  ds <> "" -> Str.forallb Char.is_digit ds = true ->
  Str.forallb (fun y => negb (Char.eqc "/" y)) rest = true ->
  extract_title_from_filename (dir +:+ "/" +:+ ds +:+ "-" +:+ rest +:+ ".txt")
  = underscores_to_blanks rest.
Proof.
  intros Hne Hd Hrest. unfold extract_title_from_filename, stem.
  set (st := ds +:+ "-" +:+ rest).
  assert (Hfile : ds +:+ "-" +:+ rest +:+ ".txt" = st +:+ String "." "txt").
  { unfold st. now rewrite !app_assoc_s. }
  rewrite Hfile.
  assert (Hst : st <> "").
  { unfold st. destruct ds; [congruence | discriminate]. }
  rewrite name_of_file.
  - rewrite (stem_of_file st "txt" Hst); [|discriminate | reflexivity].
    unfold st. now rewrite (sub_number_prefix ds rest Hne Hd).
  - unfold st. rewrite !forallb_app. rewrite Hrest.
    assert (Str.forallb (fun y => negb (Char.eqc "/" y)) ds = true) as ->; [|reflexivity].
    eapply forallb_impl; [|exact Hd]. intros c Hc.
    destruct c as [[] [] [] [] [] [] [] []]; vm_compute in Hc |- *; congruence.
  - destruct st; [congruence | discriminate].
  - destruct ds as [|c [|c' r]]; [congruence| |discriminate].
    unfold st. rewrite app_cons_s. intros [= -> _].
Qed.

End PathFacts.

(** X19: the title taken from a file name.  For a description file
    "dir/digits-rest.txt" (any directory, [rest] without a slash),
    [extract_title_from_filename] returns [rest] with every underscore
    turned into a blank: the directory, the number with its dash and the
    extension are dropped, dots inside [rest] are kept. *)
Theorem extract_title_from_numbered_file (dir ds rest : string) :
  ds <> "" -> Str.forallb Char.is_digit ds = true ->
  Str.forallb (fun y => negb (Char.eqc "/" y)) rest = true ->
  TitleFix.extract_title_from_filename (dir +:+ "/" +:+ ds +:+ "-" +:+ rest +:+ ".txt")
  = TitleFix.underscores_to_blanks rest.
Proof. exact (extract_title dir ds rest). Qed.

Lemma extract_title_from_numbered_file_witness :
  TitleFix.extract_title_from_filename
    ("Images/33-The_Witches" +:+ "/" +:+ "33" +:+ "-" +:+ "The_Witches" +:+ ".txt")
  = TitleFix.underscores_to_blanks "The_Witches".
Proof.
  apply (extract_title_from_numbered_file "Images/33-The_Witches" "33" "The_Witches");
    [discriminate | reflexivity | reflexivity].
Defined.

Section UpdateFacts.
Import Document TitleFix.

Lemma is_title_line_nl (r : string) :
  is_title_line (r +:+ Str.nl) = String.eqb (Str.strip r) "Title".
Proof. unfold is_title_line. now rewrite (strip_app_spaces r Str.nl nl_space). Qed.

Lemma replaced_nl (r : string) : replaced (r +:+ Str.nl) = replaced r.
Proof. unfold replaced. now rewrite (strip_app_spaces r Str.nl nl_space). Qed.

(** Lines that do not read "Title" are copied. *)
Lemma update_pass (t : string) (ls rest : list string) :
  forallb (fun l => negb (is_title_line l)) ls = true ->
  update_lines t (ls ++ rest)
  = (ls ++ fst (update_lines t rest), snd (update_lines t rest)).
Proof.
  induction ls as [|l ls IH]; intros H.
  - cbn [app]. now destruct (update_lines t rest).
  - cbn [forallb] in H. apply andb_prop in H as [Hl Hls].
    apply negb_true_iff in Hl. cbn [app update_lines]. rewrite Hl, (IH Hls).
    reflexivity.
Qed.

Lemma update_none (t : string) (ls : list string) :
  forallb (fun l => negb (is_title_line l)) ls = true ->
  update_lines t ls = (ls, false).
Proof.
  intros H. rewrite <- (app_nil_r ls) at 1. rewrite (update_pass t ls [] H).
  cbn. now rewrite app_nil_r.
Qed.

Lemma updated_exists (t : string) (ls : list string) :
  snd (update_lines t ls) = existsb is_title_line ls.
Proof.
  induction ls as [|l ls IH]; [reflexivity|]. cbn [update_lines existsb].
  destruct (is_title_line l); [reflexivity|]. exact IH.
Qed.

(** A name made of letters looks like a header. *)
Lemma name_looks_like_header (n : string) :
  name_ok n = true -> looks_like_header n = true.
Proof.
  unfold name_ok. intros H. apply andb_prop in H as [Hne Hl].
  destruct n as [|c n]; [discriminate|]. cbn [Str.forallb] in Hl.
  apply andb_prop in Hl as [Hc Hn].
  unfold looks_like_header, Re.rmatch, header_re, Re.Plus.
  cbn [Re.bt Re.pos Re.rest Re.caps Nat.eqb]. rewrite Hc.
  erewrite star_bt_longest; [reflexivity|].
  destruct (takewhile_app_stop Char.is_letter n "" Hn I) as [Ht Hd].
  rewrite app_empty_r in Ht, Hd. rewrite Ht, Hd.
  cbn [Re.bt Re.pos Re.rest Re.caps]. reflexivity.
Qed.

Lemma raw_lines_app (a b : list field) : raw_lines (a ++ b) = raw_lines a ++ raw_lines b.
Proof. unfold raw_lines. apply flat_map_app. Qed.

Lemma no_title_lines (doc : list field) :
  no_title_line doc = true ->
  forallb (fun l => negb (is_title_line l)) (lines_of doc) = true.
Proof.
  unfold no_title_line. rewrite lines_of_raw.
  induction (raw_lines doc) as [|r rs IH]; [reflexivity|].
  cbn [forallb List.map]. intros H. apply andb_prop in H as [Hr Hrs].
  now rewrite is_title_line_nl, Hr, (IH Hrs).
Qed.

Lemma content_no_title (ls : list string) :
  forallb (fun l => negb (String.eqb (Str.strip l) "Title")) ls = true ->
  forallb (fun l => negb (is_title_line l)) (List.map (fun l => l +:+ Str.nl) ls) = true.
Proof.
  induction ls as [|l ls IH]; [reflexivity|]. cbn [forallb List.map].
  intros H. apply andb_prop in H as [Hl Hls].
  now rewrite is_title_line_nl, Hl, (IH Hls).
Qed.

Lemma lines_of_app (a b : list field) : lines_of (a ++ b) = lines_of a ++ lines_of b.
Proof. unfold lines_of. apply flat_map_app. Qed.

Lemma lines_of_cons (f : field) (doc : list field) :
  lines_of (f :: doc)
  = (f_name f +:+ Str.nl) :: List.map (fun l => l +:+ Str.nl) (f_lines f) ++ lines_of doc.
Proof. reflexivity. Qed.

(** What follows the Title header: the first line is dropped when it
    is a content line that does not look like a header. *)
Lemma update_after_title (t : string) (ls : list string) (post : list field) :
  well_formed post = true -> no_title_line post = true ->
  forallb (fun l => negb (String.eqb (Str.strip l) "Title")) ls = true ->
  fst match List.map (fun l => l +:+ Str.nl) ls ++ lines_of post with
      | next_line :: rest' =>
          if replaced next_line then update_lines t rest'
          else update_lines t (List.map (fun l => l +:+ Str.nl) ls ++ lines_of post)
      | [] => ([], false)
      end
  = List.map (fun l => l +:+ Str.nl)
             (match ls with
              | l :: ls' => if replaced l then ls' else ls
              | [] => ls
              end)
    ++ lines_of post.
Proof.
  intros Hwf Hpost Hls.
  pose proof (no_title_lines post Hpost) as Hp.
  pose proof (content_no_title ls Hls) as Hc.
  assert (Hall : forall x y,
             forallb (fun l => negb (is_title_line l)) x = true ->
             forallb (fun l => negb (is_title_line l)) y = true ->
             update_lines t (x ++ y) = (x ++ y, false)).
  { intros x y Hx Hy. apply update_none. now rewrite List.forallb_app, Hx, Hy. }
  destruct ls as [|l ls'].
  - cbn [List.map app]. destruct post as [|f post']; [reflexivity|].
    rewrite lines_of_cons. rewrite replaced_nl.
    cbn [well_formed forallb] in Hwf. apply andb_prop in Hwf as [Hf _].
    unfold field_ok in Hf. apply andb_prop in Hf as [Hn _].
    unfold replaced. rewrite (strip_fixed (f_name f)).
    + rewrite (name_looks_like_header _ Hn), andb_false_r.
      rewrite <- lines_of_cons. now rewrite (update_none t _ Hp).
    + unfold name_ok in Hn. apply andb_prop in Hn as [_ Hn]. now apply letters_head.
    + unfold name_ok in Hn. apply andb_prop in Hn as [_ Hn]. now apply letters_ends.
  - cbn [List.map app]. rewrite replaced_nl.
    cbn [forallb List.map] in Hc. apply andb_prop in Hc as [Hl Hc'].
    destruct (replaced l).
    + now rewrite (Hall _ _ Hc' Hp).
    + change ((l +:+ Str.nl) :: List.map (fun l0 => l0 +:+ Str.nl) ls' ++ lines_of post)
        with (List.map (fun l0 => l0 +:+ Str.nl) (l :: ls') ++ lines_of post).
      rewrite (Hall (List.map (fun l0 => l0 +:+ Str.nl) (l :: ls')) (lines_of post)); [reflexivity| |exact Hp].
      cbn [forallb List.map]. now rewrite Hl, Hc'.
Qed.

Lemma update_lines_doc (t : string) (pre post : list field) (ls : list string) :
  well_formed post = true ->
  no_title_line pre = true -> no_title_line post = true ->
  forallb (fun l => negb (String.eqb (Str.strip l) "Title")) ls = true ->
  update_lines t (lines_of (pre ++ Field "Title" ls :: post))
  = (lines_of (pre ++ Field "Title" (new_content t ls) :: post), true).
Proof.
  intros Hwf Hpre Hpost Hls.
  rewrite !lines_of_app, !lines_of_cons. cbn [f_name f_lines].
  rewrite (update_pass t _ _ (no_title_lines pre Hpre)).
  cbn [update_lines]. change (is_title_line ("Title" +:+ Str.nl)) with true. cbv iota.
  cbn [fst snd]. f_equal. f_equal. f_equal.
  unfold new_content. cbn [List.map].
  rewrite (update_after_title t ls post Hwf Hpost Hls).
  rewrite <- app_comm_cons. f_equal.
Qed.

Lemma render_lines_of (doc : list field) :
  well_formed doc = true ->
  Str.iter_lines (Str.universal_newlines (render doc)) = lines_of doc.
Proof.
  intros Hdoc. unfold render. rewrite lines_of_raw.
  rewrite <- (app_empty_r (String.concat "" _)).
  rewrite parse_prefix by now apply raw_lines_one_line.
  cbn [Str.universal_newlines Str.iter_lines]. now rewrite app_nil_r.
Qed.

Lemma well_formed_app (a b : list field) :
  well_formed (a ++ b) = well_formed a && well_formed b.
Proof. unfold well_formed. apply List.forallb_app. Qed.

End UpdateFacts.

(** X20: the update fills the Title field.  On a description in the
    template's layout with one header "Title" and no other line that
    reads "Title", [update_title_in_file] writes the same description
    with the new title as first content line of the field.  A first
    content line that was there is dropped only if it does not look like
    a header (letters followed by white space or by the end of the
    line); otherwise it stays, after the new one.  When the new line is
    itself a content line, the parser reads the result field by
    field. *)
Theorem update_title_fills_the_title_field
        (t : string) (pre post : list Document.field) (ls : list string) :
  Document.well_formed (pre ++ Document.Field "Title" ls :: post) = true ->
  TitleFix.no_title_line pre = true -> TitleFix.no_title_line post = true ->
  forallb (fun l => negb (String.eqb (Str.strip l) "Title")) ls = true ->
  TitleFix.update_title_in_file
    (Document.render (pre ++ Document.Field "Title" ls :: post)) t
  = Some (Document.render
            (pre ++ Document.Field "Title" (TitleFix.new_content t ls) :: post))
  /\ (Document.line_ok (Str.tab +:+ t) = true ->
      Parser.parse_artwork_file
        (Document.render
           (pre ++ Document.Field "Title" (TitleFix.new_content t ls) :: post))
      = Document.to_map
          (pre ++ Document.Field "Title" (TitleFix.new_content t ls) :: post)).
Proof.
  intros Hwf Hpre Hpost Hls.
  pose proof Hwf as Hwf'. rewrite well_formed_app in Hwf'.
  apply andb_prop in Hwf' as [Hwpre Hw2].
  cbn [Document.well_formed forallb] in Hw2. apply andb_prop in Hw2 as [Hf Hwpost].
  split.
  - unfold TitleFix.update_title_in_file.
    rewrite (render_lines_of _ Hwf).
    now rewrite (update_lines_doc t pre post ls Hwpost Hpre Hpost Hls).
  - intros Ht. apply parse_render. rewrite well_formed_app, Hwpre.
    unfold Document.well_formed in *. cbn [forallb andb].
    rewrite Hwpost, andb_true_r.
    unfold Document.field_ok in *. cbn [Document.f_name Document.f_lines] in *.
    apply andb_prop in Hf as [Hn Hc]. rewrite Hn. cbn [andb].
    unfold TitleFix.new_content. cbn [forallb]. rewrite Ht. cbn [andb].
    destruct ls as [|l ls']; [reflexivity|].
    destruct (TitleFix.replaced l); [|exact Hc].
    cbn [forallb] in Hc. now apply andb_prop in Hc as [_ Hc].
Qed.

Lemma update_title_fills_the_title_field_witness :
  TitleFix.update_title_in_file
    (Document.render ([] ++ Document.Field "Title" []
                         :: [Document.Field "Medium" [String Char.TAB "Oil"]]))
    "The Witches"
  = Some (Document.render
            ([] ++ Document.Field "Title" (TitleFix.new_content "The Witches" [])
                :: [Document.Field "Medium" [String Char.TAB "Oil"]]))
  /\ (Document.line_ok (Str.tab +:+ "The Witches") = true ->
      Parser.parse_artwork_file
        (Document.render
           ([] ++ Document.Field "Title" (TitleFix.new_content "The Witches" [])
               :: [Document.Field "Medium" [String Char.TAB "Oil"]]))
      = Document.to_map
          ([] ++ Document.Field "Title" (TitleFix.new_content "The Witches" [])
              :: [Document.Field "Medium" [String Char.TAB "Oil"]])).
Proof.
  apply (update_title_fills_the_title_field "The Witches" []
           [Document.Field "Medium" [String Char.TAB "Oil"]] []); reflexivity.
Defined.

(** X21: without a line that reads "Title" nothing is written.
    [update_title_in_file] leaves the file alone (and returns [False])
    if and only if no line of the text, trimmed, is the word "Title". *)
Theorem update_title_needs_a_title_line (text t : string) :
  TitleFix.update_title_in_file text t = None
  <-> forallb (fun l => negb (TitleFix.is_title_line l))
              (Str.iter_lines (Str.universal_newlines text)) = true.
Proof.
  unfold TitleFix.update_title_in_file.
  pose proof (updated_exists t (Str.iter_lines (Str.universal_newlines text))) as H.
  destruct (TitleFix.update_lines t _) as [new_lines updated]. cbn [snd] in H.
  rewrite H. clear H.
  induction (Str.iter_lines (Str.universal_newlines text)) as [|l ls IH].
  - cbn. tauto.
  - cbn [existsb forallb]. destruct (TitleFix.is_title_line l); cbn [orb negb andb].
    + split; discriminate.
    + exact IH.
Qed.

(** X22: a fixed file passes the validator's title check.  For a
    description in the template's layout that starts with the "Title"
    field, and a new title that is one line of text not starting with
    white space, the text that [update_title_in_file] writes passes the
    title check of the directory validator, with the new title,
    trimmed, as the title found. *)
Theorem fixed_file_passes_the_title_check
        (t : string) (ls : list string) (post : list Document.field) :
  Document.well_formed (Document.Field "Title" ls :: post) = true ->
  TitleFix.no_title_line post = true ->
  forallb (fun l => negb (String.eqb (Str.strip l) "Title")) ls = true ->
  Document.line_ok (Str.tab +:+ t) = true ->
  Str.head_space t = false ->
  exists text',
    TitleFix.update_title_in_file
      (Document.render (Document.Field "Title" ls :: post)) t = Some text'
    /\ Validator.find_title text' = Some (Str.strip t).
Proof.
  intros Hwf Hpost Hls Ht Hhead.
  exists (Document.render (Document.Field "Title" (TitleFix.new_content t ls) :: post)).
  pose proof Hwf as Hwf'.
  cbn [Document.well_formed forallb] in Hwf'. apply andb_prop in Hwf' as [Hf Hwpost].
  split.
  - unfold TitleFix.update_title_in_file.
    rewrite (render_lines_of _ Hwf).
    pose proof (update_lines_doc t [] post ls Hwpost eq_refl Hpost Hls) as Hu.
    cbn [app] in Hu. now rewrite Hu.
  - unfold TitleFix.new_content.
    rewrite find_title_first_field.
    + f_equal. apply (strip_app_spaces_l Str.tab t). reflexivity.
    + unfold Document.well_formed in *. cbn [forallb].
      rewrite Hwpost, andb_true_r.
      unfold Document.field_ok in *. cbn [Document.f_name Document.f_lines] in *.
      apply andb_prop in Hf as [Hn Hc]. rewrite Hn. cbn [andb forallb].
      rewrite Ht. cbn [andb].
      destruct ls as [|l ls']; [reflexivity|].
      destruct (TitleFix.replaced l); [|exact Hc].
      cbn [forallb] in Hc. now apply andb_prop in Hc as [_ Hc].
    + destruct t as [|c t']; [reflexivity|].
      change (Str.tab +:+ String c t') with (String Char.TAB (String c t')).
      cbn [Str.dropwhile]. change (Char.is_blank Char.TAB) with true. cbv iota.
      cbn [Str.head_space] in Hhead.
      destruct (Char.is_blank c) eqn:Hb; [|exact Hhead].
      unfold Char.is_blank, Char.eqc in Hb. apply orb_prop in Hb as [Hb|Hb];
        apply Ascii.eqb_eq in Hb; subst c; discriminate Hhead.
Qed.

Lemma fixed_file_passes_the_title_check_witness :
  exists text',
    TitleFix.update_title_in_file
      (Document.render (Document.Field "Title" []
                          :: [Document.Field "Medium" [String Char.TAB "Oil"]]))
      "The Witches" = Some text'
    /\ Validator.find_title text' = Some (Str.strip "The Witches").
Proof.
  apply (fixed_file_passes_the_title_check "The Witches" []
           [Document.Field "Medium" [String Char.TAB "Oil"]]); reflexivity.
Defined.

(** ** The "Valid Ratios" block *)

Section RatioBlockFacts.
Import Document RatioBlock.

(** The loop, with the inner loop written as [skip_indented]. *)
Lemma rewrite_lines_cons (m : list string) (a : bool) (line : string) (rest : list string) :
  rewrite_lines m a (line :: rest)
  = if is_valid_ratios line then rewrite_lines m a (skip_indented rest)
    else if is_dimensions line && negb a then
      match rest with
      | dim_line :: rest' =>
          line :: dim_line ::
            match m with
            | [] => rewrite_lines m a rest'
            | _ :: _ => block m ++ rewrite_lines m true rest'
            end
      | [] => [line; line]
      end
    else line :: rewrite_lines m a rest.
Proof.
  cbn [rewrite_lines]. destruct (is_valid_ratios line); [|reflexivity].
  induction rest as [|l ls IH]; [reflexivity|].
  cbn [skip_indented]. destruct (block_indented l); [exact IH|reflexivity].
Qed.

(** The two header patterns exclude each other. *)
Lemma dim_not_valid (l : string) :
  is_dimensions l = true -> is_valid_ratios l = false.
Proof.
  unfold is_dimensions, is_valid_ratios, matches_re, Re.rmatch,
    DIM_LINE_REGEX, VALID_RATIOS_LINE_REGEX.
  destruct (Str.strip l) as [|c s];
    cbn [Re.bt LitI Re.rest Re.pos Re.caps Nat.eqb]; [discriminate|].
  destruct (same_letter "D" c) eqn:HD; [|discriminate].
  destruct (same_letter "V" c) eqn:HV; [|reflexivity].
  unfold same_letter, Char.eqc in HD, HV.
  apply Ascii.eqb_eq in HD, HV. rewrite <- HD in HV. discriminate HV.
Qed.

Lemma rewrite_pass (m : list string) (a : bool) (rs : list string) (rest : list string) :
  forallb (plain a) rs = true ->
  rewrite_lines m a (List.map (fun l => l +:+ Str.nl) rs ++ rest)
  = List.map (fun l => l +:+ Str.nl) rs ++ rewrite_lines m a rest.
Proof.
  induction rs as [|r rs IH]; intros H; [reflexivity|].
  cbn [forallb] in H. apply andb_prop in H as [Hr Hrs].
  unfold plain, valid_ratios_line, dimensions_line in Hr.
  apply andb_prop in Hr as [Hv Hd]. apply negb_true_iff in Hv.
  cbn [List.map app]. rewrite rewrite_lines_cons, Hv.
  replace (is_dimensions (r +:+ Str.nl) && negb a) with false.
  - now rewrite (IH Hrs).
  - destruct a; [now rewrite andb_false_r|].
    cbn [orb] in Hd. apply negb_true_iff in Hd. now rewrite Hd.
Qed.

Lemma rewrite_all (m : list string) (a : bool) (rs : list string) :
  forallb (plain a) rs = true ->
  rewrite_lines m a (List.map (fun l => l +:+ Str.nl) rs)
  = List.map (fun l => l +:+ Str.nl) rs.
Proof.
  intros H. rewrite <- (app_nil_r (List.map _ rs)) at 1.
  rewrite (rewrite_pass m a rs [] H). cbn [rewrite_lines]. apply app_nil_r.
Qed.

Lemma skip_indented_app (ind : list string) (rest : list string) :
  forallb indented_line ind = true ->
  skip_indented (List.map (fun l => l +:+ Str.nl) ind ++ rest) = skip_indented rest.
Proof.
  induction ind as [|r ind IH]; intros H; [reflexivity|].
  cbn [forallb] in H. apply andb_prop in H as [Hr Hind].
  unfold indented_line in Hr. cbn [List.map app skip_indented]. rewrite Hr.
  exact (IH Hind).
Qed.

Lemma skip_indented_flush (rs : list string) :
  starts_flush rs = true ->
  skip_indented (List.map (fun l => l +:+ Str.nl) rs) = List.map (fun l => l +:+ Str.nl) rs.
Proof.
  destruct rs as [|r rs]; [reflexivity|]. unfold starts_flush, indented_line.
  intros H. apply negb_true_iff in H. cbn [List.map skip_indented]. now rewrite H.
Qed.

Lemma block_line_indented (x : string) :
  block_indented (("    " +:+ x) +:+ Str.nl) = true.
Proof.
  unfold block_indented, Str.startswith.
  change (("    " +:+ x) +:+ Str.nl)
    with (String " " (String " " (String " " (String " " (x +:+ Str.nl))))).
  generalize (x +:+ Str.nl). intros s. now destruct s.
Qed.

(** The first run, on the lines. *)
Lemma first_run_lines (m pre : list string) (h d : string) (post : list string) :
  m <> [] ->
  forallb (plain false) pre = true -> dimensions_line h = true ->
  forallb (plain true) post = true ->
  rewrite_lines m false (List.map (fun l => l +:+ Str.nl) (pre ++ h :: d :: post))
  = List.map (fun l => l +:+ Str.nl) (pre ++ h :: d :: block_raw m ++ post).
Proof.
  intros Hm Hpre Hh Hpost. rewrite !List.map_app. cbn [List.map].
  rewrite (rewrite_pass m false pre _ Hpre). f_equal.
  rewrite rewrite_lines_cons. unfold dimensions_line in Hh.
  rewrite (dim_not_valid _ Hh), Hh. cbn [negb andb].
  destruct m as [|s m]; [contradiction|].
  rewrite (rewrite_all _ true post Hpost). reflexivity.
Qed.

(** A later run, on the lines: the old block goes, with the indented
    lines after it; the blank line before it stays. *)
Lemma next_run_lines (m1 m2 pre : list string) (h d : string) (ind post : list string) :
  m2 <> [] ->
  forallb (plain false) pre = true -> dimensions_line h = true ->
  forallb indented_line ind = true ->
  forallb (plain true) post = true -> starts_flush post = true ->
  rewrite_lines m2 false
    (List.map (fun l => l +:+ Str.nl) (pre ++ h :: d :: block_raw m1 ++ ind ++ post))
  = List.map (fun l => l +:+ Str.nl) (pre ++ h :: d :: block_raw m2 ++ "" :: post).
Proof.
  intros Hm Hpre Hh Hind Hpost Hflush. rewrite !List.map_app. cbn [List.map].
  rewrite (rewrite_pass m2 false pre _ Hpre). f_equal.
  rewrite rewrite_lines_cons. unfold dimensions_line in Hh.
  rewrite (dim_not_valid _ Hh), Hh. cbn [negb andb].
  destruct m2 as [|s m2]; [contradiction|].
  f_equal. f_equal. unfold block_raw. cbn [List.map app].
  change (block (s :: m2))
    with [Str.nl; "Valid Ratios" +:+ Str.nl;
          ("    " +:+ Str.join ", " (s :: m2)) +:+ Str.nl].
  cbn [app]. f_equal. f_equal. f_equal.
  rewrite rewrite_lines_cons.
  change (is_valid_ratios ("" +:+ Str.nl)) with false. cbv iota.
  rewrite andb_false_r. f_equal.
  rewrite rewrite_lines_cons.
  change (is_valid_ratios ("Valid Ratios" +:+ Str.nl)) with true. cbv iota.
  cbn [skip_indented].
  rewrite block_line_indented.
  rewrite List.map_app, (skip_indented_app ind _ Hind), (skip_indented_flush post Hflush).
  apply rewrite_all, Hpost.
Qed.

(** Reading back a text of complete lines. *)
Lemma read_lines (rs : list string) :
  forallb one_line rs = true ->
  Str.iter_lines (Str.universal_newlines (render_lines rs))
  = List.map (fun l => l +:+ Str.nl) rs.
Proof.
  intros H. unfold render_lines.
  rewrite <- (app_empty_r (String.concat "" _)).
  rewrite (parse_prefix rs "" H).
  cbn [Str.universal_newlines Str.iter_lines]. apply app_nil_r.
Qed.

Lemma first_run (m pre : list string) (h d : string) (post : list string) :
  forallb one_line (pre ++ h :: d :: post) = true ->
  m <> [] ->
  forallb (plain false) pre = true -> dimensions_line h = true ->
  forallb (plain true) post = true ->
  rewrite_text m (render_lines (pre ++ h :: d :: post))
  = render_lines (pre ++ h :: d :: block_raw m ++ post).
Proof.
  intros Hone Hm Hpre Hh Hpost. unfold rewrite_text.
  rewrite (read_lines _ Hone), (first_run_lines m pre h d post Hm Hpre Hh Hpost).
  reflexivity.
Qed.

Lemma forallb_app_true {A : Type} (p : A -> bool) (a b : list A) :
  forallb p (a ++ b) = true <-> forallb p a = true /\ forallb p b = true.
Proof. rewrite List.forallb_app. apply andb_true_iff. Qed.

(** Without sizes and without an old section every line is copied,
    unless the last line is a "Dimensions" header. *)
Lemma rewrite_none (n : nat) (rs : list string) :
  (length rs <= n)%nat ->
  forallb (fun r => negb (valid_ratios_line r)) rs = true ->
  dimensions_line (List.last rs "") = false ->
  rewrite_lines [] false (List.map (fun l => l +:+ Str.nl) rs)
  = List.map (fun l => l +:+ Str.nl) rs.
Proof.
  revert rs. induction n as [|n IH]; intros rs Hlen Hv Hlast.
  - destruct rs; [reflexivity|cbn in Hlen; lia].
  - destruct rs as [|r rs]; [reflexivity|].
    cbn [forallb] in Hv. apply andb_prop in Hv as [Hr Hrs].
    apply negb_true_iff in Hr. unfold valid_ratios_line in Hr.
    cbn [List.map]. rewrite rewrite_lines_cons, Hr. cbn [negb]. rewrite andb_true_r.
    cbn [length] in Hlen.
    destruct (is_dimensions (r +:+ Str.nl)) eqn:Hd.
    + destruct rs as [|d rs'].
      * cbn [List.last] in Hlast. unfold dimensions_line in Hlast. congruence.
      * cbn [List.map]. f_equal. f_equal.
        cbn [forallb] in Hrs. apply andb_prop in Hrs as [_ Hrs'].
        apply IH; [cbn [length] in Hlen; lia|exact Hrs'|].
        destruct rs' as [|x rs'']; [reflexivity|exact Hlast].
    + f_equal. apply IH; [lia|exact Hrs|].
      destruct rs as [|x rs']; [reflexivity|exact Hlast].
Qed.

End RatioBlockFacts.

(** X23: the first run adds the block after the dimensions.  In a text
    of complete lines whose first "Dimensions" header is followed by a
    line, and which has no "Valid Ratios" header, [process_artwork_file]
    with sizes found writes the same lines with three more after the
    line that follows the header: a blank line, "Valid Ratios", and the
    sizes, indented by four blanks and separated by ", ". *)
Theorem first_run_adds_the_block
        (matches pre : list string) (h d : string) (post : list string) :
  forallb Document.one_line (pre ++ h :: d :: post) = true ->
  matches <> [] ->
  forallb (RatioBlock.plain false) pre = true ->
  RatioBlock.dimensions_line h = true ->
  forallb (RatioBlock.plain true) post = true ->
  RatioBlock.rewrite_text matches (Document.render_lines (pre ++ h :: d :: post))
  = Document.render_lines (pre ++ h :: d :: RatioBlock.block_raw matches ++ post).
Proof. exact (first_run matches pre h d post). Qed.

Lemma first_run_adds_the_block_witness :
  RatioBlock.rewrite_text ["8x10"; "16x20"]
    (Document.render_lines
       (["Title"; "    A"] ++ "Dimensions" :: "    8 x 10" :: ["Medium"; "    Oil"]))
  = Document.render_lines
      (["Title"; "    A"] ++ "Dimensions" :: "    8 x 10"
         :: RatioBlock.block_raw ["8x10"; "16x20"] ++ ["Medium"; "    Oil"]).
Proof.
  apply (first_run_adds_the_block ["8x10"; "16x20"] ["Title"; "    A"]
           "Dimensions" "    8 x 10" ["Medium"; "    Oil"]);
    [reflexivity|discriminate|reflexivity|reflexivity|reflexivity].
Defined.

(** X24: a second run replaces the block and leaves a blank line.
    Running [process_artwork_file] on its own output, with sizes found
    both times, gives the text with the second block in place of the
    first, followed by the blank line that stood before the first.  The
    indented lines that followed the dimensions line in the original
    text ([ind]) are removed with the first block. *)
Theorem second_run_replaces_the_block
        (m1 m2 pre : list string) (h d : string) (ind post : list string) :
  forallb Document.one_line (pre ++ h :: d :: ind ++ post) = true ->
  Document.one_line (Str.join ", " m1) = true ->
  m1 <> [] -> m2 <> [] ->
  forallb (RatioBlock.plain false) pre = true ->
  RatioBlock.dimensions_line h = true ->
  forallb RatioBlock.indented_line ind = true ->
  forallb (RatioBlock.plain true) (ind ++ post) = true ->
  RatioBlock.starts_flush post = true ->
  RatioBlock.rewrite_text m2
    (RatioBlock.rewrite_text m1
       (Document.render_lines (pre ++ h :: d :: ind ++ post)))
  = Document.render_lines
      (pre ++ h :: d :: RatioBlock.block_raw m2 ++ "" :: post).
Proof.
  intros Hone Hj Hm1 Hm2 Hpre Hh Hind Hplain Hflush.
  rewrite (first_run m1 pre h d (ind ++ post) Hone Hm1 Hpre Hh Hplain).
  apply forallb_app_true in Hplain as [_ Hpost].
  unfold RatioBlock.rewrite_text. rewrite read_lines.
  - rewrite (next_run_lines m1 m2 pre h d ind post Hm2 Hpre Hh Hind Hpost Hflush).
    reflexivity.
  - apply forallb_app_true in Hone as [Hp Hone]. apply forallb_app_true. split; [exact Hp|].
    cbn [forallb] in Hone. apply andb_prop in Hone as [H1 Hone].
    apply andb_prop in Hone as [H2 Hone].
    cbn [forallb RatioBlock.block_raw app]. rewrite H1, H2, Hone. cbn [andb].
    change (Document.one_line "") with true.
    change (Document.one_line "Valid Ratios") with true.
    cbn [andb]. rewrite andb_true_r.
    unfold Document.one_line in *. rewrite forallb_app, Hj. reflexivity.
Qed.

Lemma second_run_replaces_the_block_witness :
  RatioBlock.rewrite_text ["4x5"]
    (RatioBlock.rewrite_text ["8x10"; "16x20"]
       (Document.render_lines
          (["Title"; "    A"] ++ "Dimensions" :: "    8 x 10"
             :: ["    framed"] ++ ["Medium"; "    Oil"])))
  = Document.render_lines
      (["Title"; "    A"] ++ "Dimensions" :: "    8 x 10"
         :: RatioBlock.block_raw ["4x5"] ++ "" :: ["Medium"; "    Oil"]).
Proof.
  apply (second_run_replaces_the_block ["8x10"; "16x20"] ["4x5"] ["Title"; "    A"]
           "Dimensions" "    8 x 10" ["    framed"] ["Medium"; "    Oil"]);
    first [reflexivity | discriminate].
Defined.

(** X25: with no sizes and no old section the text is written back as
    it is.  If no line of a text of complete lines is a "Valid Ratios"
    header and its last line is not a "Dimensions" header,
    [process_artwork_file] with no size found writes the text it
    read. *)
Theorem no_sizes_leaves_the_text
        (rs : list string) :
  forallb Document.one_line rs = true ->
  forallb (fun r => negb (RatioBlock.valid_ratios_line r)) rs = true ->
  RatioBlock.dimensions_line (List.last rs "") = false ->
  RatioBlock.rewrite_text [] (Document.render_lines rs) = Document.render_lines rs.
Proof.
  intros Hone Hv Hlast. unfold RatioBlock.rewrite_text.
  rewrite (read_lines rs Hone).
  now rewrite (rewrite_none (length rs) rs (le_n _) Hv Hlast).
Qed.

Lemma no_sizes_leaves_the_text_witness :
  RatioBlock.rewrite_text []
    (Document.render_lines ["Title"; "    A"; "Dimensions"; "    8 x 10"])
  = Document.render_lines ["Title"; "    A"; "Dimensions"; "    8 x 10"].
Proof.
  apply (no_sizes_leaves_the_text ["Title"; "    A"; "Dimensions"; "    8 x 10"]);
    reflexivity.
Defined.

(** X26: a "Dimensions" header on the last line is written twice.  When
    the first "Dimensions" header of a text of complete lines is its
    last line, and no "Valid Ratios" header comes before it,
    [process_artwork_file] writes the text with that line repeated and
    adds no block, whatever sizes were found. *)
Theorem last_line_header_is_doubled
        (matches pre : list string) (h : string) :
  forallb Document.one_line (pre ++ [h]) = true ->
  forallb (RatioBlock.plain false) pre = true ->
  RatioBlock.dimensions_line h = true ->
  RatioBlock.rewrite_text matches (Document.render_lines (pre ++ [h]))
  = Document.render_lines (pre ++ [h; h]).
Proof.
  intros Hone Hpre Hh. unfold RatioBlock.rewrite_text.
  rewrite (read_lines _ Hone), !List.map_app.
  rewrite (rewrite_pass matches false pre _ Hpre). cbn [List.map].
  rewrite rewrite_lines_cons. unfold RatioBlock.dimensions_line in Hh.
  rewrite (dim_not_valid _ Hh), Hh. cbn [negb andb].
  unfold Document.render_lines. now rewrite List.map_app.
Qed.

Lemma last_line_header_is_doubled_witness :
  RatioBlock.rewrite_text ["8x10"]
    (Document.render_lines (["Title"; "    A"] ++ ["Dimensions"]))
  = Document.render_lines (["Title"; "    A"] ++ ["Dimensions"; "Dimensions"]).
Proof.
  apply (last_line_header_is_doubled ["8x10"] ["Title"; "    A"] "Dimensions");
    reflexivity.
Defined.

(** ** The title check, place by place *)

Section FirstMatch.
Context {A : Type}.


End FirstMatch.

Section TitleSearch.
Import Validator.














End TitleSearch.


